(** * Financial knowledge-graph builder: resolution, loading, single-flight start

    A shallow embedding of
    - [src/src/d_entity_resolution/entity_resolution.py] (EntityResolutionService),
    - [src/src/e_neo4j_loading/neo4j_loading.py] (Neo4jGraphLoader),
    - the [/api/pipeline/start] handler of [src/app.py] and the worker it
      starts, [run_pipeline_async],
    - [run_complete_pipeline] of [src/knowledge_graph_pipeline.py],
    - [create_chunks] of [src/src/b_text_preprocessing/text_preprocessing.py],
    followed by the properties of the specification that concern them and
    by further properties of the same code.

    Conventions.  A Python [str] is a [string]; the character functions
    ([strip], [lower], [upper]) are written out for the ASCII code points,
    which is where the examples of the specification live (Python applies
    the Unicode tables to code points above 127; those are left untouched
    here).  A value that may be [None] is an [option].  The service object
    and the graph store are threaded explicitly. *)

From Stdlib Require Import Ascii String QArith Sorted.
From stdpp Require Import gmap strings list pretty.

Local Open Scope string_scope.

(** ** Python string primitives *)

Module PyStr.

(** [str.isspace] on one ASCII character: TAB..CR, FS..US and the space. *)
Definition is_space (c : ascii) : bool :=
  let n := nat_of_ascii c in
  ((9 <=? n)%nat && (n <=? 13)%nat) || ((28 <=? n)%nat && (n <=? 32)%nat).

Fixpoint lstrip (s : string) : string :=
  match s with
  | EmptyString => EmptyString
  | String c s' => if is_space c then lstrip s' else s
  end.

Fixpoint rstrip (s : string) : string :=
  match s with
  | EmptyString => EmptyString
  | String c s' =>
      match rstrip s' with
      | EmptyString => if is_space c then EmptyString else String c EmptyString
      | r => String c r
      end
  end.

(** [s.strip()] *)
Definition strip (s : string) : string := rstrip (lstrip s).

Definition lower_char (c : ascii) : ascii :=
  let n := nat_of_ascii c in
  if ((65 <=? n)%nat && (n <=? 90)%nat) then ascii_of_nat (n + 32) else c.

Definition upper_char (c : ascii) : ascii :=
  let n := nat_of_ascii c in
  if ((97 <=? n)%nat && (n <=? 122)%nat) then ascii_of_nat (n - 32) else c.

Fixpoint map_chars (f : ascii -> ascii) (s : string) : string :=
  match s with
  | EmptyString => EmptyString
  | String c s' => String (f c) (map_chars f s')
  end.

(** [s.lower()], [s.upper()] *)
Definition lower : string -> string := map_chars lower_char.
Definition upper : string -> string := map_chars upper_char.

(** [s.replace(" ", "_")]: both arguments are one character long. *)
Definition replace_char (old new : ascii) : string -> string :=
  map_chars (fun c => if Ascii.eqb c old then new else c).

(** [w in s] for strings: [w] occurs as a contiguous substring of [s]. *)
Fixpoint contains (w s : string) : bool :=
  String.prefix w s ||
  match s with
  | EmptyString => false
  | String _ s' => contains w s'
  end.

(** Truthiness of a [str]: only the empty string is falsy. *)
Definition truthy (s : string) : bool :=
  match s with EmptyString => false | _ => true end.

(** Truthiness of an optional [str]: [None] and [""] are falsy. *)
Definition truthy_opt (o : option string) : bool :=
  match o with None => false | Some s => truthy s end.

(** A non-empty string made of whitespace only. *)
Fixpoint all_space (s : string) : bool :=
  match s with
  | EmptyString => true
  | String c s' => is_space c && all_space s'
  end.

Definition whitespace_only (s : string) : bool := truthy s && all_space s.

End PyStr.

(** ** Stage D: entity resolution *)

(** The five node labels, [self.VALID_LABELS]. *)
Inductive label := Person | Company | Product | Event | Entity.

Global Instance label_eq_dec : EqDecision label.
Proof. solve_decision. Defined.

Definition label_name (l : label) : string :=
  match l with
  | Person => "Person" | Company => "Company" | Product => "Product"
  | Event => "Event" | Entity => "Entity"
  end.

Definition VALID_LABELS : list label := [Person; Company; Product; Event; Entity].

(** [label in self.VALID_LABELS], returning the label found. *)
Definition find_label (s : string) : option label :=
  List.find (fun l => String.eqb (label_name l) s) VALID_LABELS.

(** What [self.llm_client.chat.completions.create(...)] followed by
    [response.choices[0].message.content] delivers: either the text of the
    answer, or an exception anywhere inside the [try] block. *)
Inductive llm_reply :=
| Raised
| Content (text : string).

(** One raw triple of an extraction row; [r.get(...)] may give [None]. *)
Record raw_triple := mk_triple {
  subject : option string;
  relation : option string;
  object_ : option string;
}.

(** One row of the extracted-records frame. *)
Record extraction_row := mk_row {
  entities : list string;
  relations : list raw_triple;
  row_source : option string;
  row_article_id : option string;
  row_published_at : option string;
}.

(** The dicts appended to [entity_objs] and [relation_objs]. *)
Record entity_obj := mk_entity {
  e_id : option string;
  e_name : string;
  e_label : label;
  e_source : option string;
  e_article_id : option string;
  e_published_at : option string;
}.

Record relation_obj := mk_relation {
  start_id : option string;
  end_id : option string;
  rel_type : string;
  confidence : Q;
  rel_article_id : option string;
  rel_source : option string;
  rel_published_at : option string;
}.

(** The service object: its [entity_cache] dict, and the number of calls
    made to the language model so far (the model may answer the same
    question differently each time). *)
Record service := mk_service {
  entity_cache : gmap string string;
  llm_calls : nat;
}.

(** [EntityResolutionService(...)]: a fresh instance, empty cache. *)
Definition new_service : service :=
  {| entity_cache := ∅; llm_calls := 0 |}.

(** [uuid.NAMESPACE_DNS] *)
Definition NAMESPACE_DNS : string := "6ba7b810-9dad-11d1-80b4-00c04fd430c8".

(** [_heuristic_type] *)
Definition _heuristic_type (name : string) : label :=
  if negb (PyStr.truthy name) then Entity
  else
    let name_lower := PyStr.lower name in
    if existsb (fun w => PyStr.contains w name_lower)
         ["inc"; "corp"; "company"; "bank"; "fund"]
    then Company
    else if existsb (fun w => PyStr.contains w name_lower)
              ["mr"; "dr"; "ceo"; "president"]
    then Person
    else Entity.

(** The 0.9 literal of [clean_extraction_row]. *)
Definition default_confidence : Q := 9 # 10.

Section Resolution.

(** [str(uuid.uuid5(namespace, key))]: a fixed function of its arguments
    (SHA-1 of namespace and key). *)
Variable uuid5 : string -> string -> string.

(** The language model: its reply to the [n]-th call, asked about a name. *)
Variable llm : nat -> string -> llm_reply.

(** [infer_type_llm] *)
Definition infer_type_llm (name : string) (st : service) : label * service :=
  let st' := {| entity_cache := entity_cache st; llm_calls := S (llm_calls st) |} in
  match llm (llm_calls st) name with
  | Content text =>
      let lbl := PyStr.strip text in
      (match find_label lbl with Some l => l | None => Entity end, st')
  | Raised => (_heuristic_type name, st')
  end.

(** [get_or_create_entity_id] *)
Definition get_or_create_entity_id (name : string) (st : service)
  : option string * service :=
  let key := PyStr.lower (PyStr.strip name) in
  if negb (PyStr.truthy key) then (None, st)
  else
    match entity_cache st !! key with
    | Some v => (Some v, st)
    | None =>
        let v := uuid5 NAMESPACE_DNS key in
        (Some v, {| entity_cache := <[key := v]> (entity_cache st);
                    llm_calls := llm_calls st |})
    end.

(** The first loop of [clean_extraction_row], over [entities]. *)
Fixpoint clean_entities (row : extraction_row) (es : list string) (st : service)
  : list entity_obj * service :=
  match es with
  | [] => ([], st)
  | e :: es' =>
      let e_str := PyStr.strip e in
      if negb (PyStr.truthy e_str) then clean_entities row es' st
      else
        let '(eid, st1) := get_or_create_entity_id e_str st in
        let '(e_type, st2) := infer_type_llm e_str st1 in
        let '(rest, st3) := clean_entities row es' st2 in
        ({| e_id := eid; e_name := e_str; e_label := e_type;
            e_source := row_source row; e_article_id := row_article_id row;
            e_published_at := row_published_at row |} :: rest, st3)
  end.

(** The body of the second loop for one triple: [None] is [continue]. *)
Definition clean_relation (row : extraction_row) (r : raw_triple) (st : service)
  : option relation_obj * service :=
  match subject r, relation r, object_ r with
  | Some subj, Some rel, Some obj =>
      if PyStr.truthy subj && PyStr.truthy obj && PyStr.truthy rel then
        let '(sid, st1) := get_or_create_entity_id subj st in
        let '(oid, st2) := get_or_create_entity_id obj st1 in
        (Some {| start_id := sid; end_id := oid;
                 rel_type := PyStr.replace_char " " "_" (PyStr.upper rel);
                 confidence := default_confidence;
                 rel_article_id := row_article_id row;
                 rel_source := row_source row;
                 rel_published_at := row_published_at row |}, st2)
      else (None, st)
  | _, _, _ => (None, st)
  end.

(** The second loop of [clean_extraction_row], over [relations]. *)
Fixpoint clean_relations (row : extraction_row) (rs : list raw_triple) (st : service)
  : list relation_obj * service :=
  match rs with
  | [] => ([], st)
  | r :: rs' =>
      let '(o, st1) := clean_relation row r st in
      let '(rest, st2) := clean_relations row rs' st1 in
      (match o with Some x => x :: rest | None => rest end, st2)
  end.

(** [clean_extraction_row] *)
Definition clean_extraction_row (row : extraction_row) (st : service)
  : (list entity_obj * list relation_obj) * service :=
  let '(entity_objs, st1) := clean_entities row (entities row) st in
  let '(relation_objs, st2) := clean_relations row (relations row) st1 in
  ((entity_objs, relation_objs), st2).

End Resolution.

(** [DataFrame.drop_duplicates(subset=...)] with its default [keep="first"]:
    a row is kept unless an earlier row has the same key.  [None] cells
    compare equal to each other, as pandas has it. *)
Fixpoint drop_duplicates_from {A K : Type} `{EqDecision K}
    (key : A -> K) (seen : list K) (l : list A) : list A :=
  match l with
  | [] => []
  | x :: l' =>
      if decide (key x ∈ seen) then drop_duplicates_from key seen l'
      else x :: drop_duplicates_from key (key x :: seen) l'
  end.

Definition drop_duplicates {A K : Type} `{EqDecision K}
    (key : A -> K) (l : list A) : list A :=
  drop_duplicates_from key [] l.

(** The subset [["start_id", "end_id", "type"]]. *)
Definition rel_key (r : relation_obj) : option string * option string * string :=
  (start_id r, end_id r, rel_type r).

Section RunResolution.

Variable uuid5 : string -> string -> string.
Variable llm : nat -> string -> llm_reply.

(** The loop of [run_resolution] over the rows of the frame, extending
    [all_entities] and [all_relations]. *)
Fixpoint resolve_rows (df : list extraction_row) (st : service)
  : (list entity_obj * list relation_obj) * service :=
  match df with
  | [] => (([], []), st)
  | row :: df' =>
      let '((ents, rels), st1) := clean_extraction_row uuid5 llm row st in
      let '((all_entities, all_relations), st2) := resolve_rows df' st1 in
      (((ents ++ all_entities)%list, (rels ++ all_relations)%list), st2)
  end.

(** [run_resolution], from the frame read at [extracted_path]:
    the [nodes] and [relations] frames. *)
Definition run_resolution (df : list extraction_row) (st : service)
  : (list entity_obj * list relation_obj) * service :=
  let '((all_entities, all_relations), st') := resolve_rows df st in
  ((drop_duplicates e_id all_entities, drop_duplicates rel_key all_relations), st').

End RunResolution.

(** ** Stage E: loading into the graph store *)

Global Instance Q_eq_dec : EqDecision Q.
Proof. solve_decision. Defined.

(** A cell of a frame after [to_csv] and [LOAD CSV WITH HEADERS]: a missing
    value and an empty string are both written as an empty field, which the
    store reads back as null. *)
Definition csv_cell (o : option string) : option string :=
  match o with
  | Some s => if PyStr.truthy s then Some s else None
  | None => None
  end.

(** One [row] of [nodes_latest.csv] and of [relations_latest.csv]. *)
Record node_row := mk_node_row {
  nr_id : option string;
  nr_name : option string;
  nr_label : label;
  nr_source : option string;
  nr_article_id : option string;
  nr_published_at : option string;
}.

Record rel_row := mk_rel_row {
  rr_start_id : option string;
  rr_end_id : option string;
  rr_type : option string;
  rr_confidence : option Q;
  rr_source : option string;
  rr_article_id : option string;
  rr_published_at : option string;
}.

Definition node_to_csv (e : entity_obj) : node_row :=
  {| nr_id := csv_cell (e_id e);
     nr_name := csv_cell (Some (e_name e));
     nr_label := e_label e;
     nr_source := csv_cell (e_source e);
     nr_article_id := csv_cell (e_article_id e);
     nr_published_at := csv_cell (e_published_at e) |}.

Definition rel_to_csv (r : relation_obj) : rel_row :=
  {| rr_start_id := csv_cell (start_id r);
     rr_end_id := csv_cell (end_id r);
     rr_type := csv_cell (Some (rel_type r));
     rr_confidence := Some (confidence r);
     rr_source := csv_cell (rel_source r);
     rr_article_id := csv_cell (rel_article_id r);
     rr_published_at := csv_cell (rel_published_at r) |}.

(** *** The property graph

    A node carries its labels and the properties the loader writes (a
    property that is absent, or set to null, is [None]).  A relationship
    refers to its end points by their position in the node list: nodes are
    only ever appended. *)
Record node := mk_node {
  n_labels : list string;
  n_id : option string;
  n_name : option string;
  n_label : option string;
  n_source : option string;
  n_article_id : option string;
  n_published_at : option string;
}.

Record edge := mk_edge {
  ed_start : nat;
  ed_end : nat;
  ed_type : string;
  ed_confidence : option Q;
  ed_source : option string;
  ed_article_id : option string;
  ed_published_at : option string;
}.

Global Instance node_eq_dec : EqDecision node.
Proof. solve_decision. Defined.

Global Instance edge_eq_dec : EqDecision edge.
Proof. solve_decision. Defined.

Record store := mk_store {
  nodes : list node;
  edges : list edge;
}.

(** **** The node statement of [load_nodes_csv]

    [MERGE (n:Entity {id: row.id})] binds every node labelled [Entity]
    whose [id] equals [row.id], and creates one when there is none; it
    refuses a null [row.id]. *)
Definition merge_matches (i : string) (n : node) : bool :=
  bool_decide ("Entity" ∈ n_labels n) && bool_decide (n_id n = Some i).

(** [apoc.create.addLabels(n, [row.label])] on the label list. *)
Definition add_label (l : string) (ls : list string) : list string :=
  if decide (l ∈ ls) then ls else (ls ++ [l])%list.

(** [SET n.name = row.name, ...] followed by [addLabels]. *)
Definition set_node (r : node_row) (n : node) : node :=
  {| n_labels := add_label (label_name (nr_label r)) (n_labels n);
     n_id := n_id n;
     n_name := nr_name r;
     n_label := Some (label_name (nr_label r));
     n_source := nr_source r;
     n_article_id := nr_article_id r;
     n_published_at := nr_published_at r |}.

(** The node [MERGE] creates: label [Entity] and the [id] only. *)
Definition bare_entity (i : string) : node :=
  {| n_labels := ["Entity"]; n_id := Some i; n_name := None; n_label := None;
     n_source := None; n_article_id := None; n_published_at := None |}.

Definition update_node (i : string) (r : node_row) (n : node) : node :=
  if merge_matches i n then set_node r n else n.

(** The statement on one row; [None] is the error of a null merge key. *)
Definition merge_node (r : node_row) (ns : list node) : option (list node) :=
  match nr_id r with
  | None => None
  | Some i =>
      if existsb (merge_matches i) ns
      then Some (map (update_node i r) ns)
      else Some (ns ++ [set_node r (bare_entity i)])%list
  end.

(** The statement over the rows of the file, in one transaction. *)
Fixpoint load_nodes_query (rows : list node_row) (ns : list node)
  : option (list node) :=
  match rows with
  | [] => Some ns
  | r :: rows' =>
      match merge_node r ns with
      | None => None
      | Some ns' => load_nodes_query rows' ns'
      end
  end.

(** **** The relationship statement of [load_relationships_csv]

    [MATCH (source {id: row.start_id})]: the nodes, of any label, whose [id]
    is [row.start_id]; a null never matches. *)
Definition id_matches (o : option string) (n : node) : bool :=
  match o with
  | None => false
  | Some i => bool_decide (n_id n = Some i)
  end.

Definition match_id (o : option string) (ns : list node) : list nat :=
  List.filter
    (fun k => match ns !! k with Some n => id_matches o n | None => false end)
    (seq 0 (length ns)).

(** [toFloat(coalesce(row.confidence, 1.0))] *)
Definition confidence_of (r : rel_row) : Q :=
  Qred (match rr_confidence r with Some c => c | None => 1 end).

(** [apoc.merge.relationship(source, row.type, {confidence, source,
    article_id, published_at}, {}, target)]: the four properties identify
    the relationship, so one is created unless a relationship of that type
    with those very properties already joins the two nodes.  A null type or
    a null identifying property is an error. *)
Definition merge_relationship (r : rel_row) (es : list edge) (st : nat * nat)
  : option (list edge) :=
  match rr_type r, rr_source r, rr_article_id r, rr_published_at r with
  | Some ty, Some so, Some ai, Some pa =>
      let e := {| ed_start := st.1; ed_end := st.2; ed_type := ty;
                  ed_confidence := Some (confidence_of r);
                  ed_source := Some so; ed_article_id := Some ai;
                  ed_published_at := Some pa |} in
      if decide (e ∈ es) then Some es else Some (es ++ [e])%list
  | _, _, _, _ => None
  end.

Fixpoint merge_pairs (r : rel_row) (pairs : list (nat * nat)) (es : list edge)
  : option (list edge) :=
  match pairs with
  | [] => Some es
  | p :: pairs' =>
      match merge_relationship r es p with
      | None => None
      | Some es' => merge_pairs r pairs' es'
      end
  end.

(** The pairs (source, target) the two [MATCH] clauses deliver for a row. *)
Definition endpoints (r : rel_row) (ns : list node) : list (nat * nat) :=
  list_prod (match_id (rr_start_id r) ns) (match_id (rr_end_id r) ns).

(** The statement over the rows of the file, in one transaction. *)
Fixpoint load_relationships_query (rows : list rel_row) (ns : list node)
    (es : list edge) : option (list edge) :=
  match rows with
  | [] => Some es
  | r :: rows' =>
      match merge_pairs r (endpoints r ns) es with
      | None => None
      | Some es' => load_relationships_query rows' ns es'
      end
  end.

(** *** The loader object and its surroundings *)

Inductive csv_file :=
| NodeFile (rows : list node_row)
| RelFile (rows : list rel_row).

(** [subprocess.run(["docker", "cp", ...], check=True)]: it completes, or
    raises [CalledProcessError] (caught by [copy_to_docker]), or raises
    something else (not caught). *)
Inductive copy_outcome := Copied | CopyFailed | CopyCrashed.

(** What the surroundings do during one call of [run_loading]. *)
Record infra := mk_infra {
  base_data_dir : string;
  timestamp : string;
  save_nodes_ok : bool;
  save_relations_ok : bool;
  copy_nodes : copy_outcome;
  copy_relations : copy_outcome;
  session_nodes_ok : bool;
  session_relations_ok : bool;
}.

(** The calls [run_loading] makes, in the order it makes them. *)
Inductive event :=
| ToCsv (path : string)
| CopyToDocker (dst_name : string) (ok : bool)
| LoadNodesCsv (csv_path : string) (ok : bool)
| LoadRelationshipsCsv (csv_path : string) (ok : bool).

Global Instance event_eq_dec : EqDecision event.
Proof. solve_decision. Defined.

(** The graph store, the local [neo4j_ready] directory, the import
    directory of the container, and the calls made so far. *)
Record lstate := mk_lstate {
  db : store;
  local_files : gmap string csv_file;
  import_dir : gmap string csv_file;
  trace : list event;
}.

Inductive result (A : Type) :=
| Ret (a : A)
| Raise.
Arguments Ret {A} a.
Arguments Raise {A}.

(** State passing with exceptions: the state survives a [Raise]. *)
Definition L (A : Type) : Type := lstate -> result A * lstate.

Definition ret {A} (a : A) : L A := fun s => (Ret a, s).

Definition bind {A B} (m : L A) (k : A -> L B) : L B :=
  fun s =>
    match m s with
    | (Ret a, s') => k a s'
    | (Raise, s') => (Raise, s')
    end.

Declare Scope loader_scope.
Delimit Scope loader_scope with loader.
Notation "x <- m ;; k" := (bind m (fun x => k))
  (at level 100, m at next level, right associativity) : loader_scope.

Definition log (e : event) (s : lstate) : lstate :=
  {| db := db s; local_files := local_files s; import_dir := import_dir s;
     trace := (trace s ++ [e])%list |}.

(** [frame.to_csv(path, index=False)] *)
Definition to_csv (content : csv_file) (path : string) (ok : bool) : L unit :=
  fun s =>
    let s' := log (ToCsv path) s in
    if ok then
      (Ret tt, {| db := db s'; local_files := <[path := content]> (local_files s');
                  import_dir := import_dir s'; trace := trace s' |})
    else (Raise, s').

(** [copy_to_docker] *)
Definition copy_to_docker (src_path dst_name : string) (o : copy_outcome)
  : L (option string) :=
  fun s =>
    match o, local_files s !! src_path with
    | Copied, Some content =>
        let s' := log (CopyToDocker dst_name true) s in
        (Ret (Some dst_name),
         {| db := db s'; local_files := local_files s';
            import_dir := <[dst_name := content]> (import_dir s');
            trace := trace s' |})
    | CopyCrashed, _ => (Raise, log (CopyToDocker dst_name false) s)
    | _, _ => (Ret None, log (CopyToDocker dst_name false) s)
    end.

(** [load_nodes_csv]: every exception becomes [False]; a failed statement
    leaves the store as it was. *)
Definition load_nodes_csv (csv_path : string) (session_ok : bool) : L bool :=
  fun s =>
    let loaded :=
      if session_ok then
        match import_dir s !! csv_path with
        | Some (NodeFile rows) => load_nodes_query rows (nodes (db s))
        | _ => None
        end
      else None in
    match loaded with
    | Some ns' =>
        let s' := log (LoadNodesCsv csv_path true) s in
        (Ret true, {| db := {| nodes := ns'; edges := edges (db s') |};
                      local_files := local_files s';
                      import_dir := import_dir s'; trace := trace s' |})
    | None => (Ret false, log (LoadNodesCsv csv_path false) s)
    end.

(** [load_relationships_csv] *)
Definition load_relationships_csv (csv_path : string) (session_ok : bool) : L bool :=
  fun s =>
    let loaded :=
      if session_ok then
        match import_dir s !! csv_path with
        | Some (RelFile rows) =>
            load_relationships_query rows (nodes (db s)) (edges (db s))
        | _ => None
        end
      else None in
    match loaded with
    | Some es' =>
        let s' := log (LoadRelationshipsCsv csv_path true) s in
        (Ret true, {| db := {| nodes := nodes (db s'); edges := es' |};
                      local_files := local_files s';
                      import_dir := import_dir s'; trace := trace s' |})
    | None => (Ret false, log (LoadRelationshipsCsv csv_path false) s)
    end.

(** The [neo4j_data] dict handed to the loader. *)
Record graph_batch := mk_batch {
  batch_nodes : list entity_obj;
  batch_relations : list relation_obj;
}.

Definition nodes_path (w : infra) : string :=
  base_data_dir w +:+ "/neo4j_ready/nodes_" +:+ timestamp w +:+ ".csv".

Definition relations_path (w : infra) : string :=
  base_data_dir w +:+ "/neo4j_ready/relations_" +:+ timestamp w +:+ ".csv".

(** [run_loading] *)
Definition run_loading (w : infra) (neo4j_data : graph_batch) : L bool :=
  (let nodes_csv := nodes_path w in
   let rels_csv := relations_path w in
   _ <- to_csv (NodeFile (map node_to_csv (batch_nodes neo4j_data)))
               nodes_csv (save_nodes_ok w) ;;
   _ <- to_csv (RelFile (map rel_to_csv (batch_relations neo4j_data)))
               rels_csv (save_relations_ok w) ;;
   nodes_docker <- copy_to_docker nodes_csv "nodes_latest.csv" (copy_nodes w) ;;
   rels_docker <- copy_to_docker rels_csv "relations_latest.csv" (copy_relations w) ;;
   if PyStr.truthy_opt nodes_docker && PyStr.truthy_opt rels_docker then
     loaded_nodes <- load_nodes_csv "nodes_latest.csv" (session_nodes_ok w) ;;
     if loaded_nodes then
       loaded_rels <- load_relationships_csv "relations_latest.csv"
                        (session_relations_ok w) ;;
       if loaded_rels then ret true else ret false
     else ret false
   else ret false)%loader.

(** ** The start handler of the web application *)

Module App.

Record stats := mk_stats {
  articles_collected : nat;
  chunks_created : nat;
  entities_extracted : nat;
  nodes_created : nat;
  relationships_created : nat;
}.

(** The global [pipeline_status] dict. *)
Record pipeline_status := mk_status {
  running : bool;
  current_stage : string;
  stage_name : string;
  progress : nat;
  message : string;
  error : string;
  completed : bool;
  stats_of : stats;
}.

Definition zero_stats : stats :=
  {| articles_collected := 0; chunks_created := 0; entities_extracted := 0;
     nodes_created := 0; relationships_created := 0 |}.

(** The value the module binds [pipeline_status] to when it is loaded. *)
Definition initial_status : pipeline_status :=
  {| running := false; current_stage := ""; stage_name := ""; progress := 0;
     message := "Ready to start pipeline"; error := ""; completed := false;
     stats_of := zero_stats |}.

(** The value [start_pipeline] rebinds it to. *)
Definition starting_status : pipeline_status :=
  {| running := true; current_stage := "Starting"; stage_name := "Initializing";
     progress := 0; message := "Starting pipeline..."; error := "";
     completed := false; stats_of := zero_stats |}.

(** The JSON body of the request, [request.json]; either key may be absent. *)
Record start_body := mk_body {
  sample_size : option Z;
  run_ingestion : option bool;
}.

(** A background thread running [run_pipeline_async] with these arguments. *)
Record worker := mk_worker {
  worker_sample_size : Z;
  worker_run_ingestion : bool;
}.

(** What the handler can touch: the status record and the threads started. *)
Record app := mk_app {
  status : pipeline_status;
  workers : list worker;
}.

Inductive response :=
| JsonError (error_text : string) (code : nat)
| JsonStarted (success : bool) (message_text : string).

(** [start_pipeline], the handler of POST [/api/pipeline/start]. *)
Definition start_pipeline (body : option start_body) (a : app) : response * app :=
  if running (status a) then
    (JsonError "Pipeline is already running" 400, a)
  else
    let data := default {| sample_size := None; run_ingestion := None |} body in
    let size := default 50%Z (sample_size data) in
    let ingest := default true (run_ingestion data) in
    (JsonStarted true "Pipeline started successfully",
     {| status := starting_status;
        workers := (workers a ++ [{| worker_sample_size := size;
                                     worker_run_ingestion := ingest |}])%list |}).

End App.

(** ** Notions used by the statements *)

(** The service states a program can be in: a fresh instance, after any
    number of identifier look-ups and classifier calls. *)
Inductive reachable (uuid5 : string -> string -> string) : service -> Prop :=
| reach_new : reachable uuid5 new_service
| reach_resolve name st :
    reachable uuid5 st ->
    reachable uuid5 (get_or_create_entity_id uuid5 name st).2
| reach_classify llm name st :
    reachable uuid5 st ->
    reachable uuid5 (infer_type_llm llm name st).2.

(** Every cached identifier is the hash of its key. *)
Definition cache_ok (uuid5 : string -> string -> string) (st : service) : Prop :=
  forall k v, entity_cache st !! k = Some v -> v = uuid5 NAMESPACE_DNS k.

(** The trimmed, lower-cased form of a name: the cache key. *)
Definition normalized (name : string) : string := PyStr.lower (PyStr.strip name).

(** The identifier of a name, as a function of its normalized form. *)
Definition resolved_id (uuid5 : string -> string -> string) (name : string)
  : option string :=
  if PyStr.truthy (normalized name) then Some (uuid5 NAMESPACE_DNS (normalized name))
  else None.

(** The canonical form of a relation phrase. *)
Definition canonical_type (rel : string) : string :=
  PyStr.replace_char " " "_" (PyStr.upper rel).

(** A stand-in for [uuid5] and two language models, for concrete runs. *)
Definition sample_uuid5 (namespace key : string) : string :=
  namespace +:+ "/" +:+ key.

Definition llm_unavailable (n : nat) (name : string) : llm_reply := Raised.

Definition llm_says (text : string) (n : nat) (name : string) : llm_reply :=
  Content text.

(** The row of the specification's example, with its two mentions. *)
Definition apple_row (src aid pub : option string) : extraction_row :=
  {| entities := ["Apple"; "Tim Cook"];
     relations := [{| subject := Some "Apple"; relation := Some "HAS CEO";
                      object_ := Some "Tim Cook" |}];
     row_source := src; row_article_id := aid; row_published_at := pub |}.

(** The answer [infer_type_llm] gives on the [n]-th call of the model. *)
Definition classify (llm : nat -> string -> llm_reply) (n : nat) (name : string)
  : label :=
  match llm n name with
  | Content text => default Entity (find_label (PyStr.strip text))
  | Raised => _heuristic_type name
  end.

(** The relation a triple yields, with the identifiers in closed form. *)
Definition normalize_triple (uuid5 : string -> string -> string)
    (row : extraction_row) (r : raw_triple) : option relation_obj :=
  match subject r, relation r, object_ r with
  | Some subj, Some rel, Some obj =>
      if PyStr.truthy subj && PyStr.truthy obj && PyStr.truthy rel then
        Some {| start_id := resolved_id uuid5 subj;
                end_id := resolved_id uuid5 obj;
                rel_type := canonical_type rel;
                confidence := default_confidence;
                rel_article_id := row_article_id row;
                rel_source := row_source row;
                rel_published_at := row_published_at row |}
      else None
  | _, _, _ => None
  end.

(** The entity records a list of mentions yields when the next call of the
    model is the [n]-th. *)
Fixpoint entity_records (uuid5 : string -> string -> string)
    (llm : nat -> string -> llm_reply) (row : extraction_row)
    (es : list string) (n : nat) : list entity_obj :=
  match es with
  | [] => []
  | e :: es' =>
      let e_str := PyStr.strip e in
      if PyStr.truthy e_str then
        {| e_id := resolved_id uuid5 e_str; e_name := e_str;
           e_label := classify llm n e_str;
           e_source := row_source row; e_article_id := row_article_id row;
           e_published_at := row_published_at row |}
        :: entity_records uuid5 llm row es' (S n)
      else entity_records uuid5 llm row es' n
  end.

(** A row whose only triple has a blank subject and no relation phrase. *)
Definition blank_subject_row : extraction_row :=
  {| entities := [];
     relations := [{| subject := Some " "; relation := Some "";
                      object_ := Some "Apple" |}];
     row_source := None; row_article_id := None; row_published_at := None |}.

(** A row whose only triple has a blank subject and is otherwise complete. *)
Definition blank_start_triple : raw_triple :=
  {| subject := Some " "; relation := Some "knows"; object_ := Some "Tim Cook" |}.

Definition blank_start_row : extraction_row :=
  {| entities := []; relations := [blank_start_triple];
     row_source := None; row_article_id := None; row_published_at := None |}.

(** The example row without its mentions. *)
Definition apple_row_no_mentions : extraction_row :=
  {| entities := [];
     relations := [{| subject := Some "Apple"; relation := Some "HAS CEO";
                      object_ := Some "Tim Cook" |}];
     row_source := None; row_article_id := None; row_published_at := None |}.

(** The surroundings work: files are written, copies complete, sessions open. *)
Definition infra_ok (w : infra) : Prop :=
  save_nodes_ok w = true /\ save_relations_ok w = true
  /\ copy_nodes w = Copied /\ copy_relations w = Copied
  /\ session_nodes_ok w = true /\ session_relations_ok w = true.

(** What the two statements of a load do to the graph when the surroundings
    work: the flag returned and the graph left behind.  Each statement runs
    in a transaction of its own, so a failed relationship statement leaves
    the nodes of the node statement in place. *)
Definition load_batch (b : graph_batch) (g : store) : bool * store :=
  match load_nodes_query (map node_to_csv (batch_nodes b)) (nodes g) with
  | None => (false, g)
  | Some ns' =>
      match load_relationships_query (map rel_to_csv (batch_relations b))
              ns' (edges g) with
      | None => (false, {| nodes := ns'; edges := edges g |})
      | Some es' => (true, {| nodes := ns'; edges := es' |})
      end
  end.

(** A call of [run_loading], without its outcome. *)
Inductive call :=
| CallToCsv (path : string)
| CallCopyToDocker (dst_name : string)
| CallLoadNodesCsv (csv_path : string)
| CallLoadRelationshipsCsv (csv_path : string).

Definition call_of (e : event) : call :=
  match e with
  | ToCsv p => CallToCsv p
  | CopyToDocker d _ => CallCopyToDocker d
  | LoadNodesCsv p _ => CallLoadNodesCsv p
  | LoadRelationshipsCsv p _ => CallLoadRelationshipsCsv p
  end.

(** The calls of a complete run, in order. *)
Definition loading_plan (w : infra) : list call :=
  [CallToCsv (nodes_path w); CallToCsv (relations_path w);
   CallCopyToDocker "nodes_latest.csv"; CallCopyToDocker "relations_latest.csv";
   CallLoadNodesCsv "nodes_latest.csv";
   CallLoadRelationshipsCsv "relations_latest.csv"].

(** The effect of the node rows on one node: every row whose [id] the
    node matches rewrites it, in file order. *)
Definition touch (r : node_row) (n : node) : node :=
  match nr_id r with
  | Some i => update_node i r n
  | None => n
  end.

Definition apply_rows (rows : list node_row) (n : node) : node :=
  fold_left (fun n r => touch r n) rows n.

(** An end point of a relation has a node: in the store, or among the
    nodes of the batch. *)
Definition has_node (b : graph_batch) (g : store) (o : option string) : bool :=
  match csv_cell o with
  | None => false
  | Some i =>
      existsb (fun n => bool_decide (n_id n = Some i)) (nodes g)
      || existsb (fun e => bool_decide (csv_cell (e_id e) = Some i)) (batch_nodes b)
  end.

Definition connected (b : graph_batch) (g : store) (r : relation_obj) : bool :=
  has_node b g (start_id r) && has_node b g (end_id r).

(** The batch without the relations that lack an end point. *)
Definition without_dangling (b : graph_batch) (g : store) : graph_batch :=
  {| batch_nodes := batch_nodes b;
     batch_relations := List.filter (connected b g) (batch_relations b) |}.

(** No two nodes labelled [Entity] share an [id]. *)
Definition entity_ids (ns : list node) : list string :=
  omap (fun n => if bool_decide ("Entity" ∈ n_labels n) then n_id n else None) ns.

(** Surroundings that work, an empty store, and two batches for concrete runs. *)
Definition working_infra : infra :=
  {| base_data_dir := "./financial_news_data"; timestamp := "20240101_000000";
     save_nodes_ok := true; save_relations_ok := true;
     copy_nodes := Copied; copy_relations := Copied;
     session_nodes_ok := true; session_relations_ok := true |}.

Definition empty_state : lstate :=
  {| db := {| nodes := []; edges := [] |};
     local_files := ∅; import_dir := ∅; trace := [] |}.

Definition apple_entity : entity_obj :=
  {| e_id := Some "id-apple"; e_name := "Apple"; e_label := Company;
     e_source := Some "newsapi"; e_article_id := Some "a1";
     e_published_at := Some "2024-01-01" |}.

Definition cook_entity : entity_obj :=
  {| e_id := Some "id-tim-cook"; e_name := "Tim Cook"; e_label := Person;
     e_source := Some "newsapi"; e_article_id := Some "a1";
     e_published_at := Some "2024-01-01" |}.

Definition has_ceo_relation (target : string) : relation_obj :=
  {| start_id := Some "id-apple"; end_id := Some target;
     rel_type := "HAS_CEO"; confidence := default_confidence;
     rel_article_id := Some "a1"; rel_source := Some "newsapi";
     rel_published_at := Some "2024-01-01" |}.

Definition apple_batch : graph_batch :=
  {| batch_nodes := [apple_entity; cook_entity];
     batch_relations := [has_ceo_relation "id-tim-cook"] |}.

(** A batch whose only relation points at an [id] no node carries. *)
Definition dangling_batch : graph_batch :=
  {| batch_nodes := [apple_entity];
     batch_relations := [has_ceo_relation "id-nobody"] |}.

(** The rows of a file that rewrite a given node. *)
Definition touches (n : node) (r : node_row) : bool :=
  match nr_id r with
  | Some i => merge_matches i n
  | None => false
  end.

Definition add_labels (rs : list node_row) (ls : list string) : list string :=
  fold_left (fun ls r => add_label (label_name (nr_label r)) ls) rs ls.

(** A node after the rows [rs] have all rewritten it: the properties of the
    last row, the labels of all of them. *)
Definition settle (rs : list node_row) (n : node) : node :=
  match last rs with
  | None => n
  | Some r =>
      {| n_labels := add_labels rs (n_labels n);
         n_id := n_id n;
         n_name := nr_name r;
         n_label := Some (label_name (nr_label r));
         n_source := nr_source r;
         n_article_id := nr_article_id r;
         n_published_at := nr_published_at r |}
  end.

(** Whether the two [MATCH] clauses of a row both find a node. *)
Definition has_endpoints (ns : list node) (r : rel_row) : bool :=
  existsb (id_matches (rr_start_id r)) ns && existsb (id_matches (rr_end_id r)) ns.

(** A frame of two rows whose three triples collapse to two keys and whose
    three mentions collapse to two identifiers. *)
Definition duplicate_frame : list extraction_row :=
  [{| entities := ["Apple"; "Tim Cook"];
      relations := [{| subject := Some "Apple"; relation := Some "HAS CEO";
                       object_ := Some "Tim Cook" |};
                    {| subject := Some " apple"; relation := Some "has ceo";
                       object_ := Some "TIM COOK " |}];
      row_source := Some "newsapi"; row_article_id := Some "a1";
      row_published_at := Some "2024-01-01" |};
   {| entities := ["APPLE "];
      relations := [{| subject := Some "Apple"; relation := Some "makes";
                       object_ := Some "iPhone" |}];
      row_source := Some "fmp"; row_article_id := Some "a2";
      row_published_at := Some "2024-01-02" |}].

(** ** Stage D: further notions *)



(** The mentions of a frame that survive [str(e).strip()], in order. *)
Definition nonblank_mentions (df : list extraction_row) : list string :=
  flat_map (fun row => List.filter PyStr.truthy (map PyStr.strip (entities row))) df.

(** The cue words of [_heuristic_type] for a company. *)
Definition company_cues : list string := ["inc"; "corp"; "company"; "bank"; "fund"].

(** ** Stage E: further notions *)

(** Every node of the store is labelled [Entity], as the nodes the loader
    creates are. *)
Definition all_entities (ns : list node) : Prop :=
  Forall (fun n => "Entity" ∈ n_labels n) ns.

(** The rows of a file that name a given [id]. *)
Definition rows_of (i : string) (rows : list node_row) : list node_row :=
  List.filter (fun r => bool_decide (nr_id r = Some i)) rows.

(** Surroundings in which everything works but the session of the
    relationship statement. *)
Definition relationship_session_down : infra :=
  {| base_data_dir := "./financial_news_data"; timestamp := "20240101_000000";
     save_nodes_ok := true; save_relations_ok := true;
     copy_nodes := Copied; copy_relations := Copied;
     session_nodes_ok := true; session_relations_ok := false |}.

(** Two rows for one [id], as two loads of an entity seen with two labels. *)
Definition apple_as_company : node_row :=
  {| nr_id := Some "id-apple"; nr_name := Some "Apple"; nr_label := Company;
     nr_source := Some "newsapi"; nr_article_id := Some "a1";
     nr_published_at := Some "2024-01-01" |}.

Definition apple_as_product : node_row :=
  {| nr_id := Some "id-apple"; nr_name := Some "apple"; nr_label := Product;
     nr_source := Some "fmp"; nr_article_id := Some "a2";
     nr_published_at := Some "2024-01-02" |}.

(** The relationship a row asks for between two nodes, when the row has a
    type and its four identifying properties. *)
Definition edge_of (r : rel_row) (p : nat * nat) : option edge :=
  match rr_type r, rr_source r, rr_article_id r, rr_published_at r with
  | Some ty, Some so, Some ai, Some pa =>
      Some {| ed_start := p.1; ed_end := p.2; ed_type := ty;
              ed_confidence := Some (confidence_of r);
              ed_source := Some so; ed_article_id := Some ai;
              ed_published_at := Some pa |}
  | _, _, _, _ => None
  end.

(** ** The background worker of the web application *)

Module Worker.

Import App.

(** What a stage of the pipeline delivers: its result, or an exception,
    kept as its text [str(e)]. *)
Inductive outcome (A : Type) :=
| Done (a : A)
| Failed (text : string).
Arguments Done {A} a.
Arguments Failed {A} text.

(** What the surroundings do during one run of [run_pipeline_async]. *)
Record surroundings := mk_surroundings {
  uuid5_of : string -> string -> string;
  llm_of : nat -> string -> llm_reply;
  (** Stage A, by [run_ingestion]: [len(articles)]. *)
  collected : bool -> outcome nat;
  (** Stage B, [run_preprocessing] and the frame read back: [len(df_chunks)]. *)
  chunked : outcome nat;
  (** Stage C, by [sample_size]: [run_extraction] and the frame read back,
      [len(df_extracted)]. *)
  extracted : Z -> outcome nat;
  (** Stage D: the resolver is built and [run_resolution] reads this frame. *)
  extracted_frame : outcome (list extraction_row);
  (** Stage E: [Neo4jGraphLoader(...)], then the surroundings of [run_loading]
      and the text of an exception that escapes it. *)
  loader_built : outcome unit;
  loader_infra : infra;
  loader_crash : string;
  (** Stage F: whether [NaturalLanguageQueryService(...)] can be built. *)
  query_service_up : bool;
}.

(** The globals the worker touches: [pipeline_status] (with every value it
    has shown, oldest first), the graph store with the loader's files, and
    whether [query_service] is set. *)
Record machine := mk_machine {
  board : pipeline_status;
  shown : list pipeline_status;
  graph : lstate;
  query_service : bool;
}.

(** State passing with exceptions that carry their text. *)
Definition W (A : Type) : Type := machine -> outcome A * machine.

Definition wbind {A B} (m : W A) (k : A -> W B) : W B :=
  fun s =>
    match m s with
    | (Done a, s') => k a s'
    | (Failed text, s') => (Failed text, s')
    end.

Declare Scope worker_scope.
Delimit Scope worker_scope with worker.
Notation "x <- m ;; k" := (wbind m (fun x => k))
  (at level 100, m at next level, right associativity) : worker_scope.

(** One assignment to, or [update] of, [pipeline_status]. *)
Definition put (f : pipeline_status -> pipeline_status) : W unit :=
  fun s =>
    let st := f (board s) in
    (Done tt, {| board := st; shown := (shown s ++ [st])%list;
                 graph := graph s; query_service := query_service s |}).

Definition await {A} (o : outcome A) : W A := fun s => (o, s).

Definition raise {A} (text : string) : W A := fun s => (Failed text, s).

(** [try: body except Exception as e: handler(str(e))] *)
Definition try_except (body : W unit) (handler : string -> W unit) : W unit :=
  fun s =>
    match body s with
    | (Done tt, s') => (Done tt, s')
    | (Failed text, s') => handler text s'
    end.

Definition with_running (b : bool) (st : pipeline_status) : pipeline_status :=
  {| running := b; current_stage := current_stage st; stage_name := stage_name st;
     progress := progress st; message := message st; error := error st;
     completed := completed st; stats_of := stats_of st |}.

Definition with_error (text : string) (st : pipeline_status) : pipeline_status :=
  {| running := running st; current_stage := current_stage st;
     stage_name := stage_name st; progress := progress st; message := message st;
     error := text; completed := completed st; stats_of := stats_of st |}.

Definition with_completed (b : bool) (st : pipeline_status) : pipeline_status :=
  {| running := running st; current_stage := current_stage st;
     stage_name := stage_name st; progress := progress st; message := message st;
     error := error st; completed := b; stats_of := stats_of st |}.

Definition with_message (text : string) (st : pipeline_status) : pipeline_status :=
  {| running := running st; current_stage := current_stage st;
     stage_name := stage_name st; progress := progress st; message := text;
     error := error st; completed := completed st; stats_of := stats_of st |}.

Definition with_stats (f : stats -> stats) (st : pipeline_status) : pipeline_status :=
  {| running := running st; current_stage := current_stage st;
     stage_name := stage_name st; progress := progress st; message := message st;
     error := error st; completed := completed st; stats_of := f (stats_of st) |}.

(** [pipeline_status.update({"current_stage": .., "stage_name": ..,
    "progress": .., "message": ..})] *)
Definition enter (stage name : string) (percent : nat) (text : string)
    (st : pipeline_status) : pipeline_status :=
  {| running := running st; current_stage := stage; stage_name := name;
     progress := percent; message := text; error := error st;
     completed := completed st; stats_of := stats_of st |}.

(** The [update] that closes a successful run. *)
Definition finished (st : pipeline_status) : pipeline_status :=
  {| running := false; current_stage := "Complete"; stage_name := "Complete";
     progress := 100; message := "Pipeline completed successfully!";
     error := error st; completed := true; stats_of := stats_of st |}.

(** The [update] of the [except] branch. *)
Definition failed (text : string) (st : pipeline_status) : pipeline_status :=
  {| running := false; current_stage := current_stage st;
     stage_name := stage_name st; progress := progress st;
     message := "Pipeline failed: " +:+ text; error := text;
     completed := false; stats_of := stats_of st |}.

Definition set_articles_collected (n : nat) (s : stats) : stats :=
  {| articles_collected := n; chunks_created := chunks_created s;
     entities_extracted := entities_extracted s; nodes_created := nodes_created s;
     relationships_created := relationships_created s |}.

Definition set_chunks_created (n : nat) (s : stats) : stats :=
  {| articles_collected := articles_collected s; chunks_created := n;
     entities_extracted := entities_extracted s; nodes_created := nodes_created s;
     relationships_created := relationships_created s |}.

Definition set_entities_extracted (n : nat) (s : stats) : stats :=
  {| articles_collected := articles_collected s; chunks_created := chunks_created s;
     entities_extracted := n; nodes_created := nodes_created s;
     relationships_created := relationships_created s |}.

Definition set_nodes_created (n : nat) (s : stats) : stats :=
  {| articles_collected := articles_collected s; chunks_created := chunks_created s;
     entities_extracted := entities_extracted s; nodes_created := n;
     relationships_created := relationships_created s |}.

Definition set_relationships_created (n : nat) (s : stats) : stats :=
  {| articles_collected := articles_collected s; chunks_created := chunks_created s;
     entities_extracted := entities_extracted s; nodes_created := nodes_created s;
     relationships_created := n |}.

(** [loader.run_loading(neo4j_data)] on the store of the machine. *)
Definition load (e : surroundings) (neo4j_data : graph_batch) : W bool :=
  fun s =>
    let '(r, g) := run_loading (loader_infra e) neo4j_data (graph s) in
    let s' := {| board := board s; shown := shown s; graph := g;
                 query_service := query_service s |} in
    match r with
    | Ret ok => (Done ok, s')
    | Raise => (Failed (loader_crash e), s')
    end.

(** [init_query_service]: it catches what the constructor raises, and then
    leaves the global as it was. *)
Definition init_query_service (e : surroundings) : W bool :=
  fun s =>
    if query_service_up e then
      (Done true, {| board := board s; shown := shown s; graph := graph s;
                     query_service := true |})
    else (Done false, s).

(** The [try] block of [run_pipeline_async]. *)
Definition pipeline_stages (e : surroundings) (sample_size : Z) (run_ingestion : bool)
  : W unit :=
  (_ <- put (with_running true) ;;
   _ <- put (with_error "") ;;
   _ <- put (with_completed false) ;;
   _ <- put (enter "A" "Data Ingestion" 10 "Collecting financial news articles...") ;;
   articles <- await (collected e run_ingestion) ;;
   _ <- put (with_stats (set_articles_collected articles)) ;;
   _ <- put (with_message ("Collected " +:+ pretty articles +:+ " articles")) ;;
   _ <- put (enter "B" "Text Preprocessing" 30 "Preprocessing and chunking text...") ;;
   df_chunks <- await (chunked e) ;;
   _ <- put (with_stats (set_chunks_created df_chunks)) ;;
   _ <- put (with_message ("Created " +:+ pretty df_chunks +:+ " text chunks")) ;;
   _ <- put (enter "C" "Entity Extraction" 50
               ("Extracting entities from " +:+ pretty sample_size +:+ " chunks...")) ;;
   df_extracted <- await (extracted e sample_size) ;;
   _ <- put (with_stats (set_entities_extracted df_extracted)) ;;
   _ <- put (with_message
               ("Extracted entities from " +:+ pretty df_extracted +:+ " chunks")) ;;
   _ <- put (enter "D" "Entity Resolution" 70
               "Resolving and canonicalizing entities...") ;;
   df <- await (extracted_frame e) ;;
   let neo4j_data := (run_resolution (uuid5_of e) (llm_of e) df new_service).1 in
   _ <- put (with_stats (set_nodes_created (length neo4j_data.1))) ;;
   _ <- put (with_stats (set_relationships_created (length neo4j_data.2))) ;;
   _ <- put (with_message
               ("Created " +:+ pretty (length neo4j_data.1) +:+ " nodes and "
                +:+ pretty (length neo4j_data.2) +:+ " relationships")) ;;
   _ <- put (enter "E" "Neo4j Loading" 90 "Loading data into Neo4j...") ;;
   _ <- await (loader_built e) ;;
   loading_success <- load e {| batch_nodes := neo4j_data.1;
                                batch_relations := neo4j_data.2 |} ;;
   if negb loading_success then raise "Failed to load data into Neo4j"
   else
     _ <- put (enter "F" "Query Service" 95 "Initializing query service...") ;;
     _ <- init_query_service e ;;
     put finished)%worker.

(** [run_pipeline_async] *)
Definition run_pipeline_async (e : surroundings) (sample_size : Z)
    (run_ingestion : bool) : W unit :=
  try_except (pipeline_stages e sample_size run_ingestion)
    (fun text => put (failed text)).

(** The machine a worker starts on: the status [start_pipeline] left. *)
Definition started (a : app) (g : lstate) (qs : bool) : machine :=
  {| board := status a; shown := []; graph := g; query_service := qs |}.

(** Surroundings in which every stage works, extraction having produced
    the example row without its mentions. *)
Definition smooth_run : surroundings :=
  {| uuid5_of := sample_uuid5; llm_of := llm_unavailable;
     collected := fun _ => Done 3; chunked := Done 7; extracted := fun _ => Done 1;
     extracted_frame :=
       Done [{| entities := [];
                relations := [{| subject := Some "Apple"; relation := Some "HAS CEO";
                                 object_ := Some "Tim Cook" |}];
                row_source := Some "newsapi"; row_article_id := Some "a1";
                row_published_at := Some "2024-01-01" |}];
     loader_built := Done tt; loader_infra := working_infra; loader_crash := "";
     query_service_up := true |}.

End Worker.

(** ** The command-line pipeline *)

Module Cli.

Import Worker.

(** What [run_complete_pipeline] leaves to be seen: the banner of a stage
    it enters, and a call of [query_service.close()]. *)
Inductive output :=
| Banner (stage : string)
| Closed.

(** What the surroundings do during one call.  An [outcome] is the result
    of a call or the exception it ends in ([Exception] or
    [KeyboardInterrupt]: both make the pipeline return [False]). *)
Record world := mk_world {
  hash_of : string -> string -> string;
  model_of : nat -> string -> llm_reply;
  (** Stage A: [ingestion.run_ingestion(api_keys)] and
      [_load_existing_articles()]; an article is kept as its JSON line. *)
  fresh_articles : outcome (list string);
  existing_articles : outcome (list string);
  (** Stage B: [preprocessor.run_preprocessing(articles)], the path written,
      and [_get_latest_processed_file()]. *)
  preprocessed : list string -> outcome string;
  latest_processed_file : outcome string;
  (** Stage C: [extractor.run_extraction(processed_path, sample_size)], the
      path written, and [_get_latest_extracted_file()]. *)
  extraction : string -> Z -> outcome string;
  latest_extracted_file : outcome string;
  (** Stage D: the resolver is built and [run_resolution] reads the frame
      at a path. *)
  frame_at : string -> outcome (list extraction_row);
  (** Stage E: [Neo4jGraphLoader(...)], then the surroundings of
      [run_loading] and the text of an exception that escapes it. *)
  loader_made : outcome unit;
  loader_world : infra;
  loader_error : string;
  (** Stage F: [NaturalLanguageQueryService(...)], [_run_test_queries()],
      [interactive_query_session()] and, at the end, [close()]. *)
  query_service_built : outcome unit;
  test_queries : outcome unit;
  interactive_session : outcome unit;
  closing : outcome unit;
}.

(** The pipeline object and what it works on: the graph store with the
    loader's files, whether [self.query_service] is set, and what the call
    has shown so far, oldest first. *)
Record pipeline := mk_pipeline {
  store_of : lstate;
  service_set : bool;
  seen : list output;
}.

Definition M (A : Type) : Type := pipeline -> outcome A * pipeline.

Definition mbind {A B} (m : M A) (k : A -> M B) : M B :=
  fun s =>
    match m s with
    | (Done a, s') => k a s'
    | (Failed text, s') => (Failed text, s')
    end.

Declare Scope cli_scope.
Delimit Scope cli_scope with cli.
Notation "x <- m ;; k" := (mbind m (fun x => k))
  (at level 100, m at next level, right associativity) : cli_scope.

Definition mret {A} (a : A) : M A := fun s => (Done a, s).

Definition call {A} (o : outcome A) : M A := fun s => (o, s).

Definition show (ev : output) : M unit :=
  fun s => (Done tt, {| store_of := store_of s; service_set := service_set s;
                        seen := (seen s ++ [ev])%list |}).

(** [skip_to_stage is None or skip_to_stage in letters] *)
Definition runs (skip_to_stage : option string) (letters : list string) : bool :=
  match skip_to_stage with
  | None => true
  | Some s => bool_decide (s ∈ letters)
  end.

(** [loader.run_loading(neo4j_data)] on the store of the pipeline. *)
Definition load_graph (e : world) (neo4j_data : graph_batch) : M bool :=
  fun s =>
    let '(r, g) := run_loading (loader_world e) neo4j_data (store_of s) in
    let s' := {| store_of := g; service_set := service_set s; seen := seen s |} in
    match r with
    | Ret ok => (Done ok, s')
    | Raise => (Failed (loader_error e), s')
    end.

(** [self.query_service = NaturalLanguageQueryService(...)] *)
Definition build_query_service (e : world) : M unit :=
  fun s =>
    match query_service_built e with
    | Done _ => (Done tt, {| store_of := store_of s; service_set := true;
                             seen := seen s |})
    | Failed text => (Failed text, s)
    end.

(** Stage F and the end of the [try] block. *)
Definition stage_F (e : world) (interactive_mode : bool) : M bool :=
  (_ <- show (Banner "F") ;;
   _ <- build_query_service e ;;
   _ <- call (test_queries e) ;;
   _ <- (if interactive_mode then call (interactive_session e) else mret tt) ;;
   mret true)%cli.

(** The [try] block of [run_complete_pipeline]. *)
Definition stages (e : world) (run_ingestion : bool) (sample_size : Z)
    (skip_to_stage : option string) (interactive_mode : bool) : M bool :=
  (articles <-
     (if runs skip_to_stage ["A"] then
        _ <- show (Banner "A") ;;
        articles <- call (if run_ingestion then fresh_articles e
                           else existing_articles e) ;;
        mret (Some articles)
      else mret None) ;;
   processed_path <-
     (if runs skip_to_stage ["A"; "B"] then
        _ <- show (Banner "B") ;;
        articles <- match articles with
                    | None => call (existing_articles e)
                    | Some articles => mret articles
                    end ;;
        processed_path <- call (preprocessed e articles) ;;
        mret (Some processed_path)
      else mret None) ;;
   extracted_path <-
     (if runs skip_to_stage ["A"; "B"; "C"] then
        _ <- show (Banner "C") ;;
        processed_path <- match processed_path with
                          | None => call (latest_processed_file e)
                          | Some processed_path => mret processed_path
                          end ;;
        extracted_path <- call (extraction e processed_path sample_size) ;;
        mret (Some extracted_path)
      else mret None) ;;
   neo4j_data <-
     (if runs skip_to_stage ["A"; "B"; "C"; "D"] then
        _ <- show (Banner "D") ;;
        extracted_path <- match extracted_path with
                          | None => call (latest_extracted_file e)
                          | Some extracted_path => mret extracted_path
                          end ;;
        df <- call (frame_at e extracted_path) ;;
        let neo4j_data := (run_resolution (hash_of e) (model_of e) df new_service).1 in
        mret (Some {| batch_nodes := neo4j_data.1; batch_relations := neo4j_data.2 |})
      else mret None) ;;
   if runs skip_to_stage ["A"; "B"; "C"; "D"; "E"] then
     _ <- show (Banner "E") ;;
     match neo4j_data with
     | None => mret false
     | Some neo4j_data =>
         _ <- call (loader_made e) ;;
         loading_success <- load_graph e neo4j_data ;;
         if negb loading_success then mret false
         else stage_F e interactive_mode
     end
   else stage_F e interactive_mode)%cli.

(** [run_complete_pipeline]: the [try] block, [return False] for what it
    raises, and the [finally] clause, whose exception nothing catches. *)
Definition run_complete_pipeline (e : world) (run_ingestion : bool)
    (sample_size : Z) (skip_to_stage : option string) (interactive_mode : bool)
  : M bool :=
  fun s =>
    let '(r, s1) := stages e run_ingestion sample_size skip_to_stage
                      interactive_mode s in
    let answer := match r with Done b => b | Failed _ => false end in
    if service_set s1 then
      (_ <- show Closed ;; _ <- call (closing e) ;; mret answer)%cli s1
    else (Done answer, s1).

(** The letters of the stages from a given one on. *)
Definition stages_from (skip_to_stage : option string) : list string :=
  match skip_to_stage with
  | None => ["A"; "B"; "C"; "D"; "E"; "F"]
  | Some s =>
      if bool_decide (s = "A") then ["A"; "B"; "C"; "D"; "E"; "F"]
      else if bool_decide (s = "B") then ["B"; "C"; "D"; "E"; "F"]
      else if bool_decide (s = "C") then ["C"; "D"; "E"; "F"]
      else if bool_decide (s = "D") then ["D"; "E"; "F"]
      else if bool_decide (s = "E") then ["E"; "F"]
      else ["F"]
  end.

(** The stages a call has entered, in order. *)
Definition banners (evs : list output) : list string :=
  omap (fun ev => match ev with Banner stage => Some stage | Closed => None end) evs.

(** A pipeline object as [KnowledgeGraphPipeline(config)] makes it. *)
Definition fresh (g : lstate) : pipeline :=
  {| store_of := g; service_set := false; seen := [] |}.

(** Surroundings in which every call works; the extracted frame holds the
    example row without its mentions. *)
Definition smooth : world :=
  {| hash_of := sample_uuid5; model_of := llm_unavailable;
     fresh_articles := Done ["{}"]; existing_articles := Done [];
     preprocessed := fun _ => Done "processed/preprocessed_chunks_1.parquet";
     latest_processed_file := Done "processed/preprocessed_chunks_0.parquet";
     extraction := fun _ _ => Done "processed/chunks_1_extracted.parquet";
     latest_extracted_file := Done "processed/chunks_0_extracted.parquet";
     frame_at := fun _ =>
       Done [{| entities := [];
                relations := [{| subject := Some "Apple"; relation := Some "HAS CEO";
                                 object_ := Some "Tim Cook" |}];
                row_source := Some "newsapi"; row_article_id := Some "a1";
                row_published_at := Some "2024-01-01" |}];
     loader_made := Done tt; loader_world := working_infra; loader_error := "";
     query_service_built := Done tt; test_queries := Done tt;
     interactive_session := Done tt; closing := Done tt |}.

End Cli.

(** ** Stage B: cutting a text into chunks *)

Module Chunking.

(** The dicts [create_chunks] returns. *)
Record chunk := mk_chunk {
  chunk_id : string;
  text : string;
  char_length : nat;
}.

(** One of the characters of the class [[.!?]]. *)
Definition is_stop (c : ascii) : bool :=
  Ascii.eqb c "." || Ascii.eqb c "!" || Ascii.eqb c "?".

(** Where the scan of [re.split] stands: in a piece, in a run of stops that
    may turn out to open a separator, or in the whitespace of a separator. *)
Inductive scan :=
| InPiece
| InStops (run : string)
| InGap.

(** [re.split(r"[.!?]+\s+", text)], read from left to right: a separator is
    a maximal run of stops followed by a maximal run of whitespace; a run of
    stops that no whitespace follows belongs to the piece. *)
Fixpoint split_from (st : scan) (piece s : string) : list string :=
  match s with
  | EmptyString =>
      match st with
      | InStops run => [piece +:+ run]
      | _ => [piece]
      end
  | String c s' =>
      match st with
      | InPiece =>
          if is_stop c then split_from (InStops (String c "")) piece s'
          else split_from InPiece (piece +:+ String c "") s'
      | InStops run =>
          if is_stop c then split_from (InStops (run +:+ String c "")) piece s'
          else if PyStr.is_space c then piece :: split_from InGap "" s'
          else split_from InPiece (piece +:+ run +:+ String c "") s'
      | InGap =>
          if PyStr.is_space c then split_from InGap "" s'
          else if is_stop c then split_from (InStops (String c "")) "" s'
          else split_from InPiece (String c "") s'
      end
  end.

Definition re_split (s : string) : list string := split_from InPiece "" s.

(** [[s.strip() for s in sentences if s.strip()]] *)
Definition sentences_of (s : string) : list string :=
  List.filter PyStr.truthy (map PyStr.strip (re_split s)).

(** [len(s)] *)
Definition len (s : string) : Z := Z.of_nat (String.length s).

(** [sum(len(s) for s in current_chunk)] *)
Definition total (l : list string) : Z := fold_right (fun s a => (len s + a)%Z) 0%Z l.

(** [" ".join(current_chunk)] *)
Definition join (l : list string) : string := String.concat " " l.

(** Truthiness of a list. *)
Definition nonempty {A} (l : list A) : bool :=
  match l with [] => false | _ => true end.

(** The inner loop, over [reversed(current_chunk)]: sentences are taken from
    the end while they fit in [overlap]. *)
Fixpoint keep_overlap (overlap : Z) (reversed : list string)
    (overlap_sents : list string) (overlap_chars : Z) : list string :=
  match reversed with
  | [] => overlap_sents
  | s :: rest =>
      if (overlap_chars + len s >? overlap)%Z then overlap_sents
      else keep_overlap overlap rest (s :: overlap_sents) (overlap_chars + len s)%Z
  end.

(** [chunks.append({...})] *)
Definition emit (chunks : list chunk) (current_chunk : list string) : list chunk :=
  let chunk_text := join current_chunk in
  (chunks ++ [{| chunk_id := "chunk_" +:+ pretty (length chunks);
                 text := chunk_text;
                 char_length := String.length chunk_text |}])%list.

(** The loop over the sentences. *)
Fixpoint chunk_loop (chunk_size overlap : Z) (sentences : list string)
    (chunks : list chunk) (current_chunk : list string) (current_length : Z)
  : list chunk * list string :=
  match sentences with
  | [] => (chunks, current_chunk)
  | sentence :: rest =>
      let sentence_length := len sentence in
      if (current_length + sentence_length >? chunk_size)%Z && nonempty current_chunk
      then
        let overlap_sents := keep_overlap overlap (rev current_chunk) [] 0%Z in
        let current_chunk' := (overlap_sents ++ [sentence])%list in
        chunk_loop chunk_size overlap rest (emit chunks current_chunk)
          current_chunk' (total current_chunk')
      else
        chunk_loop chunk_size overlap rest chunks
          (current_chunk ++ [sentence])%list (current_length + sentence_length)%Z
  end.

(** [create_chunks], with the [chunk_size] and [overlap] of the object. *)
Definition create_chunks (chunk_size overlap : Z) (text title : string)
  : list chunk :=
  let sentences := sentences_of text in
  let current_chunk := if PyStr.truthy title then [title] else [] in
  let current_length := if PyStr.truthy title then len title else 0%Z in
  let '(chunks, current_chunk) :=
    chunk_loop chunk_size overlap sentences [] current_chunk current_length in
  if nonempty current_chunk then emit chunks current_chunk else chunks.

(** The title, when there is one, and the sentences: what goes into chunks. *)
Definition parts_of (text title : string) : list string :=
  ((if PyStr.truthy title then [title] else []) ++ sentences_of text)%list.

(** The lists of sentences the loop closes as chunks, and the list it is
    left with. *)
Fixpoint group_loop (chunk_size overlap : Z) (sentences : list string)
    (current_chunk : list string) (current_length : Z)
  : list (list string) * list string :=
  match sentences with
  | [] => ([], current_chunk)
  | sentence :: rest =>
      if (current_length + len sentence >? chunk_size)%Z && nonempty current_chunk
      then
        let current_chunk' :=
          (keep_overlap overlap (rev current_chunk) [] 0%Z ++ [sentence])%list in
        let '(groups, last_chunk) :=
          group_loop chunk_size overlap rest current_chunk' (total current_chunk') in
        (current_chunk :: groups, last_chunk)
      else
        group_loop chunk_size overlap rest
          (current_chunk ++ [sentence])%list (current_length + len sentence)%Z
  end.

(** The lists of sentences of all the chunks of a text. *)
Definition groups_of (chunk_size overlap : Z) (text title : string)
  : list (list string) :=
  let '(groups, last_chunk) :=
    group_loop chunk_size overlap (sentences_of text)
      (if PyStr.truthy title then [title] else [])
      (if PyStr.truthy title then len title else 0%Z) in
  (groups ++ (if nonempty last_chunk then [last_chunk] else []))%list.

(** The chunk made of a list of sentences, as the [k]-th chunk. *)
Definition chunk_of (k : nat) (group : list string) : chunk :=
  {| chunk_id := "chunk_" +:+ pretty k; text := join group;
     char_length := String.length (join group) |}.

End Chunking.

(** * Properties *)

(** ** Identity resolution *)

Section ResolverFacts.

Variable uuid5 : string -> string -> string.

Lemma new_service_cache_ok : cache_ok uuid5 new_service.
Proof. intros k v H. cbn in H. by rewrite lookup_empty in H. Qed.

(** From a state whose cache is sound, a look-up returns the hash of the
    normalized name and keeps the cache sound. *)
Lemma get_or_create_entity_id_sound name st :
  cache_ok uuid5 st ->
  (get_or_create_entity_id uuid5 name st).1 = resolved_id uuid5 name
  /\ cache_ok uuid5 (get_or_create_entity_id uuid5 name st).2.
Proof.
  intros Hok. unfold get_or_create_entity_id, resolved_id, normalized.
  destruct (PyStr.truthy (PyStr.lower (PyStr.strip name))) eqn:Hkey; cbn.
  - destruct (entity_cache st !! PyStr.lower (PyStr.strip name)) as [v|] eqn:Hget; cbn.
    + split; [by rewrite (Hok _ _ Hget) | done].
    + split; [done |].
      intros k v. cbn. rewrite lookup_insert.
      case_decide as Hk; [intros [= <-]; by subst | apply Hok].
  - done.
Qed.

Lemma infer_type_llm_cache llm name st :
  entity_cache (infer_type_llm llm name st).2 = entity_cache st.
Proof. unfold infer_type_llm. by destruct (llm _ _). Qed.

Lemma reachable_cache_ok st : reachable uuid5 st -> cache_ok uuid5 st.
Proof.
  induction 1 as [| name st _ IH | llm name st _ IH].
  - apply new_service_cache_ok.
  - by apply get_or_create_entity_id_sound.
  - intros k v. rewrite infer_type_llm_cache. apply IH.
Qed.

Lemma resolved_id_reachable name st :
  reachable uuid5 st ->
  (get_or_create_entity_id uuid5 name st).1 = resolved_id uuid5 name.
Proof.
  intros H. by apply get_or_create_entity_id_sound, reachable_cache_ok.
Qed.

End ResolverFacts.

(** C2.  The identifier of a name does not depend on the service state it
    is asked in: two look-ups of the same name agree on any two reachable
    states (a repeated call, another instance), they agree with the look-up
    on a fresh instance (a restart), two names with the same trimmed,
    lower-cased form get the same identifier, and [" Apple "] and ["apple"]
    in particular do. *)
Theorem get_or_create_entity_id_deterministic
    (uuid5 : string -> string -> string) (st1 st2 : service) :
  reachable uuid5 st1 ->
  reachable uuid5 st2 ->
  (forall n,
     (get_or_create_entity_id uuid5 n st1).1
     = (get_or_create_entity_id uuid5 n st2).1)
  /\ (forall n,
        (get_or_create_entity_id uuid5 n st1).1
        = (get_or_create_entity_id uuid5 n new_service).1)
  /\ (forall n,
        (get_or_create_entity_id uuid5 n
           (get_or_create_entity_id uuid5 n st1).2).1
        = (get_or_create_entity_id uuid5 n st1).1)
  /\ (forall n m,
        normalized n = normalized m ->
        (get_or_create_entity_id uuid5 n st1).1
        = (get_or_create_entity_id uuid5 m st2).1)
  /\ (get_or_create_entity_id uuid5 " Apple " st1).1
     = (get_or_create_entity_id uuid5 "apple" st2).1.
Proof.
  intros H1 H2.
  assert (Hn := reach_new uuid5).
  repeat split; intros.
  - by rewrite !resolved_id_reachable.
  - by rewrite !resolved_id_reachable.
  - rewrite !resolved_id_reachable; [done | done | by constructor].
  - rewrite !resolved_id_reachable by done.
    unfold resolved_id. by rewrite H.
  - by rewrite !resolved_id_reachable.
Qed.

Lemma get_or_create_entity_id_deterministic_witness :
  reachable sample_uuid5 new_service
  /\ reachable sample_uuid5
       (get_or_create_entity_id sample_uuid5 "Tim Cook" new_service).2
  /\ (get_or_create_entity_id sample_uuid5 " Apple " new_service).1
     = (get_or_create_entity_id sample_uuid5 "apple"
          (get_or_create_entity_id sample_uuid5 "Tim Cook" new_service).2).1.
Proof.
  split; [constructor |].
  split; [do 2 constructor |].
  apply (get_or_create_entity_id_deterministic sample_uuid5 new_service
           (get_or_create_entity_id sample_uuid5 "Tim Cook" new_service).2);
    [constructor | do 2 constructor].
Defined.

(** ** Relation normalization *)

(** C4.  A triple with an empty (or missing) subject, relation or object is
    skipped and leaves the service untouched; any other triple yields a
    relation whose type is the phrase upper-cased with spaces turned into
    underscores, whose confidence is 0.9, and whose end points are what the
    identity resolver returns for the subject and then for the object. *)
Theorem clean_relation_contract
    (uuid5 : string -> string -> string)
    (row : extraction_row) (r : raw_triple) (st : service) :
  (PyStr.truthy_opt (subject r) && PyStr.truthy_opt (relation r)
     && PyStr.truthy_opt (object_ r) = false ->
   clean_relation uuid5 row r st = (None, st))
  /\ (forall subj rel obj,
        subject r = Some subj -> relation r = Some rel -> object_ r = Some obj ->
        PyStr.truthy subj = true -> PyStr.truthy rel = true ->
        PyStr.truthy obj = true ->
        exists x,
          (clean_relation uuid5 row r st).1 = Some x
          /\ rel_type x = PyStr.replace_char " " "_" (PyStr.upper rel)
          /\ confidence x = (9 # 10)%Q
          /\ start_id x = (get_or_create_entity_id uuid5 subj st).1
          /\ end_id x =
               (get_or_create_entity_id uuid5 obj
                  (get_or_create_entity_id uuid5 subj st).2).1
          /\ rel_source x = row_source row
          /\ rel_article_id x = row_article_id row
          /\ rel_published_at x = row_published_at row).
Proof.
  split.
  - unfold clean_relation.
    destruct (subject r) as [s|], (relation r) as [p|], (object_ r) as [o|];
      cbn; try done.
    destruct (PyStr.truthy s), (PyStr.truthy p), (PyStr.truthy o); cbn; done.
  - intros subj rel obj Hs Hr Ho Ts Tr To.
    unfold clean_relation. rewrite Hs, Hr, Ho, Ts, Tr, To. cbn.
    destruct (get_or_create_entity_id uuid5 subj st) as [sid st1]. cbn.
    destruct (get_or_create_entity_id uuid5 obj st1) as [oid st2]. cbn.
    eexists. split; [reflexivity |]. cbn. repeat split; reflexivity.
Qed.

Lemma clean_relation_contract_witness :
  exists x,
    (clean_relation sample_uuid5 (apple_row None None None)
       {| subject := Some "Apple"; relation := Some "HAS CEO";
          object_ := Some "Tim Cook" |} new_service).1 = Some x
    /\ rel_type x = "HAS_CEO"
    /\ confidence x = (9 # 10)%Q.
Proof.
  destruct (proj2 (clean_relation_contract sample_uuid5 (apple_row None None None)
                     {| subject := Some "Apple"; relation := Some "HAS CEO";
                        object_ := Some "Tim Cook" |} new_service)
              "Apple" "HAS CEO" "Tim Cook"
              eq_refl eq_refl eq_refl eq_refl eq_refl eq_refl)
    as (x & Hx & Hty & Hc & _).
  exists x. split; [exact Hx |]. split; [exact Hty | exact Hc].
Defined.

(** ** Closed forms of the cleaning loops *)

Section CleaningFacts.

Variable uuid5 : string -> string -> string.
Variable llm : nat -> string -> llm_reply.

Lemma infer_type_llm_classify name st :
  infer_type_llm llm name st
  = (classify llm (llm_calls st) name,
     {| entity_cache := entity_cache st; llm_calls := S (llm_calls st) |}).
Proof.
  unfold infer_type_llm, classify.
  destruct (llm (llm_calls st) name) as [|text]; [done |].
  by destruct (find_label (PyStr.strip text)).
Qed.

Lemma get_or_create_entity_id_calls name st :
  llm_calls (get_or_create_entity_id uuid5 name st).2 = llm_calls st.
Proof.
  unfold get_or_create_entity_id.
  destruct (negb _); [done |]. by destruct (entity_cache st !! _).
Qed.

Lemma clean_relation_closed row r st :
  cache_ok uuid5 st ->
  (clean_relation uuid5 row r st).1 = normalize_triple uuid5 row r
  /\ cache_ok uuid5 (clean_relation uuid5 row r st).2
  /\ llm_calls (clean_relation uuid5 row r st).2 = llm_calls st.
Proof.
  intros Hok. unfold clean_relation, normalize_triple.
  destruct (subject r) as [subj|], (relation r) as [rel|], (object_ r) as [obj|];
    try done.
  destruct (_ && _ && _); [| done].
  destruct (get_or_create_entity_id_sound uuid5 subj st Hok) as [E1 Hok1].
  pose proof (get_or_create_entity_id_calls subj st) as C1.
  destruct (get_or_create_entity_id uuid5 subj st) as [sid st1]. cbn in *.
  destruct (get_or_create_entity_id_sound uuid5 obj st1 Hok1) as [E2 Hok2].
  pose proof (get_or_create_entity_id_calls obj st1) as C2.
  destruct (get_or_create_entity_id uuid5 obj st1) as [oid st2]. cbn in *.
  subst. split; [done |]. split; [done | congruence].
Qed.

Lemma clean_relations_closed row rs st :
  cache_ok uuid5 st ->
  (clean_relations uuid5 row rs st).1 = omap (normalize_triple uuid5 row) rs
  /\ cache_ok uuid5 (clean_relations uuid5 row rs st).2
  /\ llm_calls (clean_relations uuid5 row rs st).2 = llm_calls st.
Proof.
  revert st. induction rs as [|r rs IH]; intros st Hok; [done |].
  cbn [clean_relations omap list_omap].
  destruct (clean_relation_closed row r st Hok) as (E & Hok1 & C1).
  destruct (clean_relation uuid5 row r st) as [o st1]. cbn in *. subst o.
  destruct (IH st1 Hok1) as (E' & Hok2 & C2).
  destruct (clean_relations uuid5 row rs st1) as [rest st2]. cbn in *. subst rest.
  split; [by destruct (normalize_triple uuid5 row r) |].
  split; [done | congruence].
Qed.

Lemma clean_entities_closed row es st :
  cache_ok uuid5 st ->
  (clean_entities uuid5 llm row es st).1
  = entity_records uuid5 llm row es (llm_calls st)
  /\ cache_ok uuid5 (clean_entities uuid5 llm row es st).2.
Proof.
  revert st. induction es as [|e es IH]; intros st Hok; [done |].
  cbn [clean_entities entity_records].
  destruct (PyStr.truthy (PyStr.strip e)); cbn [negb]; [| by apply IH].
  destruct (get_or_create_entity_id_sound uuid5 (PyStr.strip e) st Hok) as [E1 Hok1].
  pose proof (get_or_create_entity_id_calls (PyStr.strip e) st) as C1.
  destruct (get_or_create_entity_id uuid5 (PyStr.strip e) st) as [eid st1].
  cbn in E1, Hok1, C1. rewrite infer_type_llm_classify.
  set (st2 := {| entity_cache := entity_cache st1; llm_calls := S (llm_calls st1) |}).
  assert (Hok2 : cache_ok uuid5 st2) by exact Hok1.
  destruct (IH st2 Hok2) as [E3 Hok3].
  destruct (clean_entities uuid5 llm row es st2) as [rest st3]. cbn in *.
  subst. by rewrite C1.
Qed.

Lemma clean_extraction_row_closed row st :
  cache_ok uuid5 st ->
  (clean_extraction_row uuid5 llm row st).1
  = (entity_records uuid5 llm row (entities row) (llm_calls st),
     omap (normalize_triple uuid5 row) (relations row))
  /\ cache_ok uuid5 (clean_extraction_row uuid5 llm row st).2.
Proof.
  intros Hok. unfold clean_extraction_row.
  destruct (clean_entities_closed row (entities row) st Hok) as [E1 Hok1].
  destruct (clean_entities uuid5 llm row (entities row) st) as [ents st1].
  cbn in E1, Hok1.
  destruct (clean_relations_closed row (relations row) st1 Hok1) as (E2 & Hok2 & _).
  destruct (clean_relations uuid5 row (relations row) st1) as [rels st2].
  cbn in *. by subst.
Qed.

(** The relations gathered over a frame, before duplicates are dropped. *)
Lemma resolve_rows_relations df st :
  cache_ok uuid5 st ->
  (resolve_rows uuid5 llm df st).1.2
  = flat_map (fun row => omap (normalize_triple uuid5 row) (relations row)) df.
Proof.
  revert st. induction df as [|row df IH]; intros st Hok; [done |].
  cbn [resolve_rows flat_map].
  destruct (clean_extraction_row_closed row st Hok) as [E Hok1].
  destruct (clean_extraction_row uuid5 llm row st) as [[ents rels] st1].
  cbn in E, Hok1. injection E as -> ->.
  specialize (IH st1 Hok1).
  destruct (resolve_rows uuid5 llm df st1) as [[all_e all_r] st2].
  cbn in *. by subst.
Qed.

End CleaningFacts.

(** ** Dropping duplicates keeps the first row of every key *)

Section DropDuplicates.

Context {A K : Type} `{EqDecision K} (key : A -> K).

Lemma drop_duplicates_from_elem seen l x :
  x ∈ drop_duplicates_from key seen l -> x ∈ l /\ key x ∉ seen.
Proof.
  revert seen. induction l as [|y l IH]; intros seen; cbn.
  - by intros ?%elem_of_nil.
  - case_decide as Hy.
    + intros [Hx Hs]%IH. split; [by right | done].
    + intros [->|Hx]%elem_of_cons; [split; [by left | done] |].
      apply IH in Hx as [Hx Hs]. split; [by right |].
      intros Hin. apply Hs. by right.
Qed.

Lemma drop_duplicates_from_NoDup seen l :
  NoDup (map key (drop_duplicates_from key seen l)).
Proof.
  revert seen. induction l as [|y l IH]; intros seen; cbn.
  - constructor.
  - case_decide as Hy; [apply IH |].
    cbn. constructor; [| apply IH].
    intros (x & Hk & Hx)%list_elem_of_fmap.
    apply drop_duplicates_from_elem in Hx as [_ Hs].
    apply Hs. rewrite <- Hk. by left.
Qed.

Lemma drop_duplicates_from_keys seen l k :
  k ∈ map key (drop_duplicates_from key seen l) <-> k ∈ map key l /\ k ∉ seen.
Proof.
  revert seen. induction l as [|y l IH]; intros seen; cbn.
  - split; [by intros ?%elem_of_nil | by intros [?%elem_of_nil _]].
  - case_decide as Hy; cbn.
    + rewrite IH, elem_of_cons. split.
      * intros [Hk Hs]. split; [by right | done].
      * intros [[->|Hk] Hs]; [done | by split].
    + rewrite !elem_of_cons, IH, elem_of_cons. split.
      * intros [->|[Hk Hs]]; [by split; [left |] |].
        split; [by right |]. intros Hin. apply Hs. by right.
      * intros [[->|Hk] Hs]; [by left |].
        destruct (decide (k = key y)) as [->|Hne]; [by left |].
        right. split; [done |]. by intros [?|?].
Qed.

Lemma drop_duplicates_from_first seen l x :
  x ∈ drop_duplicates_from key seen l ->
  List.find (fun y => bool_decide (key y = key x)) l = Some x.
Proof.
  revert seen. induction l as [|y l IH]; intros seen; cbn.
  - by intros ?%elem_of_nil.
  - case_decide as Hy.
    + intros Hx. pose proof (drop_duplicates_from_elem _ _ _ Hx) as [_ Hs].
      rewrite bool_decide_false by (intros E; apply Hs; by rewrite <- E).
      by eapply IH.
    + intros [->|Hx]%elem_of_cons; [by rewrite bool_decide_true |].
      pose proof (drop_duplicates_from_elem _ _ _ Hx) as [_ Hs].
      rewrite bool_decide_false by (intros E; apply Hs; rewrite <- E; by left).
      by eapply IH.
Qed.

(** The rows kept carry pairwise different keys. *)
Lemma drop_duplicates_NoDup l : NoDup (map key (drop_duplicates key l)).
Proof. apply drop_duplicates_from_NoDup. Qed.

(** The keys kept are the keys present. *)
Lemma drop_duplicates_keys l k :
  k ∈ map key (drop_duplicates key l) <-> k ∈ map key l.
Proof.
  unfold drop_duplicates. rewrite drop_duplicates_from_keys.
  split; [by intros [? _] | intros ?; split; [done | by intros ?%elem_of_nil]].
Qed.

(** A row kept is the first row of the input with its key. *)
Lemma drop_duplicates_first l x :
  x ∈ drop_duplicates key l ->
  List.find (fun y => bool_decide (key y = key x)) l = Some x.
Proof. apply drop_duplicates_from_first. Qed.

(** As many rows are kept as there are different keys. *)
Lemma drop_duplicates_length l ks :
  NoDup ks -> (forall k, k ∈ ks <-> k ∈ map key l) ->
  length (drop_duplicates key l) = length ks.
Proof.
  intros Hnd Hks.
  rewrite <- (length_map key).
  apply Permutation_length, NoDup_Permutation;
    [apply drop_duplicates_NoDup | done |].
  intros k. by rewrite drop_duplicates_keys, Hks.
Qed.

(** Every row of the input is represented by a kept row with its key. *)
Lemma drop_duplicates_represented l x :
  x ∈ l -> exists y, y ∈ drop_duplicates key l /\ key y = key x.
Proof.
  intros Hx.
  assert (Hk : key x ∈ map key (drop_duplicates key l)).
  { apply drop_duplicates_keys, list_elem_of_fmap. eauto. }
  apply list_elem_of_fmap in Hk as (y & E & Hy). eauto.
Qed.

End DropDuplicates.

(** C3.  The node frame [run_resolution] returns has at most one record per
    [id], each one the first record gathered with that [id]; its relation
    frame has at most one record per [(start_id, end_id, type)], each one the
    first gathered with that key; every gathered record is represented; and
    when the gathered relations carry K different keys, exactly K relations
    are returned. *)
Theorem run_resolution_deduplicates
    (uuid5 : string -> string -> string) (llm : nat -> string -> llm_reply)
    (df : list extraction_row) (st : service) :
  let gathered := (resolve_rows uuid5 llm df st).1 in
  let out := (run_resolution uuid5 llm df st).1 in
  NoDup (map e_id out.1)
  /\ (forall n, n ∈ out.1 ->
        List.find (fun e => bool_decide (e_id e = e_id n)) gathered.1 = Some n)
  /\ (forall e, e ∈ gathered.1 -> exists n, n ∈ out.1 /\ e_id n = e_id e)
  /\ NoDup (map rel_key out.2)
  /\ (forall x, x ∈ out.2 ->
        List.find (fun r => bool_decide (rel_key r = rel_key x)) gathered.2 = Some x)
  /\ (forall r, r ∈ gathered.2 -> exists x, x ∈ out.2 /\ rel_key x = rel_key r)
  /\ (forall ks : list (option string * option string * string),
        NoDup ks -> (forall k, k ∈ ks <-> k ∈ map rel_key gathered.2) ->
        length out.2 = length ks)
  /\ (forall ids : list (option string),
        NoDup ids -> (forall i, i ∈ ids <-> i ∈ map e_id gathered.1) ->
        length out.1 = length ids).
Proof.
  cbv zeta. unfold run_resolution.
  destruct (resolve_rows uuid5 llm df st) as [[all_entities all_relations] st'].
  cbn [fst snd].
  split; [apply drop_duplicates_NoDup |].
  split; [intros n; apply drop_duplicates_first |].
  split; [intros e; apply drop_duplicates_represented |].
  split; [apply drop_duplicates_NoDup |].
  split; [intros x; apply drop_duplicates_first |].
  split; [intros r; apply drop_duplicates_represented |].
  split; intros ? ? ?; by apply drop_duplicates_length.
Qed.

Lemma run_resolution_deduplicates_witness :
  NoDup (map rel_key
           (run_resolution sample_uuid5 llm_unavailable duplicate_frame
              new_service).1.2)
  /\ length (resolve_rows sample_uuid5 llm_unavailable duplicate_frame
               new_service).1.2 = 3
  /\ length (run_resolution sample_uuid5 llm_unavailable duplicate_frame
               new_service).1.2 = 2
  /\ map e_source
       (run_resolution sample_uuid5 llm_unavailable duplicate_frame
          new_service).1.1 = [Some "newsapi"; Some "newsapi"].
Proof.
  split.
  - exact (proj1 (proj2 (proj2 (proj2
             (run_resolution_deduplicates sample_uuid5 llm_unavailable
                duplicate_frame new_service))))).
  - repeat split; vm_compute; reflexivity.
Defined.

(** ** Blank names *)

Lemma lstrip_all_space s : PyStr.all_space s = true -> PyStr.lstrip s = "".
Proof.
  induction s as [|c s IH]; cbn; [done |].
  intros [Hc Hs]%andb_true_iff. rewrite Hc. by apply IH.
Qed.

Lemma whitespace_only_normalized s :
  PyStr.whitespace_only s = true -> normalized s = "".
Proof.
  unfold PyStr.whitespace_only. intros [_ Hs]%andb_true_iff.
  unfold normalized, PyStr.strip. by rewrite lstrip_all_space.
Qed.

Lemma whitespace_only_truthy s :
  PyStr.whitespace_only s = true -> PyStr.truthy s = true.
Proof. unfold PyStr.whitespace_only. by intros [? _]%andb_true_iff. Qed.

Lemma resolved_id_blank uuid5 s :
  PyStr.whitespace_only s = true -> resolved_id uuid5 s = None.
Proof.
  intros H. unfold resolved_id. by rewrite (whitespace_only_normalized s H).
Qed.

Lemma get_or_create_entity_id_blank uuid5 s st :
  PyStr.whitespace_only s = true ->
  get_or_create_entity_id uuid5 s st = (None, st).
Proof.
  intros H. unfold get_or_create_entity_id.
  fold (normalized s). by rewrite (whitespace_only_normalized s H).
Qed.

Lemma run_resolution_relations uuid5 llm df st :
  (run_resolution uuid5 llm df st).1.2
  = drop_duplicates rel_key (resolve_rows uuid5 llm df st).1.2.
Proof.
  unfold run_resolution.
  by destruct (resolve_rows uuid5 llm df st) as [[all_e all_r] st'].
Qed.

Lemma run_resolution_nodes uuid5 llm df st :
  (run_resolution uuid5 llm df st).1.1
  = drop_duplicates e_id (resolve_rows uuid5 llm df st).1.1.
Proof.
  unfold run_resolution.
  by destruct (resolve_rows uuid5 llm df st) as [[all_e all_r] st'].
Qed.

(** A triple that is not skipped is represented in the relation frame. *)
Lemma normalized_triple_emitted uuid5 llm df st row r x :
  reachable uuid5 st -> row ∈ df -> r ∈ relations row ->
  normalize_triple uuid5 row r = Some x ->
  exists y, y ∈ (run_resolution uuid5 llm df st).1.2 /\ rel_key y = rel_key x.
Proof.
  intros Hst Hrow Hr Hx.
  rewrite run_resolution_relations.
  apply drop_duplicates_represented.
  rewrite resolve_rows_relations by by apply reachable_cache_ok.
  apply list_elem_of_In, in_flat_map. exists row.
  split; [by apply list_elem_of_In |].
  apply list_elem_of_In, list_elem_of_omap. eauto.
Qed.

(** C10 (as amended).  A triple whose subject is a non-empty string of
    whitespace only, and whose relation phrase and object are non-empty, is
    not skipped: the resolver returns [None] for the subject, the cleaned row
    holds a relation whose [start_id] is [None], and the relation frame
    holds one with that [start_id], the object's identifier and the
    canonical type.  The same holds with subject and object exchanged. *)
Theorem blank_endpoint_relation_emitted
    (uuid5 : string -> string -> string) (llm : nat -> string -> llm_reply)
    (df : list extraction_row) (st : service)
    (row : extraction_row) (r : raw_triple) (subj rel obj : string) :
  reachable uuid5 st ->
  row ∈ df -> r ∈ relations row ->
  subject r = Some subj -> relation r = Some rel -> object_ r = Some obj ->
  PyStr.truthy rel = true ->
  (PyStr.whitespace_only subj = true -> PyStr.truthy obj = true ->
   (forall st', (get_or_create_entity_id uuid5 subj st').1 = None)
   /\ (forall st', exists x,
         (clean_relation uuid5 row r st').1 = Some x /\ start_id x = None)
   /\ exists x,
        x ∈ (run_resolution uuid5 llm df st).1.2
        /\ start_id x = None
        /\ end_id x = resolved_id uuid5 obj
        /\ rel_type x = canonical_type rel)
  /\ (PyStr.whitespace_only obj = true -> PyStr.truthy subj = true ->
      (forall st', (get_or_create_entity_id uuid5 obj st').1 = None)
      /\ (forall st', exists x,
            (clean_relation uuid5 row r st').1 = Some x /\ end_id x = None)
      /\ exists x,
           x ∈ (run_resolution uuid5 llm df st).1.2
           /\ start_id x = resolved_id uuid5 subj
           /\ end_id x = None
           /\ rel_type x = canonical_type rel).
Proof.
  intros Hst Hrow Hr Hs Hp Ho Tp. split.
  - intros Hblank To.
    pose proof (whitespace_only_truthy subj Hblank) as Ts.
    split; [intros st'; by rewrite get_or_create_entity_id_blank |].
    split.
    + intros st'. unfold clean_relation. rewrite Hs, Hp, Ho, Ts, To, Tp. cbn.
      rewrite get_or_create_entity_id_blank by done.
      destruct (get_or_create_entity_id uuid5 obj st') as [oid st2].
      by eexists.
    + destruct (normalized_triple_emitted uuid5 llm df st row r
                  {| start_id := None; end_id := resolved_id uuid5 obj;
                     rel_type := canonical_type rel;
                     confidence := default_confidence;
                     rel_article_id := row_article_id row;
                     rel_source := row_source row;
                     rel_published_at := row_published_at row |})
        as (y & Hy & Hk); [done | done | done | |].
      { unfold normalize_triple. rewrite Hs, Hp, Ho, Ts, To, Tp. cbn.
        by rewrite (resolved_id_blank uuid5 subj Hblank). }
      exists y. unfold rel_key in Hk. cbn in Hk. by injection Hk as -> -> ->.
  - intros Hblank Ts.
    pose proof (whitespace_only_truthy obj Hblank) as To.
    split; [intros st'; by rewrite get_or_create_entity_id_blank |].
    split.
    + intros st'. unfold clean_relation. rewrite Hs, Hp, Ho, Ts, To, Tp. cbn.
      destruct (get_or_create_entity_id uuid5 subj st') as [sid st1].
      rewrite get_or_create_entity_id_blank by done.
      by eexists.
    + destruct (normalized_triple_emitted uuid5 llm df st row r
                  {| start_id := resolved_id uuid5 subj; end_id := None;
                     rel_type := canonical_type rel;
                     confidence := default_confidence;
                     rel_article_id := row_article_id row;
                     rel_source := row_source row;
                     rel_published_at := row_published_at row |})
        as (y & Hy & Hk); [done | done | done | |].
      { unfold normalize_triple. rewrite Hs, Hp, Ho, Ts, To, Tp. cbn.
        by rewrite (resolved_id_blank uuid5 obj Hblank). }
      exists y. unfold rel_key in Hk. cbn in Hk. by injection Hk as -> -> ->.
Qed.

Lemma blank_endpoint_relation_emitted_witness :
  exists x,
    x ∈ (run_resolution sample_uuid5 llm_unavailable [blank_start_row] new_service).1.2
    /\ start_id x = None
    /\ rel_type x = "KNOWS".
Proof.
  destruct (proj1 (blank_endpoint_relation_emitted sample_uuid5 llm_unavailable
                     [blank_start_row] new_service blank_start_row
                     blank_start_triple " " "knows" "Tim Cook"
                     (reach_new sample_uuid5)
                     (list_elem_of_here _ _) (list_elem_of_here _ _)
                     eq_refl eq_refl eq_refl eq_refl) eq_refl eq_refl)
    as (_ & _ & x & Hx & Hs & _ & Ht).
  exists x. split; [exact Hx |]. split; [exact Hs | exact Ht].
Defined.

(** C10 (as stated) fails when the relation phrase is missing: the triple
    with a blank subject is skipped and nothing reaches the relation frame. *)
Lemma blank_subject_skipped_counterexample :
  PyStr.whitespace_only " " = true
  /\ (clean_relation sample_uuid5 blank_subject_row
        {| subject := Some " "; relation := Some ""; object_ := Some "Apple" |}
        new_service).1 = None
  /\ (run_resolution sample_uuid5 llm_unavailable [blank_subject_row]
        new_service).1.2 = [].
Proof. repeat split; vm_compute; reflexivity. Qed.

(** ** Classification *)

Lemma find_label_Some s l : find_label s = Some l <-> s = label_name l.
Proof.
  unfold find_label, VALID_LABELS. cbn [List.find label_name]. split.
  - destruct (String.eqb_spec "Person" s) as [E|_]; [intros [= <-]; by subst |].
    destruct (String.eqb_spec "Company" s) as [E|_]; [intros [= <-]; by subst |].
    destruct (String.eqb_spec "Product" s) as [E|_]; [intros [= <-]; by subst |].
    destruct (String.eqb_spec "Event" s) as [E|_]; [intros [= <-]; by subst |].
    destruct (String.eqb_spec "Entity" s) as [E|_]; [intros [= <-]; by subst |].
    done.
  - intros ->. by destruct l.
Qed.

(** C5 (as stated) fails on a label outside the allowed set: the model
    answers "Organization" for "Acme Inc", the result is Entity, and the
    heuristic would have said Company. *)
Lemma infer_type_llm_invalid_label_counterexample :
  find_label (PyStr.strip "Organization") = None
  /\ (infer_type_llm (llm_says "Organization") "Acme Inc" new_service).1 = Entity
  /\ _heuristic_type "Acme Inc" = Company.
Proof. repeat split; vm_compute; reflexivity. Qed.

(** C5 (as amended).  When the call of the model raises, the type is the one
    [_heuristic_type] gives; when the model answers a text that, trimmed, is
    one of the five labels, the type is that label; when it answers anything
    else, the type is Entity (the heuristic is not consulted).  In every
    case a type among the five labels is returned: classification does not
    raise. *)
Theorem infer_type_llm_fallback
    (llm : nat -> string -> llm_reply) (name : string) (st : service) :
  (llm (llm_calls st) name = Raised ->
   (infer_type_llm llm name st).1 = _heuristic_type name)
  /\ (forall text l,
        llm (llm_calls st) name = Content text ->
        PyStr.strip text = label_name l ->
        (infer_type_llm llm name st).1 = l)
  /\ (forall text,
        llm (llm_calls st) name = Content text ->
        (forall l, PyStr.strip text <> label_name l) ->
        (infer_type_llm llm name st).1 = Entity)
  /\ (infer_type_llm llm name st).1 ∈ VALID_LABELS.
Proof.
  rewrite infer_type_llm_classify. cbn [fst]. unfold classify.
  split; [by intros -> |].
  split; [intros text l -> Hl; apply find_label_Some in Hl; by rewrite Hl |].
  split.
  - intros text -> Hl.
    destruct (find_label (PyStr.strip text)) as [l|] eqn:E; [| done].
    apply find_label_Some in E. by destruct (Hl l).
  - destruct (llm (llm_calls st) name) as [|text].
    + destruct (_heuristic_type name); unfold VALID_LABELS; set_solver.
    + destruct (find_label (PyStr.strip text)) as [[]|];
        unfold VALID_LABELS; set_solver.
Qed.

Lemma infer_type_llm_fallback_witness :
  (infer_type_llm llm_unavailable "Acme Inc" new_service).1 = Company
  /\ (infer_type_llm (llm_says " Person ") "Acme Inc" new_service).1 = Person
  /\ (infer_type_llm (llm_says "Organization") "Acme Inc" new_service).1 = Entity.
Proof.
  split; [| split].
  - exact (proj1 (infer_type_llm_fallback llm_unavailable "Acme Inc" new_service)
             eq_refl).
  - exact (proj1 (proj2 (infer_type_llm_fallback (llm_says " Person ") "Acme Inc"
                           new_service)) " Person " Person eq_refl eq_refl).
  - refine (proj1 (proj2 (proj2 (infer_type_llm_fallback (llm_says "Organization")
                                   "Acme Inc" new_service)))
              "Organization" eq_refl _).
    intros []; vm_compute; discriminate.
Defined.

(** ** The example of the specification *)

Lemma resolve_rows_single uuid5 llm row st :
  cache_ok uuid5 st ->
  (resolve_rows uuid5 llm [row] st).1
  = (entity_records uuid5 llm row (entities row) (llm_calls st),
     omap (normalize_triple uuid5 row) (relations row)).
Proof.
  intros Hok. cbn [resolve_rows].
  destruct (clean_extraction_row_closed uuid5 llm row st Hok) as [E _].
  destruct (clean_extraction_row uuid5 llm row st) as [[ents rels] st1].
  cbn in E. injection E as -> ->. cbn. by rewrite !app_nil_r.
Qed.

Lemma drop_duplicates_two {A K : Type} `{EqDecision K} (key : A -> K) (a b : A) :
  key a <> key b -> drop_duplicates key [a; b] = [a; b].
Proof.
  intros Hne. unfold drop_duplicates. cbn [drop_duplicates_from].
  rewrite decide_False by by intros ?%elem_of_nil.
  rewrite decide_False; [done |].
  intros [E|?%elem_of_nil]%elem_of_cons; [| done]. by apply Hne.
Qed.

(** C6 (as stated) fails on the types: the heuristic finds none of its cue
    words in "Apple" or in "Tim Cook" and answers Entity for both; and the
    triples alone yield no entity at all. *)
Lemma apple_heuristic_counterexample :
  _heuristic_type "Apple" = Entity
  /\ _heuristic_type "Tim Cook" = Entity
  /\ map e_label
       (run_resolution sample_uuid5 llm_unavailable [apple_row None None None]
          new_service).1.1 = [Entity; Entity]
  /\ (run_resolution sample_uuid5 llm_unavailable [apple_row_no_mentions]
        new_service).1.1 = [].
Proof. repeat split; vm_compute; reflexivity. Qed.

(** C6 (as amended).  For the row with the mentions "Apple" and "Tim Cook"
    and the triple ("Apple", "HAS CEO", "Tim Cook"), resolution on a fresh
    service yields exactly one relation, of type "HAS_CEO" and confidence
    0.9, from the identifier of "apple" to that of "tim cook", and two
    entities carrying these identifiers; when the model is unavailable the
    heuristic types both as Entity. *)
Theorem apple_example
    (uuid5 : string -> string -> string) (llm : nat -> string -> llm_reply)
    (src aid pub : option string) :
  uuid5 NAMESPACE_DNS "apple" <> uuid5 NAMESPACE_DNS "tim cook" ->
  (run_resolution uuid5 llm [apple_row src aid pub] new_service).1.2
  = [{| start_id := Some (uuid5 NAMESPACE_DNS "apple");
        end_id := Some (uuid5 NAMESPACE_DNS "tim cook");
        rel_type := "HAS_CEO"; confidence := (9 # 10)%Q;
        rel_article_id := aid; rel_source := src; rel_published_at := pub |}]
  /\ (run_resolution uuid5 llm [apple_row src aid pub] new_service).1.1
     = [{| e_id := Some (uuid5 NAMESPACE_DNS "apple"); e_name := "Apple";
           e_label := classify llm 0 "Apple";
           e_source := src; e_article_id := aid; e_published_at := pub |};
        {| e_id := Some (uuid5 NAMESPACE_DNS "tim cook"); e_name := "Tim Cook";
           e_label := classify llm 1 "Tim Cook";
           e_source := src; e_article_id := aid; e_published_at := pub |}]
  /\ (llm 0 "Apple" = Raised -> classify llm 0 "Apple" = Entity)
  /\ (llm 1 "Tim Cook" = Raised -> classify llm 1 "Tim Cook" = Entity).
Proof.
  intros Hne.
  rewrite run_resolution_relations, run_resolution_nodes.
  rewrite (resolve_rows_single uuid5 llm _ new_service (new_service_cache_ok uuid5)).
  cbn [fst snd]. split; [reflexivity |]. split.
  - change (entity_records uuid5 llm (apple_row src aid pub)
              (entities (apple_row src aid pub)) (llm_calls new_service))
      with [{| e_id := Some (uuid5 NAMESPACE_DNS "apple"); e_name := "Apple";
               e_label := classify llm 0 "Apple";
               e_source := src; e_article_id := aid; e_published_at := pub |};
            {| e_id := Some (uuid5 NAMESPACE_DNS "tim cook"); e_name := "Tim Cook";
               e_label := classify llm 1 "Tim Cook";
               e_source := src; e_article_id := aid; e_published_at := pub |}].
    apply drop_duplicates_two. cbn. by intros [= E].
  - unfold classify. split; by intros ->.
Qed.

Lemma apple_example_witness :
  sample_uuid5 NAMESPACE_DNS "apple" <> sample_uuid5 NAMESPACE_DNS "tim cook"
  /\ map rel_type
       (run_resolution sample_uuid5 llm_unavailable [apple_row None None None]
          new_service).1.2 = ["HAS_CEO"].
Proof.
  assert (Hne : sample_uuid5 NAMESPACE_DNS "apple"
                <> sample_uuid5 NAMESPACE_DNS "tim cook")
    by (vm_compute; discriminate).
  split; [exact Hne |].
  rewrite (proj1 (apple_example sample_uuid5 llm_unavailable None None None Hne)).
  reflexivity.
Defined.

(** ** Starting the pipeline *)

(** C9.  A start request that finds [running] set is answered with the
    error "Pipeline is already running" (status 400); the status record is
    left exactly as it was, and no worker is started or recorded for it. *)
Theorem start_pipeline_single_flight
    (body : option App.start_body) (a : App.app) :
  App.running (App.status a) = true ->
  App.start_pipeline body a = (App.JsonError "Pipeline is already running" 400, a).
Proof. intros H. unfold App.start_pipeline. by rewrite H. Qed.

Lemma start_pipeline_single_flight_witness :
  App.start_pipeline None
    {| App.status := App.starting_status;
       App.workers := [{| App.worker_sample_size := 50;
                          App.worker_run_ingestion := true |}] |}
  = (App.JsonError "Pipeline is already running" 400,
     {| App.status := App.starting_status;
        App.workers := [{| App.worker_sample_size := 50;
                           App.worker_run_ingestion := true |}] |}).
Proof. apply start_pipeline_single_flight. reflexivity. Defined.

(** ** The loader *)

Lemma append_inv_head a x y : a +:+ x = a +:+ y -> x = y.
Proof. induction a as [|c a IH]; cbn; [done |]. intros [= E]. by apply IH. Qed.

Lemma nodes_path_ne w : nodes_path w <> relations_path w.
Proof.
  unfold nodes_path, relations_path. intros E.
  apply append_inv_head in E. cbn in E. discriminate E.
Qed.

(** When the surroundings work, [run_loading] returns the flag of
    [load_batch] and leaves its graph in the store. *)
Lemma run_loading_load_batch w b s :
  infra_ok w ->
  (run_loading w b s).1 = Ret (load_batch b (db s)).1
  /\ db (run_loading w b s).2 = (load_batch b (db s)).2.
Proof.
  intros (H1 & H2 & H3 & H4 & H5 & H6).
  pose proof (nodes_path_ne w) as Hne.
  unfold run_loading, bind, to_csv, copy_to_docker, load_nodes_csv,
    load_relationships_csv, load_batch, ret.
  rewrite H1, H2, H3, H4, H5, H6. cbn.
  rewrite lookup_insert_ne by done. rewrite lookup_insert_eq. cbn.
  rewrite lookup_insert_eq. cbn.
  rewrite lookup_insert_ne by done. rewrite lookup_insert_eq.
  destruct (load_nodes_query _ (nodes (db s))) as [ns'|]; cbn; [| by destruct s as [[] ? ? ?]].
  rewrite lookup_insert_eq.
  destruct (load_relationships_query _ ns' (edges (db s))) as [es'|]; cbn; done.
Qed.

(** Membership of an event in a trace written out in full. *)
Ltac not_in_trace H :=
  repeat (apply elem_of_cons in H as [H|H]; [discriminate H |]);
  by apply elem_of_nil in H.

Ltac in_trace :=
  first [ apply list_elem_of_here | apply list_elem_of_further; in_trace ].

(** The conjuncts of a statement about a trace written out in full. *)
Ltac trace_goal :=
  repeat match goal with
  | |- _ /\ _ => split
  | |- _ <-> _ => split
  | |- forall _, _ => intros ?
  | |- _ -> _ => intros ?
  | |- ~ _ => intros ?
  end;
  try discriminate; try done;
  try match goal with
  | H : _ /\ _ |- _ => solve [by intuition discriminate]
  end;
  try match goal with
  | H : _ ∈ _ |- _ => solve [not_in_trace H]
  end;
  try solve [in_trace];
  try match goal with
  | H : forall p ok, _ ∉ _ |- _ => solve [exfalso; eapply H; in_trace]
  end;
  try solve [eexists; split; [in_trace | done]];
  try solve [eexists; in_trace];
  try solve [by eexists];
  try solve [do 2 eexists; cbn; reflexivity].

(** C8.  Every execution of [run_loading] starts by writing the node file,
    and the calls it adds to the trace form an initial segment of: write the
    two CSV files, copy them to the import directory, load the nodes, load
    the relationships.  Each call is made as soon as the calls before it
    succeeded: the second file is written when the first was, both copies
    are attempted when both files were written (the second unless the first
    ended in an exception that is not caught), the nodes are loaded when
    both copies completed, on files holding the rows of the batch, and the
    relationships are loaded when the node load succeeded; so when the
    surroundings work the run reaches the node load, and a node load that
    succeeds completes the plan.  The relationships are loaded only after a
    node load that succeeded, never after one that failed, and then the
    store is the one the two statements leave, the relationship statement
    having run on the nodes of the node statement; without a relationship
    load the relationships of the store are untouched.  The run returns
    [True] exactly when the relationship load succeeded. *)
Theorem run_loading_order (w : infra) (b : graph_batch) (s : lstate) :
  exists t,
    trace (run_loading w b s).2 = (trace s ++ t)%list
    /\ map call_of t `prefix_of` loading_plan w
    /\ (forall p ok,
          LoadRelationshipsCsv p ok ∈ t -> LoadNodesCsv "nodes_latest.csv" true ∈ t)
    /\ (forall p,
          LoadNodesCsv p false ∈ t -> forall p' ok, LoadRelationshipsCsv p' ok ∉ t)
    /\ (forall p ok,
          LoadNodesCsv p ok ∈ t ->
          CopyToDocker "nodes_latest.csv" true ∈ t
          /\ CopyToDocker "relations_latest.csv" true ∈ t
          /\ import_dir (run_loading w b s).2 !! "nodes_latest.csv"
             = Some (NodeFile (map node_to_csv (batch_nodes b)))
          /\ import_dir (run_loading w b s).2 !! "relations_latest.csv"
             = Some (RelFile (map rel_to_csv (batch_relations b))))
    /\ (exists t', t = ToCsv (nodes_path w) :: t')
    /\ (save_nodes_ok w = true -> ToCsv (relations_path w) ∈ t)
    /\ (save_nodes_ok w = true -> save_relations_ok w = true ->
        exists ok, CopyToDocker "nodes_latest.csv" ok ∈ t
                   /\ (ok = true <-> copy_nodes w = Copied))
    /\ (save_nodes_ok w = true -> save_relations_ok w = true ->
        copy_nodes w <> CopyCrashed ->
        exists ok, CopyToDocker "relations_latest.csv" ok ∈ t
                   /\ (ok = true <-> copy_relations w = Copied))
    /\ (CopyToDocker "nodes_latest.csv" true ∈ t ->
        CopyToDocker "relations_latest.csv" true ∈ t ->
        exists ok, LoadNodesCsv "nodes_latest.csv" ok ∈ t)
    /\ (infra_ok w ->
        exists ok rest,
          t = ([ToCsv (nodes_path w); ToCsv (relations_path w);
                CopyToDocker "nodes_latest.csv" true;
                CopyToDocker "relations_latest.csv" true;
                LoadNodesCsv "nodes_latest.csv" ok] ++ rest)%list)
    /\ (forall p, LoadNodesCsv p true ∈ t ->
        map call_of t = loading_plan w)
    /\ ((run_loading w b s).1 = Ret true
        <-> LoadRelationshipsCsv "relations_latest.csv" true ∈ t)
    /\ (forall p, LoadRelationshipsCsv p true ∈ t ->
        (load_batch b (db s)).1 = true
        /\ db (run_loading w b s).2 = (load_batch b (db s)).2)
    /\ ((forall p ok, LoadRelationshipsCsv p ok ∉ t) ->
        edges (db (run_loading w b s).2) = edges (db s)).
Proof.
  pose proof (nodes_path_ne w) as Hne.
  unfold run_loading, bind, to_csv, copy_to_docker, load_nodes_csv,
    load_relationships_csv, ret, load_batch, infra_ok.
  destruct (save_nodes_ok w); cbn;
    [| eexists; split; [cbn; rewrite <- ?app_assoc; reflexivity |]; trace_goal].
  destruct (save_relations_ok w); cbn;
    [| eexists; split; [cbn; rewrite <- ?app_assoc; reflexivity |]; trace_goal].
  rewrite lookup_insert_ne by done. rewrite lookup_insert_eq.
  destruct (copy_nodes w); cbn; rewrite ?lookup_insert_eq;
    destruct (copy_relations w); cbn;
    try (eexists; split; [cbn; rewrite <- ?app_assoc; reflexivity |]; trace_goal; fail).
  rewrite lookup_insert_ne by done. rewrite lookup_insert_eq.
  assert (Hfiles : forall (d : gmap string csv_file) x y,
             <["relations_latest.csv" := y]> (<["nodes_latest.csv" := x]> d)
               !! "nodes_latest.csv" = Some x
             /\ <["relations_latest.csv" := y]> (<["nodes_latest.csv" := x]> d)
                  !! "relations_latest.csv" = Some y).
  { intros d x y. rewrite lookup_insert_ne by done.
    by rewrite !lookup_insert_eq. }
  destruct (session_nodes_ok w); cbn.
  - destruct (load_nodes_query _ (nodes (db s))) as [ns'|]; cbn.
    + rewrite lookup_insert_eq.
      destruct (session_relations_ok w); cbn.
      * destruct (load_relationships_query _ ns' (edges (db s))) as [es'|]; cbn;
          (eexists; split; [cbn; rewrite <- ?app_assoc; reflexivity |]);
          trace_goal; apply Hfiles.
      * eexists; split; [cbn; rewrite <- ?app_assoc; reflexivity |].
        trace_goal; apply Hfiles.
    + eexists; split; [cbn; rewrite <- ?app_assoc; reflexivity |].
      trace_goal; apply Hfiles.
  - eexists; split; [cbn; rewrite <- ?app_assoc; reflexivity |].
    trace_goal; apply Hfiles.
Qed.

(** ** The node statement is idempotent *)

Section NodeStatement.

Implicit Types (n : node) (r : node_row) (ns : list node) (rows : list node_row).

Lemma elem_of_add_label l l' ls : l ∈ add_label l' ls <-> l = l' \/ l ∈ ls.
Proof.
  unfold add_label. case_decide as H.
  - split; [by right | by intros [->|?]].
  - rewrite elem_of_app, list_elem_of_singleton. tauto.
Qed.

Lemma add_label_present l ls : l ∈ ls -> add_label l ls = ls.
Proof. intros H. unfold add_label. by rewrite decide_True. Qed.

Lemma merge_matches_set_node i r n :
  "Entity" ∈ n_labels n -> merge_matches i (set_node r n) = merge_matches i n.
Proof.
  intros He. unfold merge_matches. cbn. f_equal.
  apply bool_decide_ext. rewrite elem_of_add_label. tauto.
Qed.

Lemma merge_matches_Entity i n : merge_matches i n = true -> "Entity" ∈ n_labels n.
Proof.
  unfold merge_matches. intros [H _]%andb_true_iff. by apply bool_decide_eq_true in H.
Qed.

Lemma merge_matches_update_node i j r n :
  merge_matches i (update_node j r n) = merge_matches i n.
Proof.
  unfold update_node. destruct (merge_matches j n) eqn:E; [| done].
  apply merge_matches_set_node. by eapply merge_matches_Entity.
Qed.

Lemma touch_touches r n : touch r n = if touches n r then set_node r n else n.
Proof. unfold touch, touches, update_node. by destruct (nr_id r). Qed.

Lemma merge_matches_touch i r n : merge_matches i (touch r n) = merge_matches i n.
Proof.
  unfold touch. destruct (nr_id r); [apply merge_matches_update_node | done].
Qed.

Lemma touches_touch r r' n : touches (touch r' n) r = touches n r.
Proof. unfold touches. destruct (nr_id r); [apply merge_matches_touch | done]. Qed.

Lemma n_id_touch r n : n_id (touch r n) = n_id n.
Proof.
  rewrite touch_touches. by destruct (touches n r).
Qed.

Lemma apply_rows_snoc rows r n :
  apply_rows (rows ++ [r]) n = touch r (apply_rows rows n).
Proof. unfold apply_rows. by rewrite fold_left_app. Qed.

Lemma apply_rows_cons rows r n :
  apply_rows (r :: rows) n = apply_rows rows (touch r n).
Proof. done. Qed.

Lemma touches_apply_rows rows r n : touches (apply_rows rows n) r = touches n r.
Proof.
  revert n. induction rows as [|r' rows IH]; intros n; [done |].
  rewrite apply_rows_cons, IH. apply touches_touch.
Qed.

Lemma merge_matches_apply_rows rows i n :
  merge_matches i (apply_rows rows n) = merge_matches i n.
Proof.
  revert n. induction rows as [|r' rows IH]; intros n; [done |].
  rewrite apply_rows_cons, IH. apply merge_matches_touch.
Qed.

Lemma n_id_apply_rows rows n : n_id (apply_rows rows n) = n_id n.
Proof.
  revert n. induction rows as [|r' rows IH]; intros n; [done |].
  rewrite apply_rows_cons, IH. apply n_id_touch.
Qed.

Lemma add_labels_snoc rs r ls :
  add_labels (rs ++ [r]) ls = add_label (label_name (nr_label r)) (add_labels rs ls).
Proof. unfold add_labels. by rewrite fold_left_app. Qed.

Lemma add_labels_cons rs r ls :
  add_labels (r :: rs) ls = add_labels rs (add_label (label_name (nr_label r)) ls).
Proof. done. Qed.

Lemma add_labels_mono rs ls l : l ∈ ls -> l ∈ add_labels rs ls.
Proof.
  revert ls. induction rs as [|r rs IH]; intros ls H; [done |].
  rewrite add_labels_cons. apply IH, elem_of_add_label. by right.
Qed.

Lemma add_labels_contains rs ls r :
  r ∈ rs -> label_name (nr_label r) ∈ add_labels rs ls.
Proof.
  revert ls. induction rs as [|r' rs IH]; intros ls.
  - by intros ?%elem_of_nil.
  - rewrite add_labels_cons. intros [->|H]%elem_of_cons; [| by apply IH].
    apply add_labels_mono, elem_of_add_label. by left.
Qed.

Lemma add_labels_absorb rs ls :
  (forall r, r ∈ rs -> label_name (nr_label r) ∈ ls) -> add_labels rs ls = ls.
Proof.
  revert ls. induction rs as [|r rs IH]; intros ls H; [done |].
  rewrite add_labels_cons, add_label_present by (apply H; by left).
  apply IH. intros r' Hr'. apply H. by right.
Qed.

Lemma n_labels_settle rs n : n_labels (settle rs n) = add_labels rs (n_labels n).
Proof.
  unfold settle. destruct (last rs) eqn:E; [done |].
  apply last_None in E. by subst.
Qed.

(** The rows act on a node through those that touch it only. *)
Lemma apply_rows_settle rows n :
  apply_rows rows n = settle (List.filter (touches n) rows) n.
Proof.
  induction rows as [|r rows IH] using rev_ind; [done |].
  rewrite apply_rows_snoc, IH, List.filter_app. cbn [List.filter].
  rewrite touch_touches, <- IH, touches_apply_rows, IH.
  destruct (touches n r) eqn:Ht; [| by rewrite app_nil_r].
  unfold settle at 2. rewrite last_snoc.
  unfold set_node. rewrite n_labels_settle, add_labels_snoc.
  f_equal. unfold settle. by destruct (last _).
Qed.

Lemma apply_rows_idemp rows n :
  apply_rows rows (apply_rows rows n) = apply_rows rows n.
Proof.
  rewrite (apply_rows_settle rows (apply_rows rows n)).
  rewrite (List.filter_ext _ (touches n)) by (intros r; apply touches_apply_rows).
  rewrite apply_rows_settle.
  set (rs := List.filter (touches n) rows).
  unfold settle at 1. destruct (last rs) as [r|] eqn:E; [| done].
  rewrite n_labels_settle. unfold settle. rewrite E. cbn.
  f_equal. apply add_labels_absorb. intros r' Hr'. by apply add_labels_contains.
Qed.

End NodeStatement.

Section NodeLoad.

Implicit Types (n : node) (r : node_row) (ns : list node) (rows : list node_row).

Lemma merge_node_Some r ns ns' :
  merge_node r ns = Some ns' ->
  exists i, nr_id r = Some i
    /\ ns' = if existsb (merge_matches i) ns then map (touch r) ns
             else (ns ++ [set_node r (bare_entity i)])%list.
Proof.
  unfold merge_node. destruct (nr_id r) as [i|] eqn:Hi; [| done].
  intros H. exists i. split; [done |].
  assert (Ht : forall n, touch r n = update_node i r n)
    by (intros n; unfold touch; by rewrite Hi).
  rewrite (map_ext _ _ Ht).
  destruct (existsb (merge_matches i) ns); by injection H as <-.
Qed.

Lemma existsb_map_touch i r ns :
  existsb (merge_matches i) (map (touch r) ns) = existsb (merge_matches i) ns.
Proof.
  induction ns as [|n ns IH]; [done |].
  cbn. by rewrite merge_matches_touch, IH.
Qed.

Lemma merge_matches_bare i j : merge_matches i (bare_entity j) = bool_decide (j = i).
Proof.
  unfold merge_matches. cbn. rewrite bool_decide_true by by left.
  cbn. apply bool_decide_ext. split; [by intros [= ->] | by intros ->].
Qed.

Lemma touch_unmatched r i ns :
  nr_id r = Some i -> existsb (merge_matches i) ns = false -> map (touch r) ns = ns.
Proof.
  intros Hi. induction ns as [|n ns IH]; [done |].
  cbn. intros [Hn Hns]%orb_false_iff.
  rewrite IH by done. f_equal.
  unfold touch, update_node. by rewrite Hi, Hn.
Qed.

Lemma touch_bare r i :
  nr_id r = Some i -> touch r (bare_entity i) = set_node r (bare_entity i).
Proof.
  intros Hi. unfold touch, update_node.
  by rewrite Hi, merge_matches_bare, bool_decide_true.
Qed.

Lemma touch_other_bare r i j :
  nr_id r = Some i -> i <> j -> touch r (bare_entity j) = bare_entity j.
Proof.
  intros Hi Hne. unfold touch, update_node.
  rewrite Hi, merge_matches_bare, bool_decide_false; [done | congruence].
Qed.

(** One row acts as [touch] on the store extended with the node it creates. *)
Lemma merge_node_touch r ns ns' :
  merge_node r ns = Some ns' ->
  exists i created,
    nr_id r = Some i
    /\ ns' = map (touch r) (ns ++ created)
    /\ existsb (merge_matches i) ns' = true
    /\ (created = [] \/
        created = [bare_entity i] /\ existsb (merge_matches i) ns = false).
Proof.
  intros (i & Hi & ->)%merge_node_Some. exists i.
  destruct (existsb (merge_matches i) ns) eqn:E.
  - exists []. rewrite app_nil_r, existsb_map_touch. auto.
  - exists [bare_entity i]. rewrite map_app, (touch_unmatched r i ns) by done.
    cbn [map]. rewrite (touch_bare r i) by done.
    split; [done |]. split; [done |]. split; [| by right].
    rewrite existsb_app. cbn. rewrite merge_matches_set_node by by left.
    by rewrite merge_matches_bare, bool_decide_true, orb_true_r.
Qed.

(** The file acts as [apply_rows] on the store extended with the nodes it
    creates, each of them a bare node whose [id] the store did not hold. *)
Lemma load_nodes_query_apply_rows rows ns ns1 :
  load_nodes_query rows ns = Some ns1 ->
  exists created,
    ns1 = map (apply_rows rows) (ns ++ created)
    /\ Forall (fun x => exists j, x = bare_entity j
                 /\ existsb (merge_matches j) ns = false) created.
Proof.
  revert ns. induction rows as [|r rows IH]; intros ns; cbn [load_nodes_query].
  - intros [= <-]. exists []. rewrite app_nil_r. split; [| done].
    induction ns as [|n ns IHns]; [done |]. cbn. by rewrite <- IHns.
  - destruct (merge_node r ns) as [ns'|] eqn:Em; [| done].
    intros Hl. apply merge_node_touch in Em as (i & c0 & Hi & -> & Hin & Hc0).
    destruct (IH _ Hl) as (c1 & -> & Hc1).
    assert (Hfix : map (touch r) c1 = c1).
    { clear -Hc1 Hi Hin. induction Hc1 as [|x c1 (j & -> & Hj) _ IHc]; [done |].
      cbn. rewrite IHc. f_equal. apply (touch_other_bare r i j Hi).
      intros ->. congruence. }
    exists (c0 ++ c1)%list. split.
    + rewrite <- Hfix at 1. rewrite <- map_app, <- app_assoc, map_map.
      apply map_ext. intros n. by rewrite apply_rows_cons.
    + apply Forall_app. split.
      * destruct Hc0 as [->|[-> H0]]; [done |]. constructor; [eauto | done].
      * eapply Forall_impl; [exact Hc1 |].
        intros x (j & -> & Hj). exists j. split; [done |].
        rewrite existsb_map_touch, existsb_app in Hj.
        by apply orb_false_iff in Hj as [? _].
Qed.

Lemma merge_node_keeps i r ns ns' :
  merge_node r ns = Some ns' ->
  existsb (merge_matches i) ns = true -> existsb (merge_matches i) ns' = true.
Proof.
  intros (j & Hj & ->)%merge_node_Some Hi.
  destruct (existsb (merge_matches j) ns).
  - by rewrite existsb_map_touch.
  - rewrite existsb_app, Hi. done.
Qed.

Lemma load_nodes_query_keeps i rows ns ns1 :
  load_nodes_query rows ns = Some ns1 ->
  existsb (merge_matches i) ns = true -> existsb (merge_matches i) ns1 = true.
Proof.
  revert ns. induction rows as [|r rows IH]; intros ns; cbn [load_nodes_query].
  - by intros [= <-].
  - destruct (merge_node r ns) as [ns'|] eqn:Em; [| done].
    intros Hl Hi. eapply IH; [done |]. by eapply merge_node_keeps.
Qed.

(** After the file is loaded, every row finds its node. *)
Lemma load_nodes_query_covered rows ns ns1 :
  load_nodes_query rows ns = Some ns1 ->
  Forall (fun r => exists i, nr_id r = Some i
            /\ existsb (merge_matches i) ns1 = true) rows.
Proof.
  revert ns. induction rows as [|r rows IH]; intros ns; cbn [load_nodes_query].
  - by intros _.
  - destruct (merge_node r ns) as [ns'|] eqn:Em; [| done].
    intros Hl. constructor; [| by eapply IH].
    pose proof Em as (i & c0 & Hi & _ & Hin & _)%merge_node_touch.
    exists i. split; [done |]. by eapply load_nodes_query_keeps.
Qed.

(** On a store in which every row finds its node, the file rewrites in place. *)
Lemma load_nodes_query_in_place rows ns :
  Forall (fun r => exists i, nr_id r = Some i
            /\ existsb (merge_matches i) ns = true) rows ->
  load_nodes_query rows ns = Some (map (apply_rows rows) ns).
Proof.
  revert ns. induction rows as [|r rows IH]; intros ns Hc; cbn [load_nodes_query].
  - f_equal. induction ns as [|n ns IHns]; [done |]. cbn. by rewrite <- IHns.
  - apply Forall_cons in Hc as [(i & Hi & Hin) Hc].
    assert (Em : merge_node r ns = Some (map (touch r) ns)).
    { unfold merge_node, touch. by rewrite Hi, Hin. }
    rewrite Em, IH.
    + f_equal. rewrite map_map. apply map_ext. intros n. by rewrite apply_rows_cons.
    + eapply Forall_impl; [exact Hc |].
      intros r' (j & Hj & Hjn). exists j. by rewrite existsb_map_touch.
Qed.

(** Loading the nodes of a file a second time changes nothing. *)
Lemma load_nodes_query_idemp rows ns ns1 :
  load_nodes_query rows ns = Some ns1 -> load_nodes_query rows ns1 = Some ns1.
Proof.
  intros Hl.
  rewrite load_nodes_query_in_place by by eapply load_nodes_query_covered.
  apply load_nodes_query_apply_rows in Hl as (created & -> & _).
  f_equal. rewrite map_map. apply map_ext. intros n. apply apply_rows_idemp.
Qed.

End NodeLoad.

(** ** The relationship statement is idempotent *)

Section RelationshipLoad.

Implicit Types (r : rel_row) (es : list edge) (ns : list node).

(** A merge that succeeded keeps what was there, and on any larger set of
    relationships it finds its relationship and changes nothing. *)
Lemma merge_relationship_stable r es es' p :
  merge_relationship r es p = Some es' ->
  es ⊆ es' /\ forall es'', es' ⊆ es'' -> merge_relationship r es'' p = Some es''.
Proof.
  unfold merge_relationship.
  destruct (rr_type r) as [ty|], (rr_source r) as [so|],
    (rr_article_id r) as [ai|], (rr_published_at r) as [pa|]; try done.
  case_decide as Hin; intros [= <-].
  - split; [done |]. intros es'' Hsub. rewrite decide_True; [done |]. by apply Hsub.
  - split; [intros x Hx; apply elem_of_app; by left |]. intros es'' Hsub.
    rewrite decide_True; [done |]. apply Hsub, elem_of_app. right. by left.
Qed.

Lemma merge_pairs_stable r ps es es' :
  merge_pairs r ps es = Some es' ->
  es ⊆ es' /\ forall es'', es' ⊆ es'' -> merge_pairs r ps es'' = Some es''.
Proof.
  revert es. induction ps as [|p ps IH]; intros es; cbn [merge_pairs].
  - intros [= <-]. done.
  - destruct (merge_relationship r es p) as [es1|] eqn:E; [| done].
    intros Hm. apply merge_relationship_stable in E as [Hsub1 Hst1].
    apply IH in Hm as [Hsub2 Hst2].
    split; [by transitivity es1 |]. intros es'' Hsub.
    rewrite Hst1 by (by transitivity es'). by apply Hst2.
Qed.

Lemma load_relationships_query_stable rows ns es es' :
  load_relationships_query rows ns es = Some es' ->
  es ⊆ es'
  /\ forall es'', es' ⊆ es'' -> load_relationships_query rows ns es'' = Some es''.
Proof.
  revert es. induction rows as [|r rows IH]; intros es; cbn [load_relationships_query].
  - intros [= <-]. done.
  - destruct (merge_pairs r (endpoints r ns) es) as [es1|] eqn:E; [| done].
    intros Hl. apply merge_pairs_stable in E as [Hsub1 Hst1].
    apply IH in Hl as [Hsub2 Hst2].
    split; [by transitivity es1 |]. intros es'' Hsub.
    rewrite Hst1 by (by transitivity es'). by apply Hst2.
Qed.

(** Loading the relationships of a file a second time changes nothing. *)
Lemma load_relationships_query_idemp rows ns es es' :
  load_relationships_query rows ns es = Some es' ->
  load_relationships_query rows ns es' = Some es'.
Proof. intros H. by apply (load_relationships_query_stable rows ns es es' H). Qed.

Lemma merge_relationship_NoDup r es es' p :
  merge_relationship r es p = Some es' -> NoDup es -> NoDup es'.
Proof.
  unfold merge_relationship.
  destruct (rr_type r) as [ty|], (rr_source r) as [so|],
    (rr_article_id r) as [ai|], (rr_published_at r) as [pa|]; try done.
  case_decide as Hin; intros [= <-] Hnd; [done |].
  apply NoDup_app. split; [done |]. split; [| apply NoDup_singleton].
  intros x Hx ->%list_elem_of_singleton. done.
Qed.

Lemma merge_pairs_NoDup r ps es es' :
  merge_pairs r ps es = Some es' -> NoDup es -> NoDup es'.
Proof.
  revert es. induction ps as [|p ps IH]; intros es; cbn [merge_pairs].
  - by intros [= <-].
  - destruct (merge_relationship r es p) as [es1|] eqn:E; [| done].
    intros Hm Hnd. eapply IH; [done |]. by eapply merge_relationship_NoDup.
Qed.

(** The statement never stores the same relationship twice. *)
Lemma load_relationships_query_NoDup rows ns es es' :
  load_relationships_query rows ns es = Some es' -> NoDup es -> NoDup es'.
Proof.
  revert es. induction rows as [|r rows IH]; intros es; cbn [load_relationships_query].
  - by intros [= <-].
  - destruct (merge_pairs r (endpoints r ns) es) as [es1|] eqn:E; [| done].
    intros Hl Hnd. eapply IH; [done |]. by eapply merge_pairs_NoDup.
Qed.

End RelationshipLoad.

(** ** Entity nodes stay unique *)

Lemma entity_ids_map_touch r ns : entity_ids (map (touch r) ns) = entity_ids ns.
Proof.
  unfold entity_ids. induction ns as [|n ns IH]; [done |].
  cbn [map omap list_omap]. rewrite IH, n_id_touch.
  replace (bool_decide ("Entity" ∈ n_labels (touch r n)))
    with (bool_decide ("Entity" ∈ n_labels n)); [done |].
  rewrite touch_touches. destruct (touches n r) eqn:Ht; [| done].
  assert (He : "Entity" ∈ n_labels n).
  { unfold touches in Ht. destruct (nr_id r); [| done].
    by eapply merge_matches_Entity. }
  apply bool_decide_ext. cbn. rewrite elem_of_add_label. tauto.
Qed.

Lemma elem_of_entity_ids i ns :
  i ∈ entity_ids ns <-> existsb (merge_matches i) ns = true.
Proof.
  unfold entity_ids. rewrite list_elem_of_omap, existsb_exists. split.
  - intros (n & Hn & E). exists n. split; [by apply list_elem_of_In |].
    unfold merge_matches. destruct (bool_decide ("Entity" ∈ n_labels n)); [| done].
    cbn. by apply bool_decide_eq_true.
  - intros (n & Hn & [He Hi]%andb_true_iff). exists n.
    split; [by apply list_elem_of_In |].
    rewrite He. by apply bool_decide_eq_true in Hi.
Qed.

Lemma merge_node_entity_ids r ns ns' :
  merge_node r ns = Some ns' -> NoDup (entity_ids ns) -> NoDup (entity_ids ns').
Proof.
  intros (i & Hi & ->)%merge_node_Some Hnd.
  destruct (existsb (merge_matches i) ns) eqn:E.
  - by rewrite entity_ids_map_touch.
  - unfold entity_ids. rewrite omap_app. fold (entity_ids ns). cbn.
    rewrite bool_decide_true by (apply elem_of_add_label; right; by left).
    cbn. apply NoDup_app. split; [done |]. split; [| apply NoDup_singleton].
    intros x Hx ->%list_elem_of_singleton.
    apply elem_of_entity_ids in Hx. congruence.
Qed.

(** The node statement never leaves two [Entity] nodes with one [id]. *)
Lemma load_nodes_query_entity_ids rows ns ns' :
  load_nodes_query rows ns = Some ns' ->
  NoDup (entity_ids ns) -> NoDup (entity_ids ns').
Proof.
  revert ns. induction rows as [|r rows IH]; intros ns; cbn [load_nodes_query].
  - by intros [= <-].
  - destruct (merge_node r ns) as [ns1|] eqn:E; [| done].
    intros Hl Hnd. eapply IH; [done |]. by eapply merge_node_entity_ids.
Qed.

(** ** Loading a batch twice *)

Lemma load_batch_idemp b g : load_batch b (load_batch b g).2 = load_batch b g.
Proof.
  unfold load_batch.
  destruct (load_nodes_query _ (nodes g)) as [ns'|] eqn:En; cbn [snd].
  - destruct (load_relationships_query _ ns' (edges g)) as [es'|] eqn:Er;
      cbn [snd nodes edges].
    + rewrite (load_nodes_query_idemp _ _ _ En).
      by rewrite (load_relationships_query_idemp _ _ _ _ Er).
    + by rewrite (load_nodes_query_idemp _ _ _ En), Er.
  - by rewrite En.
Qed.

Lemma load_batch_unique b g :
  (NoDup (entity_ids (nodes g)) -> NoDup (entity_ids (nodes (load_batch b g).2)))
  /\ (NoDup (edges g) -> NoDup (edges (load_batch b g).2)).
Proof.
  unfold load_batch.
  destruct (load_nodes_query _ (nodes g)) as [ns'|] eqn:En; cbn [snd]; [| done].
  destruct (load_relationships_query _ ns' (edges g)) as [es'|] eqn:Er;
    cbn [snd nodes edges].
  - split; [by eapply load_nodes_query_entity_ids
           | by eapply load_relationships_query_NoDup].
  - split; [by eapply load_nodes_query_entity_ids | done].
Qed.

(** C1.  With the surroundings working on both occasions, applying
    [run_loading] to a batch a second time returns what the first
    application returned (it returns a flag, it does not raise, and it
    succeeds whenever the first one did) and leaves the graph exactly as the
    first application left it: the same nodes and relationships, hence the
    same counts.  No [Entity] node is duplicated on its [id] and no
    relationship is stored twice. *)
Theorem run_loading_idempotent (w1 w2 : infra) (b : graph_batch) (s : lstate) :
  infra_ok w1 -> infra_ok w2 ->
  let once := run_loading w1 b s in
  let twice := run_loading w2 b once.2 in
  twice.1 = once.1
  /\ (exists ok, twice.1 = Ret ok)
  /\ (once.1 = Ret true -> twice.1 = Ret true)
  /\ db twice.2 = db once.2
  /\ length (nodes (db twice.2)) = length (nodes (db once.2))
  /\ length (edges (db twice.2)) = length (edges (db once.2))
  /\ (NoDup (entity_ids (nodes (db s))) ->
      NoDup (entity_ids (nodes (db twice.2))))
  /\ (NoDup (edges (db s)) -> NoDup (edges (db twice.2))).
Proof.
  intros H1 H2 once twice.
  destruct (run_loading_load_batch w1 b s H1) as [R1 D1].
  destruct (run_loading_load_batch w2 b once.2 H2) as [R2 D2].
  fold once in R1, D1. fold twice in R2, D2.
  assert (Hdb : db twice.2 = db once.2).
  { rewrite D2, D1. by rewrite load_batch_idemp. }
  assert (Hret : twice.1 = once.1).
  { rewrite R2, R1, D1. by rewrite load_batch_idemp. }
  split; [done |]. split; [by eexists |]. split; [by rewrite Hret |].
  split; [done |]. rewrite Hdb. split; [done |]. split; [done |].
  rewrite D1. apply load_batch_unique.
Qed.

Lemma run_loading_idempotent_witness :
  infra_ok working_infra
  /\ (run_loading working_infra apple_batch empty_state).1 = Ret true
  /\ (run_loading working_infra apple_batch
        (run_loading working_infra apple_batch empty_state).2).1 = Ret true
  /\ length (nodes (db (run_loading working_infra apple_batch
                          (run_loading working_infra apple_batch empty_state).2).2))
     = 2
  /\ length (edges (db (run_loading working_infra apple_batch
                          (run_loading working_infra apple_batch empty_state).2).2))
     = 1.
Proof.
  assert (Hok : infra_ok working_infra) by (repeat split; reflexivity).
  assert (Hone : (run_loading working_infra apple_batch empty_state).1 = Ret true)
    by (vm_compute; reflexivity).
  destruct (run_loading_idempotent working_infra working_infra apple_batch
              empty_state Hok Hok) as (_ & _ & Htwice & _ & Hn & He & _).
  split; [exact Hok |]. split; [exact Hone |]. split; [exact (Htwice Hone) |].
  split.
  - etransitivity; [exact Hn |]. vm_compute. reflexivity.
  - etransitivity; [exact He |]. vm_compute. reflexivity.
Defined.

(** ** Relations without an end point *)

Section Dangling.

Implicit Types (r : rel_row) (es : list edge) (ns : list node).

Lemma list_prod_nil_r {A B} (l : list A) : list_prod l (@nil B) = [].
Proof. induction l as [|a l IH]; [done |]. done. Qed.

Lemma match_id_none o ns :
  existsb (id_matches o) ns = false -> match_id o ns = [].
Proof.
  intros Hno. unfold match_id.
  destruct (List.filter _ _) as [|k ks] eqn:E; [done |].
  assert (Hk : In k (List.filter
             (fun k => match ns !! k with Some n => id_matches o n | None => false end)
             (seq 0 (length ns)))) by (rewrite E; by left).
  apply filter_In in Hk as [_ Hk].
  destruct (ns !! k) as [n|] eqn:En; [| done].
  assert (existsb (id_matches o) ns = true); [| congruence].
  apply existsb_exists. exists n. split; [| done].
  apply list_elem_of_In. by eapply list_elem_of_lookup_2.
Qed.

Lemma endpoints_none r ns : has_endpoints ns r = false -> endpoints r ns = [].
Proof.
  unfold has_endpoints, endpoints. intros [H|H]%andb_false_iff.
  - by rewrite (match_id_none _ _ H).
  - rewrite (match_id_none _ _ H). apply list_prod_nil_r.
Qed.

(** Rows for which a [MATCH] finds nothing contribute nothing, not even an
    error. *)
Lemma load_relationships_query_skip rows ns es :
  load_relationships_query rows ns es
  = load_relationships_query (List.filter (has_endpoints ns) rows) ns es.
Proof.
  revert es. induction rows as [|r rows IH]; intros es; [done |].
  cbn [List.filter]. destruct (has_endpoints ns r) eqn:E.
  - cbn [load_relationships_query].
    destruct (merge_pairs r (endpoints r ns) es); [apply IH | done].
  - cbn [load_relationships_query]. rewrite (endpoints_none r ns E). cbn. apply IH.
Qed.

Lemma existsb_id_map_touch i row ns :
  existsb (id_matches (Some i)) (map (touch row) ns)
  = existsb (id_matches (Some i)) ns.
Proof.
  induction ns as [|n ns IH]; [done |].
  cbn [map existsb]. rewrite IH. f_equal. cbn. by rewrite n_id_touch.
Qed.

Lemma merge_matches_id_matches i ns :
  existsb (merge_matches i) ns = true -> existsb (id_matches (Some i)) ns = true.
Proof.
  rewrite !existsb_exists. intros (n & Hn & [_ H]%andb_true_iff). eauto.
Qed.

(** The [id]s present after the node statement: those of the store and
    those of the rows. *)
Lemma load_nodes_query_ids i rows ns ns1 :
  load_nodes_query rows ns = Some ns1 ->
  existsb (id_matches (Some i)) ns1
  = existsb (id_matches (Some i)) ns
    || existsb (fun row => bool_decide (nr_id row = Some i)) rows.
Proof.
  revert ns. induction rows as [|row rows IH]; intros ns; cbn [load_nodes_query].
  - intros [= <-]. by rewrite orb_false_r.
  - destruct (merge_node row ns) as [ns'|] eqn:Em; [| done].
    intros Hl. rewrite (IH _ Hl). cbn [existsb].
    apply merge_node_Some in Em as (j & Hj & ->). rewrite Hj.
    destruct (existsb (merge_matches j) ns) eqn:E.
    + rewrite existsb_id_map_touch.
      destruct (bool_decide (Some j = Some i)) eqn:Eji; [| done].
      apply bool_decide_eq_true in Eji as [= ->].
      by rewrite (merge_matches_id_matches i ns E).
    + rewrite existsb_app. cbn [existsb id_matches set_node bare_entity n_id].
      by rewrite orb_false_r, orb_assoc.
Qed.

End Dangling.

Lemma has_endpoints_connected b g ns' r :
  load_nodes_query (map node_to_csv (batch_nodes b)) (nodes g) = Some ns' ->
  has_endpoints ns' (rel_to_csv r) = connected b g r.
Proof.
  intros Hl. unfold has_endpoints, connected.
  assert (H : forall o,
             existsb (id_matches (csv_cell o)) ns' = has_node b g o).
  { intros o. unfold has_node. destruct (csv_cell o) as [i|] eqn:Eo.
    - rewrite (load_nodes_query_ids i _ _ _ Hl). f_equal.
      clear. induction (batch_nodes b) as [|e es IH]; [done |].
      cbn. by rewrite IH.
    - clear. by induction ns' as [|n ns IH]. }
  cbn. by rewrite !H.
Qed.

Lemma load_batch_without_dangling b g :
  load_batch (without_dangling b g) g = load_batch b g.
Proof.
  unfold load_batch, without_dangling. cbn [batch_nodes batch_relations].
  destruct (load_nodes_query _ (nodes g)) as [ns'|] eqn:En; [| done].
  assert (E : load_relationships_query
                (map rel_to_csv (List.filter (connected b g) (batch_relations b)))
                ns' (edges g)
              = load_relationships_query (map rel_to_csv (batch_relations b))
                  ns' (edges g)); [| by rewrite E].
  rewrite (load_relationships_query_skip (map rel_to_csv (batch_relations b))).
  f_equal. induction (batch_relations b) as [|r rs IH]; [done |].
  cbn [map List.filter]. rewrite (has_endpoints_connected b g ns' r En).
  destruct (connected b g r); cbn [map]; by rewrite IH.
Qed.

(** C7 (as stated) fails: the relation of [dangling_batch] ends at an [id] no
    node carries, in the store or in the batch; the load reports success,
    both statements having run without error, and the store holds no
    relationship: the edge was dropped silently. *)
Lemma dangling_relation_dropped_counterexample :
  connected dangling_batch (db empty_state) (has_ceo_relation "id-nobody") = false
  /\ (run_loading working_infra dangling_batch empty_state).1 = Ret true
  /\ edges (db (run_loading working_infra dangling_batch empty_state).2) = []
  /\ length (nodes (db (run_loading working_infra dangling_batch empty_state).2)) = 1
  /\ last (trace (run_loading working_infra dangling_batch empty_state).2)
     = Some (LoadRelationshipsCsv "relations_latest.csv" true).
Proof. repeat split; vm_compute; reflexivity. Qed.

(** C7 (as amended).  With the surroundings working, a relation whose
    [start_id] or [end_id] is carried by no node of the store and by no node
    of the batch is skipped without error: the load returns the same flag
    and leaves the same graph as the load of the batch without these
    relations, and the remaining relations are loaded as usual. *)
Theorem dangling_relations_skipped (w : infra) (b : graph_batch) (s : lstate) :
  infra_ok w ->
  (run_loading w b s).1 = (run_loading w (without_dangling b (db s)) s).1
  /\ db (run_loading w b s).2
     = db (run_loading w (without_dangling b (db s)) s).2
  /\ (exists ok, (run_loading w b s).1 = Ret ok).
Proof.
  intros Hok.
  destruct (run_loading_load_batch w b s Hok) as [R1 D1].
  destruct (run_loading_load_batch w (without_dangling b (db s)) s Hok) as [R2 D2].
  rewrite R1, R2, D1, D2, load_batch_without_dangling.
  split; [done |]. split; [done |]. by eexists.
Qed.

Lemma dangling_relations_skipped_witness :
  infra_ok working_infra
  /\ batch_relations (without_dangling dangling_batch (db empty_state)) = []
  /\ (run_loading working_infra dangling_batch empty_state).1
     = (run_loading working_infra
          (without_dangling dangling_batch (db empty_state)) empty_state).1.
Proof.
  assert (Hok : infra_ok working_infra) by (repeat split; reflexivity).
  split; [exact Hok |]. split; [vm_compute; reflexivity |].
  exact (proj1 (dangling_relations_skipped working_infra dangling_batch
                  empty_state Hok)).
Defined.

(** ** Facts about the string primitives *)

Lemma truthy_map_chars f s : PyStr.truthy (PyStr.map_chars f s) = PyStr.truthy s.
Proof. by destruct s. Qed.




Lemma truthy_lower s : PyStr.truthy (PyStr.lower s) = PyStr.truthy s.
Proof. apply truthy_map_chars. Qed.

Lemma truthy_upper s : PyStr.truthy (PyStr.upper s) = PyStr.truthy s.
Proof. apply truthy_map_chars. Qed.


Lemma rstrip_idemp s : PyStr.rstrip (PyStr.rstrip s) = PyStr.rstrip s.
Proof.
  induction s as [|c s IH]; [done |].
  cbn. destruct (PyStr.rstrip s) as [|d r] eqn:E.
  - destruct (PyStr.is_space c) eqn:F; [done |]. cbn. by rewrite F.
  - cbn [PyStr.rstrip]. cbn [PyStr.rstrip] in IH. by rewrite IH.
Qed.

Lemma lstrip_head s :
  PyStr.lstrip s = ""
  \/ exists c r, PyStr.lstrip s = String c r /\ PyStr.is_space c = false.
Proof.
  induction s as [|c s IH]; [by left |].
  cbn. destruct (PyStr.is_space c) eqn:E; [done |]. right. eauto.
Qed.

Lemma rstrip_head c s :
  PyStr.is_space c = false -> exists r, PyStr.rstrip (String c s) = String c r.
Proof.
  intros E. cbn. destruct (PyStr.rstrip s); rewrite ?E; eauto.
Qed.

Lemma strip_idemp s : PyStr.strip (PyStr.strip s) = PyStr.strip s.
Proof.
  unfold PyStr.strip.
  destruct (lstrip_head s) as [->|(c & r & -> & Hc)]; [done |].
  destruct (rstrip_head c r Hc) as [r' E]. rewrite E.
  cbn [PyStr.lstrip]. rewrite Hc, <- E. apply rstrip_idemp.
Qed.

Lemma lower_char_idemp c : PyStr.lower_char (PyStr.lower_char c) = PyStr.lower_char c.
Proof. by destruct c as [[] [] [] [] [] [] [] []]. Qed.

Lemma lower_upper_char c : PyStr.lower_char (PyStr.upper_char c) = PyStr.lower_char c.
Proof. by destruct c as [[] [] [] [] [] [] [] []]. Qed.

Lemma is_space_lower_char c : PyStr.is_space (PyStr.lower_char c) = PyStr.is_space c.
Proof. by destruct c as [[] [] [] [] [] [] [] []]. Qed.

Lemma map_chars_compose f g s :
  PyStr.map_chars f (PyStr.map_chars g s) = PyStr.map_chars (fun c => f (g c)) s.
Proof. induction s as [|c s IH]; [done |]. cbn. by rewrite IH. Qed.

Lemma map_chars_ext f g s :
  (forall c, f c = g c) -> PyStr.map_chars f s = PyStr.map_chars g s.
Proof. intros H. induction s as [|c s IH]; [done |]. cbn. by rewrite H, IH. Qed.

Lemma map_chars_app f s t :
  PyStr.map_chars f (s +:+ t) = PyStr.map_chars f s +:+ PyStr.map_chars f t.
Proof.
  induction s as [|c s IH]; [done |].
  change (String c s +:+ t) with (String c (s +:+ t)).
  cbn [PyStr.map_chars]. rewrite IH. done.
Qed.

Lemma lower_idemp s : PyStr.lower (PyStr.lower s) = PyStr.lower s.
Proof.
  unfold PyStr.lower. rewrite map_chars_compose.
  apply map_chars_ext, lower_char_idemp.
Qed.

Lemma lower_upper s : PyStr.lower (PyStr.upper s) = PyStr.lower s.
Proof.
  unfold PyStr.lower, PyStr.upper. rewrite map_chars_compose.
  apply map_chars_ext, lower_upper_char.
Qed.

Lemma lstrip_map_chars f s :
  (forall c, PyStr.is_space (f c) = PyStr.is_space c) ->
  PyStr.lstrip (PyStr.map_chars f s) = PyStr.map_chars f (PyStr.lstrip s).
Proof.
  intros H. induction s as [|c s IH]; [done |].
  cbn. rewrite H. by destruct (PyStr.is_space c).
Qed.

Lemma rstrip_map_chars f s :
  (forall c, PyStr.is_space (f c) = PyStr.is_space c) ->
  PyStr.rstrip (PyStr.map_chars f s) = PyStr.map_chars f (PyStr.rstrip s).
Proof.
  intros H. induction s as [|c s IH]; [done |].
  cbn. rewrite IH, H.
  destruct (PyStr.rstrip s); cbn; [by destruct (PyStr.is_space c) | done].
Qed.

Lemma strip_lower s : PyStr.strip (PyStr.lower s) = PyStr.lower (PyStr.strip s).
Proof.
  unfold PyStr.strip, PyStr.lower.
  rewrite lstrip_map_chars, rstrip_map_chars; auto using is_space_lower_char.
Qed.

Lemma normalized_idemp s : normalized (normalized s) = normalized s.
Proof.
  unfold normalized. by rewrite strip_lower, lower_idemp, strip_idemp.
Qed.

Lemma prefix_app w s : String.prefix w (w +:+ s) = true.
Proof.
  induction w as [|c w IH]; [by destruct s |].
  change (String c w +:+ s) with (String c (w +:+ s)).
  cbn [String.prefix]. destruct (ascii_dec c c); [exact IH | done].
Qed.

Lemma contains_app w a b : PyStr.contains w (a +:+ w +:+ b) = true.
Proof.
  induction a as [|c a IH].
  - change ("" +:+ w +:+ b) with (w +:+ b).
    destruct (w +:+ b) eqn:E; cbn [PyStr.contains]; by rewrite <- E, prefix_app.
  - change (String c a +:+ w +:+ b) with (String c (a +:+ w +:+ b)).
    cbn [PyStr.contains]. rewrite IH. apply orb_true_r.
Qed.

(** ** The identifier of a blank name *)


(** X2: a look-up that answers leaves its answer in the cache under the
    normalized name; it never overwrites or removes an entry, whatever the
    cache held; and asking again gives the same answer without touching the
    service. *)
Theorem get_or_create_entity_id_caches
    (uuid5 : string -> string -> string) (name : string) (st : service) (v : string) :
  (get_or_create_entity_id uuid5 name st).1 = Some v ->
  let st' := (get_or_create_entity_id uuid5 name st).2 in
  entity_cache st' !! normalized name = Some v
  /\ (forall k u, entity_cache st !! k = Some u -> entity_cache st' !! k = Some u)
  /\ (forall k, k <> normalized name -> entity_cache st' !! k = entity_cache st !! k)
  /\ get_or_create_entity_id uuid5 name st' = (Some v, st')
  /\ llm_calls st' = llm_calls st.
Proof.
  unfold get_or_create_entity_id. fold (normalized name).
  destruct (PyStr.truthy (normalized name)) eqn:T; cbn [negb]; [| done].
  destruct (entity_cache st !! normalized name) as [u|] eqn:E; cbn.
  - intros [= ->]. rewrite E. done.
  - intros [= <-]. rewrite lookup_insert_eq.
    split; [done |]. split.
    + intros k u Hk. rewrite lookup_insert_ne; [done | congruence].
    + split; [| done]. intros k Hk. by rewrite lookup_insert_ne.
Qed.

Lemma get_or_create_entity_id_caches_witness :
  (get_or_create_entity_id sample_uuid5 " Apple "
     (get_or_create_entity_id sample_uuid5 "Tim Cook" new_service).2).1
  = Some (sample_uuid5 NAMESPACE_DNS "apple")
  /\ entity_cache
       (get_or_create_entity_id sample_uuid5 " Apple "
          (get_or_create_entity_id sample_uuid5 "Tim Cook" new_service).2).2
     !! "tim cook" = Some (sample_uuid5 NAMESPACE_DNS "tim cook").
Proof.
  assert (H : (get_or_create_entity_id sample_uuid5 " Apple "
                 (get_or_create_entity_id sample_uuid5 "Tim Cook" new_service).2).1
              = Some (sample_uuid5 NAMESPACE_DNS "apple")) by reflexivity.
  split; [exact H |].
  pose proof (get_or_create_entity_id_caches sample_uuid5 " Apple "
                (get_or_create_entity_id sample_uuid5 "Tim Cook" new_service).2
                (sample_uuid5 NAMESPACE_DNS "apple") H) as K.
  cbv zeta in K. destruct K as (_ & Hkeep & _).
  apply Hkeep. reflexivity.
Defined.

(** ** The fallback classifier *)


(** X4: a cue word of a company decides wherever it occurs: inside a longer
    word, in either case, and whatever else the name holds (a cue word of a
    person included). *)
Theorem heuristic_type_company_cue (a b w : string) :
  w ∈ company_cues ->
  _heuristic_type (a +:+ w +:+ b) = Company
  /\ _heuristic_type (a +:+ PyStr.upper w +:+ b) = Company.
Proof.
  intros Hw.
  assert (Hlow : PyStr.lower w = w /\ PyStr.truthy w = true).
  { unfold company_cues in Hw.
    repeat (apply elem_of_cons in Hw as [->|Hw]; [by vm_compute |]).
    by apply elem_of_nil in Hw. }
  destruct Hlow as [Hlow Hne].
  assert (Hin : forall u, PyStr.lower u = w ->
            existsb (fun w => PyStr.contains w (PyStr.lower (a +:+ u +:+ b)))
              ["inc"; "corp"; "company"; "bank"; "fund"] = true).
  { intros u Hu. apply existsb_exists. exists w.
    split; [by apply list_elem_of_In |].
    unfold PyStr.lower in *. rewrite !map_chars_app, Hu. apply contains_app. }
  assert (Ht : forall u, PyStr.truthy u = true -> PyStr.truthy (a +:+ u +:+ b) = true).
  { intros u Hu. destruct u; [done |]. clear. induction a; done. }
  unfold _heuristic_type.
  rewrite (Ht w Hne), (Hin w Hlow).
  rewrite Ht by (by rewrite truthy_upper).
  rewrite Hin by (by rewrite lower_upper). done.
Qed.

Lemma heuristic_type_company_cue_witness :
  _heuristic_type "Dr. Lincoln" = Company /\ _heuristic_type "PRINCE" = Company.
Proof.
  split.
  - apply (heuristic_type_company_cue "Dr. L" "oln" "inc"). vm_compute.
    apply list_elem_of_here.
  - apply (heuristic_type_company_cue "PR" "E" "inc"). vm_compute.
    apply list_elem_of_here.
Defined.

(** ** The records of a frame *)

Section FrameFacts.

Variable uuid5 : string -> string -> string.
Variable llm : nat -> string -> llm_reply.

Lemma resolved_id_stripped e :
  PyStr.truthy (PyStr.strip e) = true ->
  resolved_id uuid5 (PyStr.strip e)
  = Some (uuid5 NAMESPACE_DNS (PyStr.lower (PyStr.strip e))).
Proof.
  intros Ht. unfold resolved_id, normalized.
  by rewrite strip_idemp, truthy_lower, Ht.
Qed.

(** Every record of [entity_records] comes from a non-blank mention. *)
Lemma entity_records_elem row es n x :
  x ∈ entity_records uuid5 llm row es n ->
  exists e, e ∈ es
    /\ e_name x = PyStr.strip e
    /\ PyStr.truthy (PyStr.strip e) = true
    /\ e_id x = Some (uuid5 NAMESPACE_DNS (PyStr.lower (PyStr.strip e)))
    /\ e_source x = row_source row
    /\ e_article_id x = row_article_id row
    /\ e_published_at x = row_published_at row.
Proof.
  revert n. induction es as [|e es IH]; intros n; cbn [entity_records].
  - by intros ?%elem_of_nil.
  - destruct (PyStr.truthy (PyStr.strip e)) eqn:Ht.
    + intros [->|Hx]%elem_of_cons.
      * exists e. cbn. rewrite resolved_id_stripped by done.
        split; [by left |]. done.
      * destruct (IH _ Hx) as (e' & He' & H). exists e'. split; [by right | done].
    + intros Hx. destruct (IH _ Hx) as (e' & He' & H).
      exists e'. split; [by right | done].
Qed.

(** The entities gathered over a frame, before duplicates are dropped. *)
Lemma resolve_rows_entities_elem df st x :
  cache_ok uuid5 st ->
  x ∈ (resolve_rows uuid5 llm df st).1.1 ->
  exists row n, row ∈ df /\ x ∈ entity_records uuid5 llm row (entities row) n.
Proof.
  revert st. induction df as [|row df IH]; intros st Hok; cbn [resolve_rows].
  - by intros ?%elem_of_nil.
  - destruct (clean_extraction_row_closed uuid5 llm row st Hok) as [E Hok1].
    destruct (clean_extraction_row uuid5 llm row st) as [[ents rels] st1].
    cbn in E, Hok1. injection E as -> ->.
    specialize (IH st1 Hok1).
    destruct (resolve_rows uuid5 llm df st1) as [[all_e all_r] st2]. cbn in *.
    intros [Hx|Hx]%elem_of_app.
    + exists row, (llm_calls st). split; [by left | done].
    + destruct (IH Hx) as (row' & n & Hrow & Hin). exists row', n.
      split; [by right | done].
Qed.

Lemma run_resolution_nodes_elem df st x :
  cache_ok uuid5 st ->
  x ∈ (run_resolution uuid5 llm df st).1.1 ->
  exists row e, row ∈ df /\ e ∈ entities row
    /\ e_name x = PyStr.strip e
    /\ PyStr.truthy (PyStr.strip e) = true
    /\ e_id x = Some (uuid5 NAMESPACE_DNS (PyStr.lower (PyStr.strip e)))
    /\ e_source x = row_source row
    /\ e_article_id x = row_article_id row
    /\ e_published_at x = row_published_at row.
Proof.
  intros Hok. rewrite run_resolution_nodes.
  intros [Hx _]%drop_duplicates_from_elem.
  destruct (resolve_rows_entities_elem df st x Hok Hx) as (row & n & Hrow & Hin).
  destruct (entity_records_elem row _ n x Hin) as (e & He & H).
  exists row, e. done.
Qed.

(** The classifier is not asked anything while a triple is cleaned. *)
Lemma clean_relations_calls row rs st :
  llm_calls (clean_relations uuid5 row rs st).2 = llm_calls st.
Proof.
  revert st. induction rs as [|r rs IH]; intros st; [done |].
  cbn [clean_relations].
  assert (C : llm_calls (clean_relation uuid5 row r st).2 = llm_calls st).
  { unfold clean_relation.
    destruct (subject r) as [subj|], (relation r) as [rel|], (object_ r) as [obj|];
      try done.
    destruct (_ && _ && _); [| done].
    pose proof (get_or_create_entity_id_calls uuid5 subj st) as C1.
    destruct (get_or_create_entity_id uuid5 subj st) as [sid st1].
    pose proof (get_or_create_entity_id_calls uuid5 obj st1) as C2.
    destruct (get_or_create_entity_id uuid5 obj st1) as [oid st2].
    cbn in *. congruence. }
  destruct (clean_relation uuid5 row r st) as [o st1].
  specialize (IH st1).
  destruct (clean_relations uuid5 row rs st1) as [rest st2]. cbn in *. congruence.
Qed.

(** It is asked once for every mention that is not blank. *)
Lemma clean_entities_calls row es st :
  llm_calls (clean_entities uuid5 llm row es st).2
  = llm_calls st + length (List.filter PyStr.truthy (map PyStr.strip es))
  /\ length (clean_entities uuid5 llm row es st).1
     = length (List.filter PyStr.truthy (map PyStr.strip es)).
Proof.
  revert st. induction es as [|e es IH]; intros st; cbn [clean_entities map List.filter].
  - cbn. lia.
  - destruct (PyStr.truthy (PyStr.strip e)); cbn [negb]; [| apply IH].
    pose proof (get_or_create_entity_id_calls uuid5 (PyStr.strip e) st) as C1.
    destruct (get_or_create_entity_id uuid5 (PyStr.strip e) st) as [eid st1].
    rewrite infer_type_llm_classify.
    set (st2 := {| entity_cache := entity_cache st1; llm_calls := S (llm_calls st1) |}).
    destruct (IH st2) as [C3 L3].
    destruct (clean_entities uuid5 llm row es st2) as [rest st3].
    cbn in *. lia.
Qed.

Lemma resolve_rows_calls df st :
  llm_calls (resolve_rows uuid5 llm df st).2
  = llm_calls st + length (nonblank_mentions df)
  /\ length (resolve_rows uuid5 llm df st).1.1 = length (nonblank_mentions df)
  /\ length (resolve_rows uuid5 llm df st).1.2 <= length (flat_map relations df).
Proof.
  revert st. induction df as [|row df IH]; intros st.
  - cbn. lia.
  - cbn [resolve_rows]. unfold nonblank_mentions. cbn [flat_map].
    fold (nonblank_mentions df). rewrite !length_app.
    unfold clean_extraction_row.
    destruct (clean_entities_calls row (entities row) st) as [C1 L1].
    destruct (clean_entities uuid5 llm row (entities row) st) as [ents st1].
    pose proof (clean_relations_calls row (relations row) st1) as C2.
    assert (L2 : length (clean_relations uuid5 row (relations row) st1).1
                 <= length (relations row)).
    { clear. revert st1. induction (relations row) as [|r rs IHr]; intros st1; [done |].
      cbn [clean_relations].
      destruct (clean_relation uuid5 row r st1) as [o st2].
      specialize (IHr st2).
      destruct (clean_relations uuid5 row rs st2) as [rest st3].
      destruct o; cbn in *; lia. }
    destruct (clean_relations uuid5 row (relations row) st1) as [rels st2].
    destruct (IH st2) as (C3 & L3 & L4).
    destruct (resolve_rows uuid5 llm df st2) as [[all_e all_r] st3].
    cbn in *. rewrite !length_app. lia.
Qed.

End FrameFacts.

Lemma drop_duplicates_from_shorter {A K : Type} `{EqDecision K}
    (key : A -> K) (seen : list K) (l : list A) :
  length (drop_duplicates_from key seen l) <= length l.
Proof.
  revert seen. induction l as [|x l IH]; intros seen; [done |].
  cbn [drop_duplicates_from]. case_decide; cbn.
  - specialize (IH seen). lia.
  - specialize (IH (key x :: seen)). lia.
Qed.

(** X5: every node of the frame [run_resolution] returns carries an
    identifier, the hash of its own lower-cased name; the name is a mention
    of some row, trimmed and not blank, and the node carries the source,
    article and date of that row. *)
Theorem run_resolution_nodes_identified
    (uuid5 : string -> string -> string) (llm : nat -> string -> llm_reply)
    (df : list extraction_row) (x : entity_obj) :
  x ∈ (run_resolution uuid5 llm df new_service).1.1 ->
  e_id x = Some (uuid5 NAMESPACE_DNS (PyStr.lower (e_name x)))
  /\ PyStr.truthy (e_name x) = true
  /\ PyStr.strip (e_name x) = e_name x
  /\ exists row e, row ∈ df /\ e ∈ entities row /\ e_name x = PyStr.strip e
       /\ e_source x = row_source row
       /\ e_article_id x = row_article_id row
       /\ e_published_at x = row_published_at row.
Proof.
  intros Hx.
  destruct (run_resolution_nodes_elem uuid5 llm df new_service x
              (new_service_cache_ok uuid5) Hx)
    as (row & e & Hrow & He & Hn & Ht & Hi & Hs & Ha & Hp).
  rewrite Hn. split; [done |]. split; [done |]. split; [apply strip_idemp |].
  exists row, e. by rewrite <- Hn.
Qed.

Lemma run_resolution_nodes_identified_witness :
  e_id {| e_id := Some (sample_uuid5 NAMESPACE_DNS "apple"); e_name := "Apple";
          e_label := Entity; e_source := None; e_article_id := None;
          e_published_at := None |}
  = Some (sample_uuid5 NAMESPACE_DNS (PyStr.lower "Apple")).
Proof.
  apply (run_resolution_nodes_identified sample_uuid5 llm_unavailable
           [apple_row None None None]).
  vm_compute. apply list_elem_of_here.
Defined.

(** X6: the classifier is called once for every mention that is not blank,
    repeated mentions included, and never for a triple; so the calls made
    over a frame number its non-blank mentions, which is also the number of
    entity records gathered, and bounds the number of nodes returned. *)
Theorem run_resolution_llm_calls
    (uuid5 : string -> string -> string) (llm : nat -> string -> llm_reply)
    (df : list extraction_row) (st : service) :
  llm_calls (run_resolution uuid5 llm df st).2
  = llm_calls st + length (nonblank_mentions df)
  /\ length (resolve_rows uuid5 llm df st).1.1 = length (nonblank_mentions df)
  /\ length (run_resolution uuid5 llm df st).1.1 <= length (nonblank_mentions df)
  /\ length (run_resolution uuid5 llm df st).1.2 <= length (flat_map relations df).
Proof.
  destruct (resolve_rows_calls uuid5 llm df st) as (C & L & L').
  rewrite run_resolution_nodes, run_resolution_relations.
  pose proof (drop_duplicates_from_shorter e_id [] (resolve_rows uuid5 llm df st).1.1).
  pose proof (drop_duplicates_from_shorter rel_key [] (resolve_rows uuid5 llm df st).1.2).
  unfold drop_duplicates.
  split; [| split; [done | split; lia]].
  unfold run_resolution.
  by destruct (resolve_rows uuid5 llm df st) as [[all_e all_r] st'].
Qed.

(** ** The type of a relation *)







(** ** From the resolver to the node statement *)

Lemma load_nodes_query_total rows ns :
  Forall (fun r => nr_id r <> None) rows ->
  exists ns', load_nodes_query rows ns = Some ns'.
Proof.
  revert ns. induction rows as [|r rows IH]; intros ns Hr; cbn [load_nodes_query].
  - by eexists.
  - apply Forall_cons in Hr as [Hi Hr].
    unfold merge_node. destruct (nr_id r) as [i|]; [| done].
    destruct (existsb (merge_matches i) ns); by apply IH.
Qed.

(** X8: the node statement cannot fail on the nodes the resolver returns:
    each of them has an identifier to merge on (as long as the hash of a key
    is never the empty string, which holds of a UUID). *)
Theorem resolved_nodes_load
    (uuid5 : string -> string -> string) (llm : nat -> string -> llm_reply)
    (df : list extraction_row) (st : service) (ns : list node) :
  reachable uuid5 st ->
  (forall k, uuid5 NAMESPACE_DNS k <> "") ->
  exists ns',
    load_nodes_query (map node_to_csv (run_resolution uuid5 llm df st).1.1) ns
    = Some ns'.
Proof.
  intros Hst Hne. apply load_nodes_query_total.
  apply List.Forall_forall. intros r (x & <- & Hx%list_elem_of_In)%in_map_iff.
  destruct (run_resolution_nodes_elem uuid5 llm df st x
              (reachable_cache_ok uuid5 st Hst) Hx)
    as (row & e & _ & _ & _ & _ & Hi & _).
  cbn. rewrite Hi. cbn.
  specialize (Hne (PyStr.lower (PyStr.strip e))).
  by destruct (uuid5 NAMESPACE_DNS (PyStr.lower (PyStr.strip e))).
Qed.

Lemma resolved_nodes_load_witness :
  exists ns',
    load_nodes_query
      (map node_to_csv
         (run_resolution sample_uuid5 llm_unavailable duplicate_frame new_service).1.1)
      [] = Some ns'.
Proof.
  apply (resolved_nodes_load sample_uuid5 llm_unavailable duplicate_frame
           new_service []).
  - constructor.
  - intros k. vm_compute. discriminate.
Defined.

(** ** What a load can do to the graph *)

(** The graph after [run_loading], whatever the surroundings do: untouched,
    or with the nodes loaded, or with nodes and relationships loaded. *)
Lemma run_loading_db w b s :
  db (run_loading w b s).2 = db s
  \/ exists ns',
       load_nodes_query (map node_to_csv (batch_nodes b)) (nodes (db s)) = Some ns'
       /\ (db (run_loading w b s).2 = {| nodes := ns'; edges := edges (db s) |}
           \/ exists es',
                load_relationships_query (map rel_to_csv (batch_relations b))
                  ns' (edges (db s)) = Some es'
                /\ db (run_loading w b s).2 = {| nodes := ns'; edges := es' |}).
Proof.
  pose proof (nodes_path_ne w) as Hne.
  unfold run_loading, bind, to_csv, copy_to_docker, load_nodes_csv,
    load_relationships_csv, ret.
  destruct (save_nodes_ok w); cbn; [| by left].
  destruct (save_relations_ok w); cbn; [| by left].
  rewrite lookup_insert_ne by done. rewrite lookup_insert_eq.
  destruct (copy_nodes w); cbn; rewrite ?lookup_insert_eq;
    destruct (copy_relations w); cbn; try by left.
  rewrite lookup_insert_ne by done. rewrite lookup_insert_eq.
  destruct (session_nodes_ok w); cbn; [| by left].
  destruct (load_nodes_query _ (nodes (db s))) as [ns'|]; cbn; [| by left].
  right. exists ns'. split; [done |].
  rewrite lookup_insert_eq.
  destruct (session_relations_ok w); cbn; [| by left].
  destruct (load_relationships_query _ ns' (edges (db s))) as [es'|]; cbn;
    [| by left].
  right. by exists es'.
Qed.

Lemma merge_node_length r ns ns' :
  merge_node r ns = Some ns' -> length ns <= length ns' <= S (length ns).
Proof.
  intros (i & _ & ->)%merge_node_Some.
  destruct (existsb (merge_matches i) ns).
  - rewrite length_map. lia.
  - rewrite length_app. cbn. lia.
Qed.

Lemma load_nodes_query_length rows ns ns' :
  load_nodes_query rows ns = Some ns' ->
  length ns <= length ns' <= length ns + length rows.
Proof.
  revert ns. induction rows as [|r rows IH]; intros ns; cbn [load_nodes_query].
  - intros [= <-]. cbn. lia.
  - destruct (merge_node r ns) as [ns1|] eqn:E; [| done].
    intros Hl. apply merge_node_length in E. apply IH in Hl. cbn. lia.
Qed.

(** ** How a load ends *)

(** X9: [run_loading] raises exactly when a frame cannot be written or a
    copy ends in an exception other than [CalledProcessError]; it returns
    [True] exactly when the surroundings work and both statements succeed;
    and the graph is untouched unless both files were written and copied. *)
Theorem run_loading_outcome (w : infra) (b : graph_batch) (s : lstate) :
  ((run_loading w b s).1 = Raise
   <-> save_nodes_ok w = false \/ save_relations_ok w = false
       \/ copy_nodes w = CopyCrashed \/ copy_relations w = CopyCrashed)
  /\ ((run_loading w b s).1 = Ret true
      <-> infra_ok w /\ (load_batch b (db s)).1 = true)
  /\ (~ (save_nodes_ok w = true /\ save_relations_ok w = true
         /\ copy_nodes w = Copied /\ copy_relations w = Copied) ->
      db (run_loading w b s).2 = db s).
Proof.
  pose proof (nodes_path_ne w) as Hne.
  unfold infra_ok, load_batch, run_loading, bind, to_csv, copy_to_docker,
    load_nodes_csv, load_relationships_csv, ret.
  destruct (save_nodes_ok w); cbn; [| by intuition].
  destruct (save_relations_ok w); cbn; [| by intuition].
  rewrite lookup_insert_ne by done. rewrite lookup_insert_eq.
  destruct (copy_nodes w); cbn; rewrite ?lookup_insert_eq;
    destruct (copy_relations w); cbn; try by intuition.
  rewrite lookup_insert_ne by done. rewrite lookup_insert_eq.
  destruct (session_nodes_ok w); cbn; [| by intuition].
  destruct (load_nodes_query _ (nodes (db s))) as [ns'|]; cbn; [| by intuition].
  rewrite lookup_insert_eq.
  destruct (session_relations_ok w); cbn; [| by intuition].
  destruct (load_relationships_query _ ns' (edges (db s))) as [es'|]; cbn;
    by intuition.
Qed.

(** X10: the two statements of a load are not undone together.  When the
    node statement succeeds and the relationship statement fails (its
    session cannot be opened, or the statement errors), [run_loading]
    returns [False] and the nodes of the batch stay in the store. *)
Theorem run_loading_keeps_nodes_on_failure
    (w : infra) (b : graph_batch) (s : lstate) (ns' : list node) :
  save_nodes_ok w = true -> save_relations_ok w = true ->
  copy_nodes w = Copied -> copy_relations w = Copied ->
  session_nodes_ok w = true ->
  load_nodes_query (map node_to_csv (batch_nodes b)) (nodes (db s)) = Some ns' ->
  session_relations_ok w = false
  \/ load_relationships_query (map rel_to_csv (batch_relations b))
       ns' (edges (db s)) = None ->
  (run_loading w b s).1 = Ret false
  /\ db (run_loading w b s).2 = {| nodes := ns'; edges := edges (db s) |}.
Proof.
  intros H1 H2 H3 H4 H5 Hn Hr.
  pose proof (nodes_path_ne w) as Hne.
  unfold run_loading, bind, to_csv, copy_to_docker, load_nodes_csv,
    load_relationships_csv, ret.
  rewrite H1, H2, H3, H4, H5. cbn.
  rewrite lookup_insert_ne by done. rewrite lookup_insert_eq. cbn.
  rewrite lookup_insert_eq. cbn.
  rewrite lookup_insert_ne by done. rewrite lookup_insert_eq.
  rewrite Hn. cbn. rewrite lookup_insert_eq.
  destruct Hr as [->| Hr]; cbn; [done |].
  destruct (session_relations_ok w); cbn; [| done].
  by rewrite Hr.
Qed.

Lemma run_loading_keeps_nodes_on_failure_witness :
  (run_loading relationship_session_down apple_batch empty_state).1 = Ret false
  /\ length (nodes (db (run_loading relationship_session_down apple_batch
                          empty_state).2)) = 2.
Proof.
  destruct (run_loading_keeps_nodes_on_failure relationship_session_down
              apple_batch empty_state
              (default [] (load_nodes_query
                             (map node_to_csv (batch_nodes apple_batch)) [])))
    as [Hret Hdb]; try reflexivity.
  - by left.
  - split; [exact Hret |]. rewrite Hdb. reflexivity.
Defined.

(** ** What the node statement keeps and what it rewrites *)

Lemma n_labels_apply_rows rows n l :
  l ∈ n_labels n -> l ∈ n_labels (apply_rows rows n).
Proof.
  intros Hl. rewrite apply_rows_settle, n_labels_settle. by apply add_labels_mono.
Qed.

Lemma apply_rows_untouched rows n :
  Forall (fun r => touches n r = false) rows -> apply_rows rows n = n.
Proof.
  intros H. rewrite apply_rows_settle.
  replace (List.filter (touches n) rows) with (@nil node_row); [done |].
  induction H as [|r rows Hr _ IH]; [done |]. cbn. by rewrite Hr.
Qed.

(** X11: the node statement never removes a node, never moves one, never
    changes an [id] and never takes a label away; it adds at most one node
    per row; and a node without the label [Entity], or whose [id] no row
    names, is left exactly as it was. *)
Theorem load_nodes_query_keeps_nodes
    (rows : list node_row) (ns ns' : list node) :
  load_nodes_query rows ns = Some ns' ->
  length ns <= length ns' <= length ns + length rows
  /\ forall k n, ns !! k = Some n ->
       exists n', ns' !! k = Some n'
         /\ n_id n' = n_id n
         /\ n_labels n ⊆ n_labels n'
         /\ ("Entity" ∉ n_labels n \/ Forall (fun r => nr_id r <> n_id n) rows ->
             n' = n).
Proof.
  intros Hl. split; [by apply load_nodes_query_length |].
  intros k n Hk.
  apply load_nodes_query_apply_rows in Hl as (created & -> & _).
  exists (apply_rows rows n). split.
  - rewrite list_lookup_fmap, lookup_app_l by by eapply lookup_lt_Some.
    by rewrite Hk.
  - split; [apply n_id_apply_rows |].
    split; [intros l; apply n_labels_apply_rows |].
    intros Hun. apply apply_rows_untouched.
    apply Forall_forall. intros r Hr. unfold touches.
    destruct (nr_id r) as [i|] eqn:Hi; [| done].
    unfold merge_matches. destruct Hun as [He|Hids].
    + by rewrite bool_decide_false.
    + rewrite Forall_forall in Hids. specialize (Hids r Hr).
      rewrite (bool_decide_false (n_id n = Some i)) by congruence.
      apply andb_false_r.
Qed.

Lemma load_nodes_query_keeps_nodes_witness :
  length (default [] (load_nodes_query [apple_as_company; apple_as_product]
                        [bare_entity "id-tim-cook"])) <= 1 + 2.
Proof.
  apply (load_nodes_query_keeps_nodes [apple_as_company; apple_as_product]
           [bare_entity "id-tim-cook"]).
  reflexivity.
Defined.

Lemma filter_touches_rows_of i n rows :
  merge_matches i n = true -> List.filter (touches n) rows = rows_of i rows.
Proof.
  intros [He Hi%bool_decide_eq_true]%andb_true_iff.
  unfold rows_of. apply List.filter_ext. intros r. unfold touches.
  destruct (nr_id r) as [j|]; [| by rewrite bool_decide_false].
  unfold merge_matches. rewrite He. cbn. apply bool_decide_ext.
  rewrite Hi. split; [by intros [= ->] | by intros [= ->]].
Qed.

(** X12: in the store the last row wins.  After the node statement, every
    row's [id] has an [Entity] node; that node carries the name, label
    property, source, article and date of the last row of the file naming
    its [id], and the labels of all the rows naming it (on top of those it
    had): properties are overwritten, labels pile up. *)
Theorem load_nodes_query_last_row_wins
    (rows : list node_row) (ns ns' : list node) (i : string) (r : node_row) :
  load_nodes_query rows ns = Some ns' ->
  last (rows_of i rows) = Some r ->
  (exists n', n' ∈ ns' /\ "Entity" ∈ n_labels n' /\ n_id n' = Some i)
  /\ forall n', n' ∈ ns' -> "Entity" ∈ n_labels n' -> n_id n' = Some i ->
       n_name n' = nr_name r
       /\ n_label n' = Some (label_name (nr_label r))
       /\ n_source n' = nr_source r
       /\ n_article_id n' = nr_article_id r
       /\ n_published_at n' = nr_published_at r
       /\ forall r', r' ∈ rows -> nr_id r' = Some i ->
            label_name (nr_label r') ∈ n_labels n'.
Proof.
  intros Hl Hlast. split.
  - assert (Hr : r ∈ rows_of i rows).
    { apply last_Some in Hlast as [l' ->]. apply elem_of_app. right. by left. }
    apply list_elem_of_In, filter_In in Hr as [Hr Hi%bool_decide_eq_true].
    pose proof (load_nodes_query_covered _ _ _ Hl) as Hc.
    rewrite List.Forall_forall in Hc. destruct (Hc r Hr) as (j & Hj & Hex).
    assert (j = i) as -> by congruence.
    apply existsb_exists in Hex as (n' & Hn' & [He Hid]%andb_true_iff).
    exists n'. split; [by apply list_elem_of_In |].
    split; [by apply bool_decide_eq_true in He | by apply bool_decide_eq_true in Hid].
  - intros n' Hn' He Hid.
    apply load_nodes_query_apply_rows in Hl as (created & -> & _).
    apply list_elem_of_fmap in Hn' as (n & -> & Hn).
    assert (Hm : merge_matches i n = true).
    { rewrite <- (merge_matches_apply_rows rows). unfold merge_matches.
      by rewrite !bool_decide_true. }
    rewrite apply_rows_settle, (filter_touches_rows_of i n rows Hm).
    unfold settle. rewrite Hlast. cbn.
    repeat (split; [done |]).
    intros r' Hr' Hi'. apply add_labels_contains.
    apply list_elem_of_In, filter_In. split; [by apply list_elem_of_In |].
    by apply bool_decide_eq_true.
Qed.

Lemma load_nodes_query_last_row_wins_witness :
  exists n',
    load_nodes_query [apple_as_company; apple_as_product] [] = Some [n']
    /\ n_name n' = Some "apple"
    /\ n_label n' = Some "Product"
    /\ n_labels n' = ["Entity"; "Company"; "Product"].
Proof.
  destruct (load_nodes_query_last_row_wins [apple_as_company; apple_as_product] []
              (default [] (load_nodes_query [apple_as_company; apple_as_product] []))
              "id-apple" apple_as_product eq_refl eq_refl)
    as [_ H].
  eexists. split; [reflexivity |].
  split; [| split; [| reflexivity]].
  - apply H; [apply list_elem_of_here | vm_compute; apply list_elem_of_here | reflexivity].
  - apply H; [apply list_elem_of_here | vm_compute; apply list_elem_of_here | reflexivity].
Defined.

(** ** One relationship per relation *)

Lemma match_id_count o ns :
  length (match_id o ns) = length (List.filter (id_matches o) ns).
Proof.
  unfold match_id. induction ns as [|n ns IH] using rev_ind; [done |].
  rewrite length_app, Nat.add_comm. cbn [length Nat.add].
  rewrite seq_S, !List.filter_app, !length_app. cbn [List.filter Nat.add].
  rewrite list_lookup_middle by done.
  rewrite <- IH. f_equal; [| by destruct (id_matches o n)].
  f_equal. apply List.filter_ext_in. intros k Hk%in_seq.
  rewrite lookup_app_l by lia. done.
Qed.

Lemma filter_none {A} (f : A -> bool) (l : list A) :
  (forall x, In x l -> f x = false) -> List.filter f l = [].
Proof.
  induction l as [|x l IH]; [done |]. intros H. cbn.
  rewrite (H x) by by left. apply IH. intros y Hy. apply H. by right.
Qed.

Lemma filter_id_matches_unique o ns :
  NoDup (omap n_id ns) -> length (List.filter (id_matches o) ns) <= 1.
Proof.
  destruct o as [i|]; [| intros _; induction ns; cbn in *; lia].
  induction ns as [|n ns IH]; [cbn; lia |].
  cbn [omap list_omap List.filter id_matches].
  destruct (n_id n) as [j|] eqn:Hj; [| by rewrite bool_decide_false].
  intros [Hnotin Hnd]%NoDup_cons. specialize (IH Hnd).
  case_bool_decide as Hji; [| done].
  injection Hji as ->. cbn [length].
  replace (List.filter (id_matches (Some i)) ns) with (@nil node); [done |].
  symmetry. apply filter_none. intros x Hx. cbn.
  apply bool_decide_eq_false. intros Hxi. apply Hnotin.
  apply list_elem_of_omap. exists x. split; [by apply list_elem_of_In | done].
Qed.

Lemma entity_ids_all_entities ns : all_entities ns -> entity_ids ns = omap n_id ns.
Proof.
  unfold entity_ids. induction 1 as [|n ns Hn _ IH]; [done |].
  cbn. by rewrite IH, bool_decide_true.
Qed.

Lemma load_nodes_query_all_entities rows ns ns' :
  load_nodes_query rows ns = Some ns' -> all_entities ns -> all_entities ns'.
Proof.
  intros (created & -> & Hc)%load_nodes_query_apply_rows Hall.
  unfold all_entities. rewrite Forall_fmap. apply Forall_app. split.
  - eapply Forall_impl; [exact Hall |]. intros n Hn. cbn.
    by apply n_labels_apply_rows.
  - eapply Forall_impl; [exact Hc |]. intros n (j & -> & _). cbn.
    apply n_labels_apply_rows. by left.
Qed.

Lemma endpoints_unique r ns :
  NoDup (omap n_id ns) -> length (endpoints r ns) <= 1.
Proof.
  intros Hnd. unfold endpoints. rewrite length_prod, !match_id_count.
  pose proof (filter_id_matches_unique (rr_start_id r) ns Hnd).
  pose proof (filter_id_matches_unique (rr_end_id r) ns Hnd). nia.
Qed.

Lemma merge_pairs_length r ps es es' :
  merge_pairs r ps es = Some es' -> length es' <= length es + length ps.
Proof.
  revert es. induction ps as [|p ps IH]; intros es; cbn [merge_pairs].
  - intros [= <-]. cbn. lia.
  - destruct (merge_relationship r es p) as [es1|] eqn:E; [| done].
    intros Hm. apply IH in Hm.
    assert (length es1 <= S (length es)); [| cbn; lia].
    unfold merge_relationship in E.
    destruct (rr_type r), (rr_source r), (rr_article_id r), (rr_published_at r);
      try done.
    case_decide; injection E as <-; [lia |]. rewrite length_app. cbn. lia.
Qed.

Lemma load_relationships_query_length rows ns es es' :
  NoDup (omap n_id ns) ->
  load_relationships_query rows ns es = Some es' ->
  length es' <= length es + length rows.
Proof.
  intros Hnd. revert es.
  induction rows as [|r rows IH]; intros es; cbn [load_relationships_query].
  - intros [= <-]. cbn. lia.
  - destruct (merge_pairs r (endpoints r ns) es) as [es1|] eqn:E; [| done].
    intros Hl. apply IH in Hl. apply merge_pairs_length in E.
    pose proof (endpoints_unique r ns Hnd). cbn. lia.
Qed.

(** X13: on a store in which every node is labelled [Entity] and no two
    nodes share an [id] (what the loader itself builds from an empty store),
    a load keeps both facts and creates at most one relationship for each
    relation of the batch. *)
Theorem load_batch_one_relationship_each (b : graph_batch) (g : store) :
  all_entities (nodes g) -> NoDup (omap n_id (nodes g)) ->
  all_entities (nodes (load_batch b g).2)
  /\ NoDup (omap n_id (nodes (load_batch b g).2))
  /\ length (edges (load_batch b g).2)
     <= length (edges g) + length (batch_relations b).
Proof.
  intros Hall Hnd. unfold load_batch.
  destruct (load_nodes_query _ (nodes g)) as [ns'|] eqn:En; cbn [snd].
  - assert (Hall' : all_entities ns') by by eapply load_nodes_query_all_entities.
    assert (Hnd' : NoDup (omap n_id ns')).
    { rewrite <- entity_ids_all_entities by done.
      eapply load_nodes_query_entity_ids; [done |].
      by rewrite entity_ids_all_entities. }
    destruct (load_relationships_query _ ns' (edges g)) as [es'|] eqn:Er;
      cbn [snd nodes edges]; (split; [done |]); (split; [done |]); [| lia].
    apply load_relationships_query_length in Er; [| done].
    by rewrite length_map in Er.
  - split; [done |]. split; [done | lia].
Qed.

Lemma load_batch_one_relationship_each_witness :
  length (edges (load_batch apple_batch (load_batch apple_batch
                                           {| nodes := []; edges := [] |}).2).2)
  <= 1 + 1.
Proof.
  apply (load_batch_one_relationship_each apple_batch
           (load_batch apple_batch {| nodes := []; edges := [] |}).2).
  - vm_compute. repeat constructor.
  - vm_compute. apply NoDup_cons. split; [| apply NoDup_singleton].
    intros [=]%list_elem_of_singleton.
Defined.

(** ** Where a relationship comes from *)

Lemma merge_relationship_edge_of r es es' p e :
  merge_relationship r es p = Some es' -> e ∈ es' ->
  e ∈ es \/ edge_of r p = Some e.
Proof.
  unfold merge_relationship, edge_of.
  destruct (rr_type r) as [ty|], (rr_source r) as [so|],
    (rr_article_id r) as [ai|], (rr_published_at r) as [pa|]; try done.
  case_decide as Hin; intros [= <-]; [by left |].
  intros [He|He%list_elem_of_singleton]%elem_of_app; [by left | subst; by right].
Qed.

Lemma merge_pairs_edge_of r ps es es' e :
  merge_pairs r ps es = Some es' -> e ∈ es' ->
  e ∈ es \/ exists p, p ∈ ps /\ edge_of r p = Some e.
Proof.
  revert es. induction ps as [|p ps IH]; intros es; cbn [merge_pairs].
  - intros [= <-]. by left.
  - destruct (merge_relationship r es p) as [es1|] eqn:E; [| done].
    intros Hm He. destruct (IH _ Hm He) as [H1|(q & Hq & Hb)].
    + destruct (merge_relationship_edge_of _ _ _ _ _ E H1) as [?|?]; [by left |].
      right. exists p. split; [by left | done].
    + right. exists q. split; [by right | done].
Qed.

Lemma load_relationships_query_edge_of rows ns es es' e :
  load_relationships_query rows ns es = Some es' -> e ∈ es' ->
  e ∈ es \/ exists r p, r ∈ rows /\ p ∈ endpoints r ns /\ edge_of r p = Some e.
Proof.
  revert es. induction rows as [|r rows IH]; intros es; cbn [load_relationships_query].
  - intros [= <-]. by left.
  - destruct (merge_pairs r (endpoints r ns) es) as [es1|] eqn:E; [| done].
    intros Hl He. destruct (IH _ Hl He) as [H1|(r' & p & Hr' & Hp & Hb)].
    + destruct (merge_pairs_edge_of _ _ _ _ _ E H1) as [?|(p & Hp & Hb)]; [by left |].
      right. exists r, p. split; [by left | done].
    + right. exists r', p. split; [by right | done].
Qed.

Lemma match_id_lookup o ns k :
  k ∈ match_id o ns -> exists n, ns !! k = Some n /\ n_id n = o /\ o <> None.
Proof.
  unfold match_id. intros [_ Hk]%list_elem_of_In%filter_In.
  destruct (ns !! k) as [n|]; [| done]. exists n. split; [done |].
  destruct o as [i|]; [| done]. cbn in Hk.
  by apply bool_decide_eq_true in Hk.
Qed.

Lemma csv_cell_Some o s : csv_cell o = Some s -> o = Some s.
Proof.
  destruct o as [t|]; [| done]. cbn. by destruct (PyStr.truthy t); intros [= ->].
Qed.

(** X14: every relationship a load adds to the store comes from a relation of
    the batch: it starts at a node whose [id] is the relation's [start_id]
    and ends at a node whose [id] is its [end_id] (neither is missing), and
    it carries the relation's type, confidence, source, article and date.
    This holds whatever the surroundings do. *)
Theorem run_loading_relationships_sound
    (w : infra) (b : graph_batch) (s : lstate) (e : edge) :
  e ∈ edges (db (run_loading w b s).2) ->
  e ∉ edges (db s) ->
  exists r n1 n2,
    r ∈ batch_relations b
    /\ nodes (db (run_loading w b s).2) !! ed_start e = Some n1
    /\ nodes (db (run_loading w b s).2) !! ed_end e = Some n2
    /\ n_id n1 = start_id r /\ n_id n1 <> None
    /\ n_id n2 = end_id r /\ n_id n2 <> None
    /\ ed_type e = rel_type r
    /\ ed_confidence e = Some (Qred (confidence r))
    /\ ed_source e = rel_source r
    /\ ed_article_id e = rel_article_id r
    /\ ed_published_at e = rel_published_at r.
Proof.
  intros He Hnew.
  destruct (run_loading_db w b s) as [E|(ns' & Hn & [E|(es' & Hl & E)])];
    rewrite E in *; cbn [nodes edges] in *; try done.
  destruct (load_relationships_query_edge_of _ _ _ _ _ Hl He)
    as [?|(rr & [k1 k2] & Hrr & Hp & Hb)]; [done |].
  apply list_elem_of_fmap in Hrr as (r & -> & Hr).
  unfold endpoints in Hp.
  apply list_elem_of_In, in_prod_iff in Hp as [H1%list_elem_of_In H2%list_elem_of_In].
  apply match_id_lookup in H1 as (n1 & Hk1 & Hi1 & Hs1).
  apply match_id_lookup in H2 as (n2 & Hk2 & Hi2 & Hs2).
  cbn [rel_to_csv rr_start_id rr_end_id] in Hi1, Hi2, Hs1, Hs2.
  unfold edge_of in Hb.
  cbn [rel_to_csv rr_type rr_source rr_article_id rr_published_at] in Hb.
  destruct (csv_cell (Some (rel_type r))) as [ty|] eqn:Ety; [| done].
  destruct (csv_cell (rel_source r)) as [so|] eqn:Eso; [| done].
  destruct (csv_cell (rel_article_id r)) as [ai|] eqn:Eai; [| done].
  destruct (csv_cell (rel_published_at r)) as [pa|] eqn:Epa; [| done].
  injection Hb as <-.
  apply csv_cell_Some in Ety, Eso, Eai, Epa. injection Ety as Ety.
  destruct (csv_cell (start_id r)) as [i1|] eqn:E1; [| done].
  destruct (csv_cell (end_id r)) as [i2|] eqn:E2; [| done].
  apply csv_cell_Some in E1, E2.
  exists r, n1, n2. cbn. rewrite Hi1, Hi2, E1, E2, Eso, Eai, Epa, Ety. done.
Qed.

Lemma run_loading_relationships_sound_witness :
  exists e r,
    edges (db (run_loading working_infra apple_batch empty_state).2) = [e]
    /\ r ∈ batch_relations apple_batch
    /\ ed_type e = rel_type r.
Proof.
  destruct (run_loading_relationships_sound working_infra apple_batch empty_state
              {| ed_start := 0; ed_end := 1; ed_type := "HAS_CEO";
                 ed_confidence := Some (9 # 10)%Q;
                 ed_source := Some "newsapi"; ed_article_id := Some "a1";
                 ed_published_at := Some "2024-01-01" |})
    as (r & n1 & n2 & Hr & _ & _ & _ & _ & _ & _ & Hty & _).
  - vm_compute. apply list_elem_of_here.
  - intros H. vm_compute in H. by apply elem_of_nil in H.
  - eexists _, r. split; [reflexivity |]. split; [exact Hr | exact Hty].
Defined.

(** ** The worker *)

Section WorkerFacts.

Import App Worker.

(** *** One step of the worker *)

Lemma wbind_put {B} (f : pipeline_status -> pipeline_status) (k : unit -> W B)
    (s : machine) :
  wbind (put f) k s
  = k tt {| board := f (board s); shown := (shown s ++ [f (board s)])%list;
            graph := graph s; query_service := query_service s |}.
Proof. reflexivity. Qed.

Lemma wbind_await {A B} (o : outcome A) (k : A -> W B) (s : machine) :
  wbind (await o) k s
  = match o with Done a => k a s | Failed text => (Failed text, s) end.
Proof. by destruct o. Qed.

Lemma wbind_load {B} (e : surroundings) (neo4j_data : graph_batch)
    (k : bool -> W B) (s : machine) :
  wbind (load e neo4j_data) k s
  = match run_loading (loader_infra e) neo4j_data (graph s) with
    | (Ret ok, g) =>
        k ok {| board := board s; shown := shown s; graph := g;
                query_service := query_service s |}
    | (Raise, g) =>
        (Failed (loader_crash e),
         {| board := board s; shown := shown s; graph := g;
            query_service := query_service s |})
    end.
Proof.
  unfold wbind, load. by destruct (run_loading _ _ _) as [[ok|] g].
Qed.

Lemma wbind_init_query_service {B} (e : surroundings) (k : bool -> W B)
    (s : machine) :
  wbind (init_query_service e) k s
  = if query_service_up e
    then k true {| board := board s; shown := shown s; graph := graph s;
                   query_service := true |}
    else k false s.
Proof. unfold wbind, init_query_service. by destruct (query_service_up e). Qed.

(** The worker is run step by step, up to the next stage whose outcome is
    not known; the pair it returns is named first, so that it is computed
    once. *)
Ltac worker_steps :=
  cbn [board shown graph query_service negb];
  repeat (first [ rewrite wbind_put | rewrite wbind_await | rewrite wbind_load
                | rewrite wbind_init_query_service ];
          cbn [board shown graph query_service negb]).

Ltac run_worker :=
  match goal with
  | |- context [run_pipeline_async ?e ?n ?b ?m] =>
      let E := fresh "E" in
      destruct m as [board0 shown0 graph0 service0];
      cbn [board shown graph query_service];
      remember (run_pipeline_async e n b _) as rm eqn:E;
      unfold run_pipeline_async, try_except, pipeline_stages in E;
      revert E; worker_steps
  end.

(** A branch in which the run has ended. *)
Ltac ended tac :=
  unfold put, raise; cbn [board shown graph query_service];
  intros ->; cbn [fst snd board shown graph query_service]; tac.

(** X15: whatever the stages do, [run_pipeline_async] returns normally and
    leaves [running] false.  If it reports completion, the progress is 100,
    the stage is "Complete" and no error is recorded; if it does not, the
    message is "Pipeline failed: " followed by the recorded error, and the
    stage shown is the one that failed, one of A to E, with progress at most
    90. *)
Theorem run_pipeline_async_ends
    (e : surroundings) (sample_size : Z) (run_ingestion : bool) (m : machine) :
  let m' := (run_pipeline_async e sample_size run_ingestion m).2 in
  (run_pipeline_async e sample_size run_ingestion m).1 = Done tt
  /\ running (board m') = false
  /\ (completed (board m') = true ->
      progress (board m') = 100 /\ current_stage (board m') = "Complete"
      /\ error (board m') = ""
      /\ message (board m') = "Pipeline completed successfully!")
  /\ (completed (board m') = false ->
      message (board m') = "Pipeline failed: " +:+ error (board m')
      /\ current_stage (board m') ∈ ["A"; "B"; "C"; "D"; "E"]
      /\ progress (board m') <= 90).
Proof.
  run_worker.
  destruct (collected e run_ingestion) as [n1|t1]; worker_steps;
    [| ended ltac:(cbn -[pretty]; by repeat split; try done; try set_solver; try lia)].
  destruct (chunked e) as [n2|t2]; worker_steps;
    [| ended ltac:(cbn -[pretty]; by repeat split; try done; try set_solver; try lia)].
  destruct (extracted e sample_size) as [n3|t3]; worker_steps;
    [| ended ltac:(cbn -[pretty]; by repeat split; try done; try set_solver; try lia)].
  destruct (extracted_frame e) as [df|t4]; worker_steps;
    [| ended ltac:(cbn -[pretty]; by repeat split; try done; try set_solver; try lia)].
  destruct (loader_built e) as [[]|t5]; worker_steps;
    [| ended ltac:(cbn -[pretty]; by repeat split; try done; try set_solver; try lia)].
  destruct (run_loading _ _ _) as [[[|]|] g']; worker_steps;
    [| ended ltac:(cbn -[pretty]; by repeat split; try done; try set_solver; try lia)
     | ended ltac:(cbn -[pretty]; by repeat split; try done; try set_solver; try lia)].
  destruct (query_service_up e); worker_steps; ended ltac:(cbn -[pretty]; by repeat split).
Qed.

(** X16: a failure is reported where it happened.  An exception in stage A,
    B, C or D, or while the loader is built, leaves its text in [error], with
    the stage and the progress of that stage (10, 30, 50, 70, 90); a load
    that returns [False] is reported as "Failed to load data into Neo4j" at
    stage E.  Building the query service cannot fail the run. *)
Theorem run_pipeline_async_failure_stage
    (e : surroundings) (sample_size : Z) (run_ingestion : bool) (m : machine) :
  let m' := (run_pipeline_async e sample_size run_ingestion m).2 in
  let at_stage stage percent text :=
    current_stage (board m') = stage /\ progress (board m') = percent
    /\ error (board m') = text /\ completed (board m') = false in
  (forall t, collected e run_ingestion = Failed t -> at_stage "A" 10 t)
  /\ (forall n1 t, collected e run_ingestion = Done n1 -> chunked e = Failed t ->
       at_stage "B" 30 t)
  /\ (forall n1 n2 t, collected e run_ingestion = Done n1 -> chunked e = Done n2 ->
       extracted e sample_size = Failed t -> at_stage "C" 50 t)
  /\ (forall n1 n2 n3, collected e run_ingestion = Done n1 -> chunked e = Done n2 ->
       extracted e sample_size = Done n3 ->
       (forall t, extracted_frame e = Failed t -> at_stage "D" 70 t)
       /\ (forall df, extracted_frame e = Done df ->
           let neo4j_data :=
             (run_resolution (uuid5_of e) (llm_of e) df new_service).1 in
           let batch := {| batch_nodes := neo4j_data.1;
                           batch_relations := neo4j_data.2 |} in
           (forall t, loader_built e = Failed t -> at_stage "E" 90 t)
           /\ (loader_built e = Done tt ->
               ((run_loading (loader_infra e) batch (graph m)).1 = Ret false ->
                at_stage "E" 90 "Failed to load data into Neo4j")
               /\ ((run_loading (loader_infra e) batch (graph m)).1 = Raise ->
                   at_stage "E" 90 (loader_crash e))
               /\ ((run_loading (loader_infra e) batch (graph m)).1 = Ret true ->
                   completed (board m') = true)))).
Proof.
  run_worker.
  destruct (collected e run_ingestion) as [n1|t1]; worker_steps;
    [| ended ltac:(split; [by intros t [= <-] | repeat split; intros; discriminate])].
  destruct (chunked e) as [n2|t2]; worker_steps;
    [| ended ltac:(split; [intros; discriminate |];
                   split; [by intros ? t _ [= <-]
                          | repeat split; intros; discriminate])].
  destruct (extracted e sample_size) as [n3|t3]; worker_steps;
    [| ended ltac:(do 2 (split; [intros; discriminate |]);
                   split; [by intros ? ? t _ _ [= <-] | intros; discriminate])].
  destruct (extracted_frame e) as [df|t4]; worker_steps;
    [| ended ltac:(do 3 (split; [intros; discriminate |]); intros ? ? ? _ _ _;
                   split; [by intros t [= <-] | intros; discriminate])].
  destruct (loader_built e) as [[]|t5]; worker_steps;
    [| ended ltac:(do 3 (split; [intros; discriminate |]); intros ? ? ? _ _ _;
                   split; [intros; discriminate |]; intros ? [= <-];
                   split; [by intros t [= <-] | intros; discriminate])].
  destruct (run_loading _ _ _) as [[[|]|] g'] eqn:El; worker_steps;
    [destruct (query_service_up e); worker_steps | |];
    (ended ltac:(do 3 (split; [intros; discriminate |]); intros ? ? ? _ _ _;
                 split; [intros; discriminate |]; intros ? [= <-];
                 split; [intros; discriminate |]; intros _;
                 rewrite El; cbn [fst];
                 repeat split; intros; first [discriminate | reflexivity])).
Qed.

Ltac shown_shape :=
  eexists; split;
    [match goal with
     | |- _ = (?l ++ _ ++ _)%list => rewrite (app_assoc l)
     end; f_equal; rewrite <- ?app_assoc; reflexivity |];
  cbn [List.app];
  split; [repeat (apply List.Forall_cons; [reflexivity |]); apply List.Forall_nil |];
  split; [reflexivity |];
  split;
    [intros ?;
     repeat (apply List.Forall_cons; [cbn; done |]); apply List.Forall_nil
    |intros ?; cbn -[pretty];
     repeat first [ apply Sorted_cons | apply Sorted_nil
                  | apply HdRel_cons | apply HdRel_nil ]; lia].

(** The statuses a run adds to those shown: all but the last have [running]
    true, the last is the final status of the board. *)
Lemma run_pipeline_async_trace
    (e : surroundings) (sample_size : Z) (run_ingestion : bool) (m : machine) :
  let m' := (run_pipeline_async e sample_size run_ingestion m).2 in
  exists before,
    shown m' = (shown m ++ before ++ [board m'])%list
    /\ Forall (fun st => running st = true) before
    /\ running (board m') = false
    /\ (completed (board m) = false -> Forall (fun st => completed st = false) before)
    /\ (progress (board m) <= 10 -> Sorted le (map progress (before ++ [board m']))).
Proof.
  run_worker.
  destruct (collected e run_ingestion) as [n1|t1]; worker_steps; [| ended shown_shape].
  destruct (chunked e) as [n2|t2]; worker_steps; [| ended shown_shape].
  destruct (extracted e sample_size) as [n3|t3]; worker_steps; [| ended shown_shape].
  destruct (extracted_frame e) as [df|t4]; worker_steps; [| ended shown_shape].
  destruct (loader_built e) as [[]|t5]; worker_steps; [| ended shown_shape].
  destruct (run_loading _ _ _) as [[[|]|] g']; worker_steps;
    [| ended shown_shape | ended shown_shape].
  destruct (query_service_up e); worker_steps; ended shown_shape.
Qed.

(** X17: the statuses a run shows.  Every status shown before the last has
    [running] true and the last has it false; from a status whose progress
    is at most 10 and that is not completed (as the one [start_pipeline]
    sets), the progress never goes down and [completed] is shown by the last
    status at most. *)
Theorem run_pipeline_async_shows
    (e : surroundings) (sample_size : Z) (run_ingestion : bool) (m : machine) :
  progress (board m) <= 10 -> completed (board m) = false ->
  let m' := (run_pipeline_async e sample_size run_ingestion m).2 in
  exists before,
    shown m' = (shown m ++ before ++ [board m'])%list
    /\ Forall (fun st => running st = true /\ completed st = false) before
    /\ running (board m') = false
    /\ Sorted le (map progress (before ++ [board m'])).
Proof.
  intros Hp Hc m'.
  destruct (run_pipeline_async_trace e sample_size run_ingestion m)
    as (before & Hsh & Hr & Hlast & Hcs & Hso).
  exists before. split; [done |]. split; [| split; [done | by apply Hso]].
  specialize (Hcs Hc). rewrite Forall_forall in Hr, Hcs |- *.
  intros st Hst. split; [by apply Hr | by apply Hcs].
Qed.

Lemma run_pipeline_async_shows_witness :
  exists before,
    shown (run_pipeline_async smooth_run 50 true
             (started {| status := starting_status; workers := [] |}
                empty_state false)).2
    = (before
       ++ [board (run_pipeline_async smooth_run 50 true
                    (started {| status := starting_status; workers := [] |}
                       empty_state false)).2])%list
    /\ Forall (fun st => running st = true /\ completed st = false) before.
Proof.
  destruct (run_pipeline_async_shows smooth_run 50 true
              (started {| status := starting_status; workers := [] |}
                 empty_state false))
    as (before & Hsh & Hf & _); [cbn; lia | reflexivity |].
  exists before. split; [exact Hsh | exact Hf].
Defined.

(** X18: the single flight is released when the worker ends, and not before.
    After a start that was accepted, a second start is refused at once and
    at every status the worker shows before its last; at the status the
    worker leaves, whether it succeeded or failed, a start is accepted
    again.  The worker runs with the sample size and the ingestion flag of
    the request, 50 and [True] when the request does not give them. *)
Theorem start_pipeline_released_at_end
    (e : surroundings) (body body' : option start_body) (a : app)
    (g : lstate) (qs : bool) :
  running (status a) = false ->
  let a1 := (start_pipeline body a).2 in
  let w := {| worker_sample_size := default 50%Z (body ≫= sample_size);
              worker_run_ingestion := default true (body ≫= run_ingestion) |} in
  let m' := (run_pipeline_async e (worker_sample_size w) (worker_run_ingestion w)
               (started a1 g qs)).2 in
  workers a1 = (workers a ++ [w])%list
  /\ (start_pipeline body' a1).1 = JsonError "Pipeline is already running" 400
  /\ (forall st, st ∈ shown m' -> st <> board m' ->
        (start_pipeline body' {| status := st; workers := workers a1 |}).1
        = JsonError "Pipeline is already running" 400)
  /\ (start_pipeline body' {| status := board m'; workers := workers a1 |}).1
     = JsonStarted true "Pipeline started successfully".
Proof.
  intros Hidle a1 w m'.
  assert (Ha1 : a1 = {| status := starting_status; workers := (workers a ++ [w])%list |}).
  { unfold a1, start_pipeline. rewrite Hidle. by destruct body as [[? ?]|]. }
  destruct (run_pipeline_async_trace e (worker_sample_size w)
              (worker_run_ingestion w) (started a1 g qs))
    as (before & Hsh & Hr & Hlast & _).
  fold m' in Hsh, Hlast.
  split; [by rewrite Ha1 |]. split; [by rewrite Ha1 |]. split.
  - intros st Hst Hne. rewrite Hsh in Hst. cbn in Hst.
    apply elem_of_app in Hst as [Hst|Hst%list_elem_of_singleton]; [| done].
    rewrite Forall_forall in Hr. unfold start_pipeline. cbn.
    by rewrite (Hr st Hst).
  - unfold start_pipeline. cbn. by rewrite Hlast.
Qed.

Lemma start_pipeline_released_at_end_witness :
  (start_pipeline None
     {| status :=
          board (run_pipeline_async smooth_run 50 true
                   (started (start_pipeline None
                               {| status := initial_status; workers := [] |}).2
                      empty_state false)).2;
        workers := workers (start_pipeline None
                              {| status := initial_status; workers := [] |}).2 |}).1
  = JsonStarted true "Pipeline started successfully".
Proof.
  apply (start_pipeline_released_at_end smooth_run None None
           {| status := initial_status; workers := [] |} empty_state false).
  reflexivity.
Defined.

(** X19: the counters of the status are sizes of frames, set before the
    load.  Once stage D is reached, the final status reports the numbers the
    stages delivered, with [nodes_created] and [relationships_created] the
    sizes of the two frames [run_resolution] returned, whatever the load
    then does with them. *)
Theorem run_pipeline_async_stats
    (e : surroundings) (sample_size : Z) (run_ingestion : bool) (m : machine)
    (n1 n2 n3 : nat) (df : list extraction_row) :
  collected e run_ingestion = Done n1 -> chunked e = Done n2 ->
  extracted e sample_size = Done n3 -> extracted_frame e = Done df ->
  stats_of (board (run_pipeline_async e sample_size run_ingestion m).2)
  = {| articles_collected := n1; chunks_created := n2; entities_extracted := n3;
       nodes_created :=
         length (run_resolution (uuid5_of e) (llm_of e) df new_service).1.1;
       relationships_created :=
         length (run_resolution (uuid5_of e) (llm_of e) df new_service).1.2 |}.
Proof.
  intros H1 H2 H3 H4. run_worker.
  rewrite H1. worker_steps. rewrite H2. worker_steps. rewrite H3. worker_steps.
  rewrite H4. worker_steps.
  destruct (loader_built e) as [[]|t5]; worker_steps; [| by ended idtac].
  destruct (run_loading _ _ _) as [[[|]|] g']; worker_steps;
    [| by ended idtac | by ended idtac].
  destruct (query_service_up e); worker_steps; by ended idtac.
Qed.

(** A run that completes and reports one relationship created, while the
    store holds none: the relation had no node to start from. *)
Lemma run_pipeline_async_stats_witness :
  relationships_created
    (stats_of (board (run_pipeline_async smooth_run 50 true
                        (started {| status := starting_status; workers := [] |}
                           empty_state false)).2)) = 1
  /\ completed
       (board (run_pipeline_async smooth_run 50 true
                 (started {| status := starting_status; workers := [] |}
                    empty_state false)).2) = true
  /\ edges (db (graph (run_pipeline_async smooth_run 50 true
                         (started {| status := starting_status; workers := [] |}
                            empty_state false)).2)) = [].
Proof.
  split; [| split; vm_compute; reflexivity].
  rewrite (run_pipeline_async_stats smooth_run 50 true _ 3 7 1 _
             eq_refl eq_refl eq_refl eq_refl).
  reflexivity.
Defined.

End WorkerFacts.

(** ** The command-line pipeline *)

Section CliFacts.

Import Worker Cli.

(** The stages a value of [skip_to_stage] lets run. *)
Lemma runs_cases (skip_to_stage : option string) :
  let on l := runs skip_to_stage l in
  (on ["A"] = true /\ on ["A"; "B"] = true /\ on ["A"; "B"; "C"] = true
   /\ on ["A"; "B"; "C"; "D"] = true /\ on ["A"; "B"; "C"; "D"; "E"] = true
   /\ stages_from skip_to_stage = ["A"; "B"; "C"; "D"; "E"; "F"]
   /\ skip_to_stage <> Some "E")
  \/ (on ["A"] = false /\ on ["A"; "B"] = true /\ on ["A"; "B"; "C"] = true
      /\ on ["A"; "B"; "C"; "D"] = true /\ on ["A"; "B"; "C"; "D"; "E"] = true
      /\ stages_from skip_to_stage = ["B"; "C"; "D"; "E"; "F"]
      /\ skip_to_stage <> Some "E")
  \/ (on ["A"] = false /\ on ["A"; "B"] = false /\ on ["A"; "B"; "C"] = true
      /\ on ["A"; "B"; "C"; "D"] = true /\ on ["A"; "B"; "C"; "D"; "E"] = true
      /\ stages_from skip_to_stage = ["C"; "D"; "E"; "F"]
      /\ skip_to_stage <> Some "E")
  \/ (on ["A"] = false /\ on ["A"; "B"] = false /\ on ["A"; "B"; "C"] = false
      /\ on ["A"; "B"; "C"; "D"] = true /\ on ["A"; "B"; "C"; "D"; "E"] = true
      /\ stages_from skip_to_stage = ["D"; "E"; "F"]
      /\ skip_to_stage <> Some "E")
  \/ (on ["A"] = false /\ on ["A"; "B"] = false /\ on ["A"; "B"; "C"] = false
      /\ on ["A"; "B"; "C"; "D"] = false /\ on ["A"; "B"; "C"; "D"; "E"] = true
      /\ stages_from skip_to_stage = ["E"; "F"]
      /\ skip_to_stage = Some "E")
  \/ (on ["A"] = false /\ on ["A"; "B"] = false /\ on ["A"; "B"; "C"] = false
      /\ on ["A"; "B"; "C"; "D"] = false /\ on ["A"; "B"; "C"; "D"; "E"] = false
      /\ stages_from skip_to_stage = ["F"]
      /\ skip_to_stage <> Some "E").
Proof.
  destruct skip_to_stage as [s|]; [| by left].
  destruct (decide (s = "A")) as [->|HA]; [by left |].
  destruct (decide (s = "B")) as [->|HB]; [by right; left |].
  destruct (decide (s = "C")) as [->|HC]; [by do 2 right; left |].
  destruct (decide (s = "D")) as [->|HD]; [by do 3 right; left |].
  destruct (decide (s = "E")) as [->|HE]; [by do 4 right; left |].
  do 5 right. unfold runs, stages_from.
  rewrite !bool_decide_eq_false_2;
    [repeat split; congruence | congruence.. | | | | |];
    intros Hin;
    repeat (apply elem_of_cons in Hin as [Hin|Hin]; [congruence |]);
    by apply elem_of_nil in Hin.
Qed.

(** One call, run to its end along every outcome of the surroundings. *)
Ltac cli_step :=
  cbv [mbind mret call show load_graph build_query_service stage_F
         store_of service_set seen fst snd negb].

Ltac run_cli :=
  cli_step;
  repeat (match goal with
          | |- context [run_loading ?a ?b ?c] =>
              destruct (run_loading a b c) as [[[|]|] ?] eqn:?
          | |- context [match ?o with Done _ => _ | Failed _ => _ end] =>
              destruct o as [?|?] eqn:?
          | |- context [if ?b then _ else _] => destruct b eqn:?
          | a : unit |- _ => destruct a
          end; cli_step).

(** The events a call added, written out. *)
Ltac cli_trace :=
  eexists; split; [rewrite <- ?app_assoc; reflexivity |]; cbn.

Ltac cli_cases skip_to_stage :=
  let H := fresh "H" in
  destruct (runs_cases skip_to_stage) as [H|[H|[H|[H|[H|H]]]]];
  cbv zeta in H;
  destruct H as (HA & HB & HC & HD & HE & Hfrom & Hskip);
  unfold run_complete_pipeline, stages;
  rewrite ?HA, ?HB, ?HC, ?HD, ?HE, ?Hfrom.

(** X20: the stages of a call.  A call enters the stages in the order A to F,
    starting at [skip_to_stage] (at A without one, at F for a value that
    names no earlier stage) and leaving none out, up to the stage in which it
    stops; it always enters the first of them.  Nothing is loaded unless
    stage D ran in the same call: with [skip_to_stage] E or F the graph is
    left as it was, and with E the call stops in stage E. *)
Theorem run_complete_pipeline_stages
    (e : world) (run_ingestion : bool) (sample_size : Z)
    (skip_to_stage : option string) (interactive_mode : bool) (m : pipeline) :
  exists t,
    seen (run_complete_pipeline e run_ingestion sample_size skip_to_stage
            interactive_mode m).2 = (seen m ++ t)%list
    /\ banners t `prefix_of` stages_from skip_to_stage
    /\ banners t <> []
    /\ (Banner "D" ∉ t ->
        store_of (run_complete_pipeline e run_ingestion sample_size skip_to_stage
                 interactive_mode m).2 = store_of m)
    /\ (skip_to_stage = Some "E" -> banners t = ["E"]).
Proof.
  destruct m as [g qs sn].
  cli_cases skip_to_stage.
  all: run_cli; cli_trace;
    (split; [eexists; reflexivity |]); (split; [discriminate |]);
    (split; [| first [ done | intros _; reflexivity ]]);
    intros Hn; first [ reflexivity | exfalso; apply Hn; in_trace ].
Qed.

(** X21: what [True] means.  [run_complete_pipeline] returns [True] only when
    the query service was built, the test queries and (when asked for) the
    interactive session ended normally and the service was closed; when the
    call includes stage D, only when the loader was built and [run_loading],
    on the frames [run_resolution] made of the frame read, returned [True]
    and left the graph the call leaves; otherwise the graph is untouched.
    With [skip_to_stage] E it never returns [True]. *)
Theorem run_complete_pipeline_true
    (e : world) (run_ingestion : bool) (sample_size : Z)
    (skip_to_stage : option string) (interactive_mode : bool) (m : pipeline) :
  (run_complete_pipeline e run_ingestion sample_size skip_to_stage
     interactive_mode m).1 = Done true ->
  let m' := (run_complete_pipeline e run_ingestion sample_size skip_to_stage
               interactive_mode m).2 in
  skip_to_stage <> Some "E"
  /\ service_set m' = true
  /\ query_service_built e = Done tt
  /\ test_queries e = Done tt
  /\ (interactive_mode = true -> interactive_session e = Done tt)
  /\ closing e = Done tt
  /\ (runs skip_to_stage ["A"; "B"; "C"; "D"] = true ->
      exists extracted_path df,
        frame_at e extracted_path = Done df
        /\ loader_made e = Done tt
        /\ run_loading (loader_world e)
             {| batch_nodes :=
                  (run_resolution (hash_of e) (model_of e) df new_service).1.1;
                batch_relations :=
                  (run_resolution (hash_of e) (model_of e) df new_service).1.2 |}
             (store_of m)
           = (Ret true, store_of m'))
  /\ (runs skip_to_stage ["A"; "B"; "C"; "D"] = false -> store_of m' = store_of m).
Proof.
  destruct m as [g qs sn].
  cli_cases skip_to_stage.
  all: run_cli; intros Hr; try discriminate Hr; cbv zeta;
    repeat split; try done; try (intros; discriminate).
  all: intros _; do 2 eexists; split; [eassumption |]; split; [reflexivity |];
    eassumption.
Qed.

Lemma run_complete_pipeline_true_witness :
  (run_complete_pipeline smooth true 50 None false (fresh empty_state)).1 = Done true
  /\ service_set
       (run_complete_pipeline smooth true 50 None false (fresh empty_state)).2 = true.
Proof.
  split; [vm_compute; reflexivity |].
  apply (run_complete_pipeline_true smooth true 50 None false (fresh empty_state)).
  vm_compute; reflexivity.
Defined.


End CliFacts.

(** ** Chunks *)

Section ChunkFacts.

Import Chunking.

Implicit Types (l cur : list string) (s t : string) (n : Z).

Lemma emit_chunk_of chunks cur :
  emit chunks cur = (chunks ++ [chunk_of (length chunks) cur])%list.
Proof. done. Qed.

Lemma fold_emit groups chunks :
  fold_left emit groups chunks
  = (chunks ++ imap (fun i g => chunk_of (length chunks + i) g) groups)%list.
Proof.
  revert chunks. induction groups as [|g groups IH]; intros chunks; cbn [fold_left].
  - by rewrite app_nil_r.
  - rewrite IH, emit_chunk_of, <- app_assoc. f_equal. cbn [imap app].
    rewrite Nat.add_0_r. f_equal. apply imap_ext. intros i x _. cbn.
    rewrite length_app. cbn. f_equal. lia.
Qed.

(** The loop closes the chunks of [group_loop], in order. *)
Lemma chunk_loop_groups cs ov sentences chunks cur n :
  chunk_loop cs ov sentences chunks cur n
  = (fold_left emit (group_loop cs ov sentences cur n).1 chunks,
     (group_loop cs ov sentences cur n).2).
Proof.
  revert chunks cur n. induction sentences as [|s rest IH]; intros chunks cur n.
  - done.
  - cbn [chunk_loop group_loop].
    destruct ((n + len s >? cs)%Z && nonempty cur).
    + rewrite IH. by destruct (group_loop _ _ rest _ _).
    + apply IH.
Qed.

(** The chunks of a text are the chunks of its groups, numbered from 0. *)
Lemma create_chunks_groups cs ov txt title :
  create_chunks cs ov txt title = imap chunk_of (groups_of cs ov txt title).
Proof.
  unfold create_chunks, groups_of. rewrite chunk_loop_groups.
  destruct (group_loop _ _ _ _ _) as [groups cur]. cbn [fst snd].
  rewrite fold_emit. cbn [app length Nat.add].
  destruct cur as [|s cur]; cbn [nonempty].
  - by rewrite app_nil_r.
  - rewrite emit_chunk_of, length_imap, imap_app. cbn. by rewrite Nat.add_0_r.
Qed.

(** *** Joining *)

Lemma join_cons s l : join (s :: l) = if nonempty l then s +:+ " " +:+ join l else s.
Proof. unfold join. cbn. by destruct l. Qed.

Lemma append_assoc s t u : (s +:+ t) +:+ u = s +:+ t +:+ u.
Proof.
  induction s as [|c s IH]; [done |].
  change (String c (s +:+ t) +:+ u = String c (s +:+ t +:+ u)).
  change (String c ((s +:+ t) +:+ u) = String c (s +:+ t +:+ u)). by rewrite IH.
Qed.

Lemma length_append s t : String.length (s +:+ t) = String.length s + String.length t.
Proof.
  induction s as [|c s IH]; [done |].
  change (S (String.length (s +:+ t)) = S (String.length s + String.length t)).
  by rewrite IH.
Qed.

Lemma join_app l1 l2 :
  l1 <> [] -> l2 <> [] -> join (l1 ++ l2)%list = join l1 +:+ " " +:+ join l2.
Proof.
  intros H1 H2. induction l1 as [|s l1 IH]; [done |].
  destruct l1 as [|t l1].
  - cbn [app]. rewrite !join_cons. by destruct l2.
  - change ((s :: t :: l1) ++ l2)%list with (s :: ((t :: l1) ++ l2))%list.
    rewrite (join_cons s ((t :: l1) ++ l2)%list), (join_cons s (t :: l1)).
    rewrite IH by done. cbn [app nonempty]. by rewrite !append_assoc.
Qed.

Lemma contains_join s l : s ∈ l -> PyStr.contains s (join l) = true.
Proof.
  intros (l1 & l2 & ->)%list_elem_of_split.
  destruct l1 as [|a l1], l2 as [|b l2].
  - cbn. pose proof (contains_app s "" "") as H. cbn in H.
    replace (s +:+ "") with s in H; [done |].
    clear. induction s as [|c s IH]; [done |].
    change (String c s = String c (s +:+ "")). by rewrite <- IH.
  - change ([] ++ s :: b :: l2)%list with ([s] ++ (b :: l2))%list.
    rewrite join_app by done. apply (contains_app s "").
  - rewrite join_app by done. cbn [join String.concat].
    pose proof (contains_app s (join (a :: l1) +:+ " ") "") as H.
    rewrite append_assoc in H.
    replace (s +:+ "") with s in H; [done |].
    clear. induction s as [|c s IH]; [done |].
    change (String c s = String c (s +:+ "")). by rewrite <- IH.
  - rewrite join_app by done.
    change (s :: b :: l2) with ([s] ++ (b :: l2))%list. rewrite join_app by done.
    pose proof (contains_app s (join (a :: l1) +:+ " ") (" " +:+ join (b :: l2))) as H.
    by rewrite append_assoc in H.
Qed.

Lemma truthy_join l : l <> [] -> Forall (fun s => PyStr.truthy s = true) l ->
  PyStr.truthy (join l) = true.
Proof.
  intros Hne Hl. destruct l as [|s l]; [done |].
  apply Forall_cons in Hl as [Hs _]. rewrite join_cons.
  destruct s; [done |]. by destruct (nonempty l).
Qed.

Lemma len_join l :
  l <> [] -> len (join l) = (total l + Z.of_nat (length l) - 1)%Z.
Proof.
  intros Hne. induction l as [|s l IH]; [done |].
  rewrite join_cons. destruct l as [|t l].
  - cbn. unfold len. lia.
  - cbn [nonempty]. unfold len in *. rewrite !length_append.
    cbn [total fold_right length] in *. unfold len in *.
    rewrite Nat2Z.inj_add, Nat2Z.inj_add, IH by done. cbn. lia.
Qed.

Lemma join_concat (groups : list (list string)) :
  Forall (fun g => g <> []) groups ->
  join (map join groups) = join (concat groups).
Proof.
  induction 1 as [|g groups Hg Hgs IH]; [done |].
  change (map join (g :: groups)) with (join g :: map join groups).
  change (concat (g :: groups)) with (g ++ concat groups)%list.
  rewrite join_cons, IH.
  destruct groups as [|g' groups].
  - cbn. by rewrite app_nil_r.
  - cbn [map nonempty]. rewrite join_app; [done | done |].
    apply Forall_cons in Hgs as [Hg' _]. cbn. by destruct g'.
Qed.

Lemma total_app l1 l2 : total (l1 ++ l2)%list = (total l1 + total l2)%Z.
Proof.
  induction l1 as [|s l1 IH]; [done |].
  change (total ((s :: l1) ++ l2)%list) with (len s + total (l1 ++ l2)%list)%Z.
  change (total (s :: l1)) with (len s + total l1)%Z. lia.
Qed.

Lemma total_nonneg l : (0 <= total l)%Z.
Proof.
  induction l as [|s l IH]; [done |].
  change (total (s :: l)) with (len s + total l)%Z. unfold len. lia.
Qed.

(** *** The sentences kept as overlap *)

Lemma keep_overlap_spec ov l acc n :
  exists k,
    keep_overlap ov l acc n = (rev (take k l) ++ acc)%list
    /\ ((n <= ov)%Z -> (n + total (take k l) <= ov)%Z)
    /\ (forall s l', l = s :: l' -> (ov < n + len s)%Z -> k = 0).
Proof.
  revert acc n. induction l as [|s l IH]; intros acc n; cbn [keep_overlap].
  - exists 0. cbn. split; [done |]. split; [lia | done].
  - destruct (n + len s >? ov)%Z eqn:E.
    + exists 0. cbn. split; [done |]. split; [lia | done].
    + destruct (IH (s :: acc) (n + len s)%Z) as (k & Hk & Hsum & _).
      exists (S k). cbn [take rev]. rewrite <- app_assoc. cbn [app].
      split; [done |]. split.
      * intros Hn. cbn [total fold_right]. fold (total (take k l)). lia.
      * intros s' l' [= <- <-] Hlt. lia.
Qed.

Lemma keep_overlap_suffix ov cur :
  exists pre,
    cur = (pre ++ keep_overlap ov (rev cur) [] 0%Z)%list
    /\ ((0 <= ov)%Z -> (total (keep_overlap ov (rev cur) [] 0%Z) <= ov)%Z)
    /\ ((ov <= 0)%Z -> Forall (fun s => PyStr.truthy s = true) cur ->
        keep_overlap ov (rev cur) [] 0%Z = []).
Proof.
  destruct (keep_overlap_spec ov (rev cur) [] 0%Z) as (k & -> & Hsum & Hzero).
  rewrite app_nil_r. exists (rev (drop k (rev cur))). split.
  - rewrite <- rev_app_distr, take_drop. by rewrite rev_involutive.
  - split.
    + intros Hov. specialize (Hsum Hov).
      assert (Hrev : forall l, total (rev l) = total l).
      { clear. induction l as [|s l IH]; [done |]. cbn [rev].
        rewrite total_app, IH. change (total [s]) with (len s + 0)%Z.
        change (total (s :: l)) with (len s + total l)%Z. lia. }
      rewrite Hrev. lia.
    + intros Hov Hall. destruct (rev cur) as [|s l'] eqn:E; [by rewrite take_nil |].
      rewrite (Hzero s l' eq_refl); [done |].
      assert (Hs : s ∈ cur).
      { apply list_elem_of_In, in_rev. rewrite E. by left. }
      rewrite Forall_forall in Hall. specialize (Hall s Hs).
      unfold len. destruct s; [done |]. cbn. lia.
Qed.

(** *** What the loop keeps *)

Lemma group_loop_truthy cs ov sentences cur n :
  Forall (fun s => PyStr.truthy s = true) cur ->
  Forall (fun s => PyStr.truthy s = true) sentences ->
  Forall (fun g => g <> [] /\ Forall (fun s => PyStr.truthy s = true) g)
    (group_loop cs ov sentences cur n).1
  /\ Forall (fun s => PyStr.truthy s = true) (group_loop cs ov sentences cur n).2.
Proof.
  revert cur n. induction sentences as [|s rest IH]; intros cur n Hcur Hall.
  - by split.
  - apply Forall_cons in Hall as [Hs Hrest]. cbn [group_loop].
    destruct ((n + len s >? cs)%Z && nonempty cur) eqn:E.
    + apply andb_true_iff in E as [_ Hne].
      destruct (keep_overlap_suffix ov cur) as (pre & Hpre & _).
      set (kept := keep_overlap ov (rev cur) [] 0%Z) in *.
      assert (Hkept : Forall (fun s => PyStr.truthy s = true) kept).
      { rewrite Hpre in Hcur. by apply Forall_app in Hcur as [_ ?]. }
      destruct (IH (kept ++ [s])%list (total (kept ++ [s])%list)) as [IH1 IH2];
        [apply Forall_app; split; [done | by apply Forall_singleton] | done |].
      destruct (group_loop cs ov rest _ _) as [groups lst]. cbn [fst snd] in *.
      split; [| done]. apply Forall_cons. split; [| done].
      split; [by destruct cur | done].
    + apply IH; [| done]. apply Forall_app. split; [done | by apply Forall_singleton].
Qed.

Lemma group_loop_covers cs ov sentences cur n s :
  s ∈ cur \/ s ∈ sentences ->
  (exists g, g ∈ (group_loop cs ov sentences cur n).1 /\ s ∈ g)
  \/ s ∈ (group_loop cs ov sentences cur n).2.
Proof.
  revert cur n. induction sentences as [|t rest IH]; intros cur n Hs.
  - right. destruct Hs as [Hs | Hs]; [done | by apply elem_of_nil in Hs].
  - cbn [group_loop].
    destruct ((n + len t >? cs)%Z && nonempty cur) eqn:E.
    + set (cur' := (keep_overlap ov (rev cur) [] 0%Z ++ [t])%list).
      specialize (IH cur' (total cur')).
      destruct (group_loop cs ov rest cur' (total cur')) as [groups lst].
      cbn [fst snd] in *.
      destruct Hs as [Hs | Hs].
      * left. exists cur. split; [by left | done].
      * assert (Hs' : s ∈ cur' \/ s ∈ rest).
        { apply elem_of_cons in Hs as [-> | Hs]; [| by right].
          left. apply elem_of_app. right. by left. }
        destruct (IH Hs') as [(g & Hg & Hsg) | Hl]; [| by right].
        left. exists g. split; [by right | done].
    + apply IH. destruct Hs as [Hs | Hs].
      * left. apply elem_of_app. by left.
      * apply elem_of_cons in Hs as [-> | Hs]; [| by right].
        left. apply elem_of_app. right. by left.
Qed.

Lemma group_loop_bound cs ov sentences cur n :
  (0 <= ov)%Z ->
  n = total cur -> (total cur <= cs)%Z ->
  Forall (fun s => (len s <= cs - ov)%Z) sentences ->
  Forall (fun g => (total g <= cs)%Z) (group_loop cs ov sentences cur n).1
  /\ (total (group_loop cs ov sentences cur n).2 <= cs)%Z.
Proof.
  intros Hov. revert cur n.
  induction sentences as [|s rest IH]; intros cur n Hn Hcur Hall.
  - by split.
  - apply Forall_cons in Hall as [Hs Hrest]. cbn [group_loop].
    destruct ((n + len s >? cs)%Z && nonempty cur) eqn:E.
    + destruct (keep_overlap_suffix ov cur) as (pre & _ & Hkept & _).
      specialize (Hkept Hov).
      set (kept := keep_overlap ov (rev cur) [] 0%Z) in *.
      destruct (IH (kept ++ [s])%list (total (kept ++ [s])%list)) as [IH1 IH2];
        [done | | done |].
      { rewrite total_app. change (total [s]) with (len s + 0)%Z. lia. }
      destruct (group_loop cs ov rest _ _) as [groups lst]. cbn [fst snd] in *.
      split; [| done]. by apply Forall_cons.
    + apply IH; [| | done].
      * rewrite total_app. change (total [s]) with (len s + 0)%Z. lia.
      * rewrite total_app. change (total [s]) with (len s + 0)%Z.
        apply andb_false_iff in E as [E | E].
        -- lia.
        -- destruct cur; [| done]. cbn. lia.
Qed.

Lemma group_loop_partition cs ov sentences cur n :
  (ov <= 0)%Z ->
  Forall (fun s => PyStr.truthy s = true) cur ->
  Forall (fun s => PyStr.truthy s = true) sentences ->
  (concat (group_loop cs ov sentences cur n).1 ++ (group_loop cs ov sentences cur n).2
   = cur ++ sentences)%list.
Proof.
  intros Hov. revert cur n.
  induction sentences as [|s rest IH]; intros cur n Hcur Hall.
  - cbn. by rewrite app_nil_r.
  - apply Forall_cons in Hall as [Hs Hrest]. cbn [group_loop].
    destruct ((n + len s >? cs)%Z && nonempty cur) eqn:E.
    + destruct (keep_overlap_suffix ov cur) as (pre & _ & _ & Hkept).
      rewrite (Hkept Hov Hcur). cbn [app].
      specialize (IH [s] (total [s]) (proj2 (Forall_singleton _ _) Hs) Hrest).
      destruct (group_loop cs ov rest _ _) as [groups lst]. cbn [fst snd concat] in *.
      by rewrite <- app_assoc, IH.
    + rewrite IH; [| | done].
      * by rewrite <- app_assoc.
      * apply Forall_app. split; [done | by apply Forall_singleton].
Qed.

Lemma sentences_of_truthy txt :
  Forall (fun s => PyStr.truthy s = true) (sentences_of txt).
Proof.
  apply List.Forall_forall. intros s Hs. unfold sentences_of in Hs.
  by apply filter_In in Hs as [_ ?].
Qed.

Lemma title_truthy title :
  Forall (fun s => PyStr.truthy s = true) (if PyStr.truthy title then [title] else []).
Proof. destruct (PyStr.truthy title) eqn:E; [by apply Forall_singleton | done]. Qed.

Lemma title_length title :
  (if PyStr.truthy title then len title else 0%Z)
  = total (if PyStr.truthy title then [title] else []).
Proof. destruct (PyStr.truthy title); cbn; lia. Qed.

Lemma groups_of_truthy cs ov txt title :
  Forall (fun g => g <> [] /\ Forall (fun s => PyStr.truthy s = true) g)
    (groups_of cs ov txt title).
Proof.
  unfold groups_of.
  pose proof (group_loop_truthy cs ov (sentences_of txt)
    (if PyStr.truthy title then [title] else [])
    (if PyStr.truthy title then len title else 0%Z)
    (title_truthy title) (sentences_of_truthy txt)) as [H1 H2].
  destruct (group_loop _ _ _ _ _) as [groups lst]. cbn [fst snd] in *.
  apply Forall_app. split; [done |].
  destruct lst as [|s lst]; cbn [nonempty]; [done |]. by apply Forall_singleton.
Qed.

Lemma groups_of_covers cs ov txt title s :
  s ∈ parts_of txt title -> exists g, g ∈ groups_of cs ov txt title /\ s ∈ g.
Proof.
  intros Hs. unfold parts_of in Hs. apply elem_of_app in Hs. unfold groups_of.
  pose proof (group_loop_covers cs ov (sentences_of txt)
    (if PyStr.truthy title then [title] else [])
    (if PyStr.truthy title then len title else 0%Z) s Hs) as H.
  destruct (group_loop _ _ _ _ _) as [groups lst]. cbn [fst snd] in *.
  destruct H as [(g & Hg & Hsg) | Hl].
  - exists g. split; [| done]. apply elem_of_app. by left.
  - exists lst. split; [| done]. apply elem_of_app. right.
    destruct lst; [by apply elem_of_nil in Hl |]. by left.
Qed.

Lemma create_chunks_lookup cs ov txt title k c :
  create_chunks cs ov txt title !! k = Some c ->
  exists g, groups_of cs ov txt title !! k = Some g /\ c = chunk_of k g.
Proof.
  rewrite create_chunks_groups, list_lookup_imap.
  destruct (groups_of cs ov txt title !! k) as [g|]; [| done].
  intros [= <-]. by exists g.
Qed.

(** X23: the chunks of a text are numbered [chunk_0], [chunk_1], ... in the
    order of the list, none of them has an empty text, and [char_length] is
    the length of the text. *)
Theorem create_chunks_numbered cs ov txt title k c :
  create_chunks cs ov txt title !! k = Some c ->
  chunk_id c = "chunk_" +:+ pretty k
  /\ text c <> ""
  /\ char_length c = String.length (text c).
Proof.
  intros (g & Hg & ->)%create_chunks_lookup. cbn. split; [done |]. split; [| done].
  pose proof (groups_of_truthy cs ov txt title) as H.
  rewrite Forall_forall in H.
  destruct (H g (list_elem_of_lookup_2 _ _ _ Hg)) as [Hne Hall].
  pose proof (truthy_join g Hne Hall) as Ht. by destruct (join g).
Qed.

Lemma create_chunks_numbered_witness :
  create_chunks 20 5 "Apple rose. Google fell! Why?  Nobody knows." "Markets" !! 1
  = Some {| chunk_id := "chunk_1"; text := "Google fell Why"; char_length := 15 |}
  /\ "Google fell Why" <> "".
Proof.
  split; [by vm_compute |].
  apply (create_chunks_numbered 20 5
           "Apple rose. Google fell! Why?  Nobody knows." "Markets" 1
           {| chunk_id := "chunk_1"; text := "Google fell Why"; char_length := 15 |}).
  by vm_compute.
Defined.

(** X24: [create_chunks] returns no chunk exactly when the title is empty and
    the text has no sentence, as an empty text has none. *)
Theorem create_chunks_empty_iff cs ov txt title :
  create_chunks cs ov txt title = [] <-> parts_of txt title = [].
Proof.
  rewrite create_chunks_groups. split.
  - intros H. destruct (parts_of txt title) as [|s l] eqn:E; [done |].
    destruct (groups_of_covers cs ov txt title s) as (g & Hg & _).
    { rewrite E. by left. }
    destruct (groups_of cs ov txt title); [by apply elem_of_nil in Hg | done].
  - unfold parts_of, groups_of. intros [H1 H2]%app_eq_nil. by rewrite H1, H2.
Qed.

(** X25: nothing of the input is lost: the title, when it is not empty, and
    every sentence of the text occur in the text of some chunk. *)
Theorem create_chunks_covers cs ov txt title s :
  s ∈ parts_of txt title ->
  exists c, c ∈ create_chunks cs ov txt title /\ PyStr.contains s (text c) = true.
Proof.
  intros (g & Hg & Hs)%(groups_of_covers cs ov).
  apply list_elem_of_lookup in Hg as [k Hk].
  exists (chunk_of k g). split.
  - rewrite create_chunks_groups. apply list_elem_of_lookup. exists k.
    by rewrite list_lookup_imap, Hk.
  - by apply contains_join.
Qed.

Lemma create_chunks_covers_witness :
  exists c,
    c ∈ create_chunks 20 5 "Apple rose. Google fell! Why?  Nobody knows." "Markets"
    /\ PyStr.contains "Nobody knows." (text c) = true.
Proof.
  apply (create_chunks_covers 20 5
           "Apple rose. Google fell! Why?  Nobody knows." "Markets" "Nobody knows.").
  vm_compute. do 4 right. left.
Defined.

(** X26: [chunk_size] bounds the sentences of a chunk, not its text.  When the
    title and every sentence have at most [chunk_size - overlap] characters,
    the sentences of each chunk have at most [chunk_size] characters in all,
    and the text, which has one space more between two sentences, is shorter
    than twice [chunk_size]. *)
Theorem create_chunks_bound cs ov txt title c :
  (0 <= ov)%Z ->
  Forall (fun s => (len s <= cs - ov)%Z) (parts_of txt title) ->
  c ∈ create_chunks cs ov txt title ->
  exists g,
    text c = join g /\ (total g <= cs)%Z
    /\ Z.of_nat (char_length c) = (total g + Z.of_nat (length g) - 1)%Z
    /\ (Z.of_nat (char_length c) <= 2 * cs - 1)%Z.
Proof.
  intros Hov Hparts (k & Hk)%list_elem_of_lookup.
  apply create_chunks_lookup in Hk as (g & Hg & ->).
  apply list_elem_of_lookup_2 in Hg.
  pose proof (groups_of_truthy cs ov txt title) as Htr.
  rewrite Forall_forall in Htr. destruct (Htr g Hg) as [Hne Hall].
  assert (Hcs : (0 <= cs)%Z).
  { pose proof (Forall_app_2 _ _ _ (title_truthy title) (sentences_of_truthy txt))
      as Hparts'. fold (parts_of txt title) in Hparts'.
    destruct (parts_of txt title) as [|s l] eqn:E.
    - unfold parts_of in E. apply app_eq_nil in E as [E1 E2].
      unfold groups_of in Hg. rewrite E1, E2 in Hg. by apply elem_of_nil in Hg.
    - apply Forall_cons in Hparts as [Hs _]. apply Forall_cons in Hparts' as [Hs' _].
      unfold len in Hs. destruct s; [done |]. cbn [String.length] in Hs. lia. }
  assert (Htot : (total g <= cs)%Z).
  { unfold parts_of in Hparts. apply Forall_app in Hparts as [Htitle Hsent].
    unfold groups_of in Hg.
    pose proof (group_loop_bound cs ov (sentences_of txt)
      (if PyStr.truthy title then [title] else [])
      (if PyStr.truthy title then len title else 0%Z) Hov (title_length title)) as H.
    destruct H as [H1 H2]; [| done |].
    { destruct (PyStr.truthy title); [| cbn; lia].
      apply Forall_cons in Htitle as [Htitle _]. change (total [title]) with (len title + 0)%Z. lia. }
    destruct (group_loop _ _ _ _ _) as [groups lst]. cbn [fst snd] in *.
    apply elem_of_app in Hg as [Hg | Hg].
    - rewrite Forall_forall in H1. by apply H1.
    - destruct lst; [by apply elem_of_nil in Hg |].
      apply list_elem_of_singleton in Hg. by subst. }
  exists g. cbn [text char_length chunk_of]. split; [done |]. split; [done |].
  pose proof (len_join g Hne) as Hlen. unfold len in Hlen. split; [done |].
  rewrite Hlen.
  assert (Hcount : (Z.of_nat (length g) <= total g)%Z).
  { clear -Hall. induction Hall as [|s l Hs _ IH]; [done |].
    change (total (s :: l)) with (len s + total l)%Z. cbn [length].
    unfold len. destruct s; [done |]. cbn [String.length]. lia. }
  lia.
Qed.

Lemma create_chunks_bound_witness :
  exists g,
    "Google fell Why" = join g /\ (total g <= 20)%Z
    /\ 15%Z = (total g + Z.of_nat (length g) - 1)%Z
    /\ (15 <= 2 * 20 - 1)%Z.
Proof.
  apply (create_chunks_bound 20 5
           "Apple rose. Google fell! Why?  Nobody knows." "Markets"
           {| chunk_id := "chunk_1"; text := "Google fell Why"; char_length := 15 |}).
  - lia.
  - vm_compute. repeat (apply List.Forall_cons; [by intros [=] |]). apply List.Forall_nil.
  - vm_compute. right. left.
Defined.

(** X27: without overlap the chunks cut the input and repeat nothing: joined
    by spaces, the texts of the chunks give back the title and the sentences
    joined by spaces. *)
Theorem create_chunks_no_overlap cs ov txt title :
  (ov <= 0)%Z ->
  join (map text (create_chunks cs ov txt title)) = join (parts_of txt title).
Proof.
  intros Hov. rewrite create_chunks_groups.
  assert (Hmap : forall (l : list (list string)) i,
             map text (imap (fun j g => chunk_of (i + j) g) l) = map join l).
  { induction l as [|g l IH]; intros i; [done |]. cbn [imap map]. f_equal.
    rewrite <- (IH (S i)). f_equal. apply imap_ext. intros j x _. cbn. f_equal. lia. }
  rewrite <- (imap_ext (fun j g => chunk_of (0 + j) g) chunk_of) by done.
  rewrite Hmap.
  pose proof (groups_of_truthy cs ov txt title) as Htr.
  rewrite join_concat; [| eapply Forall_impl; [exact Htr | by intros g [? _]]].
  f_equal. unfold groups_of, parts_of.
  pose proof (group_loop_partition cs ov (sentences_of txt)
    (if PyStr.truthy title then [title] else [])
    (if PyStr.truthy title then len title else 0%Z) Hov
    (title_truthy title) (sentences_of_truthy txt)) as H.
  destruct (group_loop _ _ _ _ _) as [groups lst]. cbn [fst snd] in *.
  rewrite concat_app, <- H. f_equal.
  destruct lst; cbn; [done |]. by rewrite app_nil_r.
Qed.

Lemma create_chunks_no_overlap_witness :
  join (map text (create_chunks 20 0
          "Apple rose. Google fell! Why?  Nobody knows." "Markets"))
  = "Markets Apple rose Google fell Why Nobody knows.".
Proof.
  rewrite (create_chunks_no_overlap 20 0
             "Apple rose. Google fell! Why?  Nobody knows." "Markets"); [| lia].
  by vm_compute.
Defined.

End ChunkFacts.
